(** * PG-RCNN, [pcdet/utils/transform_utils.py]

    A shallow embedding of the three helpers of the module,
    [project_to_image], [normalize_coords] and [bin_depths], and the proofs of
    their documented properties.

    Modelling conventions.
    - A tensor entry is an exact real number or one of the three non-finite
      values +Inf, -Inf, NaN ([fnum]).  Arithmetic follows the IEEE rules for
      the non-finite values and for division by zero; on finite values it is
      exact: rounding, overflow and the sign of zero are not modelled.
    - Python scalars are finite: a [float] argument is a real ([R]), an [int]
      argument an integer ([Z]).  Python's own exceptions ([ZeroDivisionError]
      of [/] and [//], [ValueError] of [math.log]) are modelled, and so are
      the shape and index errors of the tensor library.
    - A tensor is its shape and its entries, addressed by multi-index
      ([tensor]), of any rank; [torch.int64] entries are integers ([Z]).
    - The two homogeneous-coordinate conversions come from an external
      library; they are modelled from their documented contract.
    - The value-level functions come first.  Module [Heap] repeats the three
      functions over a store of buffers, where tensors are handles that may
      alias, to settle what is and what is not written in place; the
      functions over the store are proved to compute what the value-level
      functions compute ([heap_bin_depths_raw], [heap_bin_depths_target],
      [heap_normalize_coords], [heap_project_to_image]).
    - The documented properties come first; the last part of the file proves
      further properties of the same three functions: which errors they
      raise and when, what the batched path of [project_to_image] computes,
      how [bin_depths] places a depth between the edges of its bins. *)

From Stdlib Require Import Reals Lra Lia ZArith List String Bool.
From stdpp Require Import gmap.
Import ListNotations.

(** ** Python exceptions and fallible results *)

Inductive exn : Type :=
  | NotImplementedError
  | ZeroDivisionError
  | ValueError
  | RuntimeError
  | IndexError
  | TypeError.

Inductive result (A : Type) : Type :=
  | Ok (a : A)
  | Err (e : exn).
Arguments Ok {A} a.
Arguments Err {A} e.

Definition rmap {A B} (f : A -> B) (m : result A) : result B :=
  match m with
  | Ok a => Ok (f a)
  | Err e => Err e
  end.

Definition rbind {A B} (m : result A) (k : A -> result B) : result B :=
  match m with
  | Ok a => k a
  | Err e => Err e
  end.

Notation "'let*' x ':=' m 'in' k" := (rbind m (fun x => k))
  (at level 10, x name, m at level 100, k at level 200).

(** ** Tensor entries *)

Inductive fnum : Type :=
  | Fin (r : R)
  | PInf
  | NInf
  | NaN.

Definition Rltb (a b : R) : bool := if Rlt_dec a b then true else false.
Definition Reqb (a b : R) : bool := if Req_dec_T a b then true else false.

Definition fneg (x : fnum) : fnum :=
  match x with
  | Fin r => Fin (- r)
  | PInf => NInf
  | NInf => PInf
  | NaN => NaN
  end.

Definition fadd (x y : fnum) : fnum :=
  match x, y with
  | NaN, _ => NaN
  | _, NaN => NaN
  | Fin a, Fin b => Fin (a + b)
  | PInf, NInf => NaN
  | NInf, PInf => NaN
  | PInf, _ => PInf
  | _, PInf => PInf
  | NInf, _ => NInf
  | _, NInf => NInf
  end.

Definition fsub (x y : fnum) : fnum := fadd x (fneg y).

(** The product of an infinity of sign [pos] with the finite [a]. *)
Definition inf_times (pos : bool) (a : R) : fnum :=
  if Rltb 0 a then (if pos then PInf else NInf)
  else if Rltb a 0 then (if pos then NInf else PInf)
  else NaN.

Definition fmul (x y : fnum) : fnum :=
  match x, y with
  | NaN, _ => NaN
  | _, NaN => NaN
  | Fin a, Fin b => Fin (a * b)
  | Fin a, PInf => inf_times true a
  | PInf, Fin a => inf_times true a
  | Fin a, NInf => inf_times false a
  | NInf, Fin a => inf_times false a
  | PInf, PInf => PInf
  | NInf, NInf => PInf
  | PInf, NInf => NInf
  | NInf, PInf => NInf
  end.

Definition fdiv (x y : fnum) : fnum :=
  match x, y with
  | NaN, _ => NaN
  | _, NaN => NaN
  | Fin a, Fin b =>
      if Reqb b 0 then inf_times true a else Fin (a / b)
  | Fin _, _ => Fin 0
  | PInf, Fin b => if Rltb b 0 then NInf else PInf
  | NInf, Fin b => if Rltb b 0 then PInf else NInf
  | _, _ => NaN
  end.

(** [torch.sqrt] and [torch.log] on one entry. *)
Definition fsqrt (x : fnum) : fnum :=
  match x with
  | Fin a => if Rltb a 0 then NaN else Fin (sqrt a)
  | PInf => PInf
  | _ => NaN
  end.

Definition flog (x : fnum) : fnum :=
  match x with
  | Fin a => if Rltb a 0 then NaN else if Reqb a 0 then NInf else Fin (ln a)
  | PInf => PInf
  | _ => NaN
  end.

(** Comparison: every comparison with NaN is false. *)
Definition flt (x y : fnum) : bool :=
  match x, y with
  | NaN, _ => false
  | _, NaN => false
  | Fin a, Fin b => Rltb a b
  | NInf, NInf => false
  | NInf, _ => true
  | _, NInf => false
  | PInf, _ => false
  | Fin _, PInf => true
  end.

Definition fgt (x y : fnum) : bool := flt y x.

Definition isfinite (x : fnum) : bool :=
  match x with
  | Fin _ => true
  | _ => false
  end.

(** Truncation toward zero of a real. *)
Definition Rtrunc (r : R) : Z :=
  if Rltb r 0 then (- Int_part (- r))%Z else Int_part r.

Definition int64_min : Z := (- 2 ^ 63)%Z.

(** The cast of an entry to [torch.int64]: truncation toward zero; a
    non-finite entry has no integer value and the cast yields the least
    [int64]. *)
Definition to_int64 (x : fnum) : Z :=
  match x with
  | Fin r => Rtrunc r
  | _ => int64_min
  end.

(** ** Python scalar operations that can raise *)

(** [a / b] on Python numbers. *)
Definition py_truediv (a b : R) : result R :=
  if Reqb b 0 then Err ZeroDivisionError else Ok (a / b)%R.

(** [a // b] on Python non-negative integers. *)
Definition py_floordiv (a b : nat) : result nat :=
  if Nat.eqb b 0 then Err ZeroDivisionError else Ok (a / b)%nat.

(** [math.log x]. *)
Definition math_log (x : R) : result R :=
  if Rltb 0 x then Ok (ln x) else Err ValueError.

(** ** Tensors *)

Record tensor (A : Type) : Type := mkT {
  dims : list nat;
  elt : list nat -> A
}.
Arguments mkT {A} dims elt.
Arguments dims {A} t.
Arguments elt {A} t idx.

(** A multi-index addresses an entry when it has the rank of the tensor and
    every component is below the extent of its axis. *)
Definition valid_index (d idx : list nat) : Prop := Forall2 lt idx d.

Definition tmap {A B} (f : A -> B) (t : tensor A) : tensor B :=
  mkT (dims t) (fun i => f (elt t i)).

(** Entrywise combination of two tensors of one shape. *)
Definition tzip {A B C} (f : A -> B -> C) (a : tensor A) (b : tensor B) : tensor C :=
  mkT (dims a) (fun i => f (elt a i) (elt b i)).

(** Tensor-with-scalar arithmetic: the scalar is broadcast to every entry. *)
Definition sub_scalar (t : tensor fnum) (c : R) : tensor fnum :=
  tmap (fun x => fsub x (Fin c)) t.
Definition div_scalar (t : tensor fnum) (c : R) : tensor fnum :=
  tmap (fun x => fdiv x (Fin c)) t.
Definition mul_scalar (t : tensor fnum) (c : R) : tensor fnum :=
  tmap (fun x => fmul x (Fin c)) t.
Definition add_scalar (t : tensor fnum) (c : R) : tensor fnum :=
  tmap (fun x => fadd x (Fin c)) t.
Definition scalar_add (c : R) (t : tensor fnum) : tensor fnum :=
  tmap (fun x => fadd (Fin c) x) t.
Definition scalar_mul (c : R) (t : tensor fnum) : tensor fnum :=
  tmap (fun x => fmul (Fin c) x) t.
Definition torch_sqrt : tensor fnum -> tensor fnum := tmap fsqrt.
Definition torch_log : tensor fnum -> tensor fnum := tmap flog.
Definition torch_isfinite : tensor fnum -> tensor bool := tmap isfinite.
Definition lt_scalar (t : tensor fnum) (c : R) : tensor bool :=
  tmap (fun x => flt x (Fin c)) t.
Definition gt_scalar (t : tensor fnum) (c : R) : tensor bool :=
  tmap (fun x => fgt x (Fin c)) t.
Definition mask_or : tensor bool -> tensor bool -> tensor bool := tzip orb.
Definition mask_not : tensor bool -> tensor bool := tmap negb.

(** [t[mask] = c], as the value of [t] after the assignment. *)
Definition masked_fill (t : tensor fnum) (mask : tensor bool) (c : R) : tensor fnum :=
  tzip (fun x (m : bool) => if m then Fin c else x) t mask.

(** [t.type(torch.int64)]. *)
Definition type_int64 : tensor fnum -> tensor Z := tmap to_int64.

(** ** [bin_depths] *)

(** What [bin_depths] returns: a floating tensor, or an [int64] one when
    [target] is set. *)
Inductive indices_t : Type :=
  | FloatTensor (t : tensor fnum)
  | LongTensor (t : tensor Z).

Definition bin_depths (depth_map : tensor fnum) (mode : string)
    (depth_min depth_max : R) (num_bins : Z) (target : bool) : result indices_t :=
  let* indices :=
    (if String.eqb mode "UD" then
       let* bin_size := py_truediv (depth_max - depth_min) (IZR num_bins) in
       Ok (div_scalar (sub_scalar depth_map depth_min) bin_size)
     else if String.eqb mode "LID" then
       let* bin_size :=
         py_truediv (2 * (depth_max - depth_min)) (IZR (num_bins * (1 + num_bins))) in
       Ok (scalar_add (-0.5)
             (scalar_mul 0.5
                (torch_sqrt
                   (scalar_add 1
                      (div_scalar (scalar_mul 8 (sub_scalar depth_map depth_min))
                         bin_size)))))
     else if String.eqb mode "SID" then
       let logs := torch_log (scalar_add 1 depth_map) in
       let* log_min := math_log (1 + depth_min) in
       let numerator := scalar_mul (IZR num_bins) (sub_scalar logs log_min) in
       let* log_max := math_log (1 + depth_max) in
       let* log_min' := math_log (1 + depth_min) in
       Ok (div_scalar numerator (log_max - log_min'))
     else Err NotImplementedError) in
  if target then
    let mask :=
      mask_or (mask_or (lt_scalar indices 0) (gt_scalar indices (IZR num_bins)))
        (mask_not (torch_isfinite indices)) in
    let indices := masked_fill indices mask (IZR num_bins) in
    Ok (LongTensor (type_int64 indices))
  else Ok (FloatTensor indices).

(** The modes [bin_depths] dispatches on. *)
Definition supported (mode : string) : Prop :=
  mode = "UD"%string \/ mode = "LID"%string \/ mode = "SID"%string.

(** The scalar prelude of a mode raises nothing: the divisor of [bin_size]
    is not zero (UD, LID) and [math.log] gets positive arguments (SID). *)
Definition prelude_ok (mode : string) (depth_min depth_max : R) (num_bins : Z) : Prop :=
  (mode = "UD"%string -> num_bins <> 0%Z) /\
  (mode = "LID"%string -> (num_bins * (1 + num_bins))%Z <> 0%Z) /\
  (mode = "SID"%string -> (-1 < depth_min)%R /\ (-1 < depth_max)%R).

(** ** The documented closed forms

    The three discretisation laws as the specification writes them, on one
    entry of the depth map. *)
Section ClosedForms.
Variables (depth_min depth_max : R) (num_bins : Z).

Definition spec_bin_size_UD : R := ((depth_max - depth_min) / IZR num_bins)%R.

Definition spec_index_UD (depth : fnum) : fnum :=
  fdiv (fsub depth (Fin depth_min)) (Fin spec_bin_size_UD).

Definition spec_bin_size_LID : R :=
  (2 * (depth_max - depth_min) / (IZR num_bins * (IZR num_bins + 1)))%R.

Definition spec_index_LID (depth : fnum) : fnum :=
  fadd (Fin (-0.5))
    (fmul (Fin 0.5)
       (fsqrt (fadd (Fin 1)
                 (fdiv (fmul (Fin 8) (fsub depth (Fin depth_min)))
                    (Fin spec_bin_size_LID))))).

Definition spec_index_SID (depth : fnum) : fnum :=
  fdiv (fmul (Fin (IZR num_bins))
          (fsub (flog (fadd (Fin 1) depth)) (Fin (ln (1 + depth_min)))))
    (Fin (ln (1 + depth_max) - ln (1 + depth_min))).

(** The law of a supported mode. *)
Definition spec_index (mode : string) : fnum -> fnum :=
  if String.eqb mode "UD" then spec_index_UD
  else if String.eqb mode "LID" then spec_index_LID
  else spec_index_SID.

(** The same laws on a finite depth, as real numbers. *)
Definition real_index_UD (d : R) : R :=
  ((d - depth_min) / ((depth_max - depth_min) / IZR num_bins))%R.

Definition real_index_LID (d : R) : R :=
  (-0.5 + 0.5 * sqrt (1 + 8 * (d - depth_min) /
     (2 * (depth_max - depth_min) / (IZR num_bins * (IZR num_bins + 1)))))%R.

Definition real_index_SID (d : R) : R :=
  (IZR num_bins * (ln (1 + d) - ln (1 + depth_min)) /
     (ln (1 + depth_max) - ln (1 + depth_min)))%R.
End ClosedForms.

(** The entries the target branch replaces: those below 0, above
    [num_bins], or not finite. *)
Definition out_of_bounds (num_bins : Z) (x : fnum) : Prop :=
  match x with
  | Fin r => (r < 0 \/ IZR num_bins < r)%R
  | _ => True
  end.

(** The mask of the target branch on one entry. *)
Definition target_mask (num_bins : Z) (x : fnum) : bool :=
  flt x (Fin 0) || fgt x (Fin (IZR num_bins)) || negb (isfinite x).

(** ** Shapes, broadcasting and views *)

Definition numel (d : list nat) : nat := fold_right Nat.mul 1%nat d.

(** The leading (batch) axes of a shape whose last two axes are a matrix,
    and the extents of those two axes. *)
Definition batch_dims (d : list nat) : list nat := removelast (removelast d).
Definition rows (d : list nat) : nat := List.last (removelast d) 0%nat.
Definition cols (d : list nat) : nat := List.last d 0%nat.

(** Broadcasting aligns shapes at their last axis; the definitions below
    work on reversed shapes and indices, where that is the head. *)
Fixpoint broadcast_rev (a b : list nat) : option (list nat) :=
  match a, b with
  | [], _ => Some b
  | _, [] => Some a
  | x :: a', y :: b' =>
      match broadcast_rev a' b' with
      | None => None
      | Some r =>
          if Nat.eqb x y then Some (x :: r)
          else if Nat.eqb x 1 then Some (y :: r)
          else if Nat.eqb y 1 then Some (x :: r)
          else None
      end
  end.

Definition broadcast_shapes (a b : list nat) : option (list nat) :=
  option_map (@rev nat) (broadcast_rev (rev a) (rev b)).

(** The index of an operand of shape [d] behind the index [idx] of the
    broadcast result: the trailing components of [idx], with 0 on the axes
    of extent 1. *)
Fixpoint bproj_rev (d idx : list nat) : list nat :=
  match d, idx with
  | x :: d', i :: idx' => (if Nat.eqb x 1 then 0%nat else i) :: bproj_rev d' idx'
  | _, _ => []
  end.

Definition bproj (d idx : list nat) : list nat :=
  rev (bproj_rev (rev d) (rev idx)).

(** An entrywise binary operation with broadcasting. *)
Definition broadcast2 {A B C} (f : A -> B -> C) (a : tensor A) (b : tensor B)
    : result (tensor C) :=
  match broadcast_shapes (dims a) (dims b) with
  | None => Err RuntimeError
  | Some d =>
      Ok (mkT d (fun idx => f (elt a (bproj (dims a) idx)) (elt b (bproj (dims b) idx))))
  end.

(** Row-major offsets: [ravel d idx] is the position of [idx] in a
    contiguous tensor of shape [d], [unravel d] its inverse. *)
Fixpoint ravel (d idx : list nat) : nat :=
  match d, idx with
  | _ :: d', i :: idx' => (i * numel d' + ravel d' idx')%nat
  | _, _ => 0%nat
  end.

Fixpoint unravel (d : list nat) (off : nat) : list nat :=
  match d with
  | [] => []
  | _ :: d' => (off / numel d')%nat :: unravel d' (off mod numel d')%nat
  end.

(** [t.reshape] to a shape [d] without [-1]. *)
Definition reshape {A} (t : tensor A) (d : list nat) : result (tensor A) :=
  if Nat.eqb (numel d) (numel (dims t))
  then Ok (mkT d (fun idx => elt t (unravel (dims t) (ravel d idx))))
  else Err RuntimeError.

(** [t.reshape(-1, t.shape[-2], t.shape[-1])]: the tuple lookups need two
    axes, and the extent [-1] stands for cannot be inferred when the other
    two multiply to 0. *)
Definition reshape_batch {A} (t : tensor A) : result (tensor A) :=
  if Nat.ltb (length (dims t)) 2 then Err IndexError
  else
    let r := rows (dims t) in
    let c := cols (dims t) in
    if Nat.eqb (r * c) 0 then Err RuntimeError
    else reshape t [(numel (dims t) / (r * c))%nat; r; c].

(** [torch.flip(t, dims=[0])]. *)
Definition flip0 {A} (t : tensor A) : result (tensor A) :=
  match dims t with
  | [] => Err IndexError
  | n :: _ =>
      Ok (mkT (dims t)
            (fun idx =>
               match idx with
               | i :: rest => elt t ((n - 1 - i)%nat :: rest)
               | [] => elt t []
               end))
  end.

(** [t.unsqueeze(dim=-1)]. *)
Definition unsqueeze_last {A} (t : tensor A) : tensor A :=
  mkT (dims t ++ [1%nat]) (fun idx => elt t (removelast idx)).

(** The index of [t] behind an index of [t.unsqueeze(dim=1)]. *)
Definition drop_axis1 (idx : list nat) : list nat :=
  match idx with
  | i :: _ :: rest => i :: rest
  | _ => idx
  end.

(** [t.unsqueeze(dim=1)]: a tensor without axes has no position 1. *)
Definition unsqueeze1 {A} (t : tensor A) : result (tensor A) :=
  match dims t with
  | [] => Err IndexError
  | n :: rest => Ok (mkT (n :: 1%nat :: rest) (fun idx => elt t (drop_axis1 idx)))
  end.

(** [t.squeeze(dim=-1)]: the last axis goes when its extent is 1. *)
Definition squeeze_last {A} (t : tensor A) : tensor A :=
  match dims t with
  | [] => t
  | _ =>
      if Nat.eqb (cols (dims t)) 1
      then mkT (removelast (dims t)) (fun idx => elt t (idx ++ [0%nat]))
      else t
  end.

(** [t[..., -1]]. *)
Definition index_last {A} (t : tensor A) : result (tensor A) :=
  match dims t with
  | [] => Err IndexError
  | _ =>
      let n := cols (dims t) in
      if Nat.eqb n 0 then Err IndexError
      else Ok (mkT (removelast (dims t)) (fun idx => elt t (idx ++ [(n - 1)%nat])))
  end.

(** [t[..., 2, 3]]. *)
Definition index_2_3 {A} (t : tensor A) : result (tensor A) :=
  if Nat.ltb (length (dims t)) 2 then Err IndexError
  else if Nat.leb (rows (dims t)) 2 || Nat.leb (cols (dims t)) 3 then Err IndexError
  else Ok (mkT (batch_dims (dims t)) (fun idx => elt t (idx ++ [2%nat; 3%nat]))).

(** The index of [t] behind an index of [t.permute(0, 2, 1)]. *)
Definition swap_axes12 (idx : list nat) : list nat :=
  match idx with
  | [i; j; k] => [i; k; j]
  | _ => idx
  end.

(** [t.permute(0, 2, 1)]. *)
Definition permute021 {A} (t : tensor A) : result (tensor A) :=
  match dims t with
  | [b; r; c] => Ok (mkT [b; c; r] (fun idx => elt t (swap_axes12 idx)))
  | _ => Err RuntimeError
  end.

(** [torch.repeat_interleave(t, repeats=n, dim=0)]. *)
Definition repeat_interleave0 {A} (t : tensor A) (n : nat) : result (tensor A) :=
  match dims t with
  | [] => Err IndexError
  | b :: rest =>
      Ok (mkT ((b * n)%nat :: rest)
            (fun idx =>
               match idx with
               | i :: irest => elt t ((i / n)%nat :: irest)
               | [] => elt t []
               end))
  end.

(** The inner product the matrix products accumulate. *)
Definition dot (k : nat) (u v : nat -> fnum) : fnum :=
  fold_left (fun acc l => fadd acc (fmul (u l) (v l))) (seq 0 k) (Fin 0).

(** [a @ b] for operands with at least two axes each, the case
    [project_to_image] reaches: a batch of matrix products, the batch axes
    broadcast. *)
Definition matmul (a b : tensor fnum) : result (tensor fnum) :=
  if Nat.ltb (length (dims a)) 2 || Nat.ltb (length (dims b)) 2 then Err RuntimeError
  else if negb (Nat.eqb (cols (dims a)) (rows (dims b))) then Err RuntimeError
  else
    match broadcast_shapes (batch_dims (dims a)) (batch_dims (dims b)) with
    | None => Err RuntimeError
    | Some bd =>
        Ok (mkT (bd ++ [rows (dims a); cols (dims b)])
              (fun idx =>
                 let bi := batch_dims idx in
                 dot (cols (dims a))
                   (fun l => elt a (bproj (batch_dims (dims a)) bi ++ [rows idx; l]))
                   (fun l => elt b (bproj (batch_dims (dims b)) bi ++ [l; cols idx]))))
    end.

(** [torch.bmm(a, b)]: two tensors of three axes with one batch count. *)
Definition torch_bmm (a b : tensor fnum) : result (tensor fnum) :=
  match dims a, dims b with
  | [ba; n; k], [bb; k'; m] =>
      if Nat.eqb ba bb && Nat.eqb k k'
      then
        Ok (mkT [ba; n; m]
              (fun idx =>
                 match idx with
                 | [i; r; c] => dot k (fun l => elt a [i; r; l]) (fun l => elt b [i; l; c])
                 | _ => NaN
                 end))
      else Err RuntimeError
  | _, _ => Err RuntimeError
  end.

(** ** The homogeneous-coordinate conversions *)

(** Modelled from the spec: [convert_points_to_homogeneous] belongs to the
    external geometry library and is not part of the module.  The
    specification gives its contract: on an array of shape (..., N) it
    appends a unit coordinate, the result has shape (..., N+1).  An array
    without axes has no last coordinate. *)
Definition convert_points_to_homogeneous (points : tensor fnum) : result (tensor fnum) :=
  match dims points with
  | [] => Err ValueError
  | _ =>
      let n := cols (dims points) in
      Ok (mkT (removelast (dims points) ++ [S n])
            (fun idx => if Nat.ltb (cols idx) n then elt points idx else Fin 1))
  end.

(** Modelled from the spec: [convert_points_from_homogeneous] belongs to the
    external geometry library too.  Its contract: on an array of shape
    (..., N+1) it divides the leading N coordinates by the last one and
    drops it. *)
Definition convert_points_from_homogeneous (points : tensor fnum) : result (tensor fnum) :=
  match dims points with
  | [] => Err ValueError
  | _ =>
      match cols (dims points) with
      | O => Err ValueError
      | S n =>
          Ok (mkT (removelast (dims points) ++ [n])
                (fun idx => fdiv (elt points idx) (elt points (removelast idx ++ [n]))))
      end
  end.

(** ** [project_to_image] *)

Definition project_to_image (project points : tensor fnum) (bmm : bool)
    : result (tensor fnum * tensor fnum) :=
  let* points := convert_points_to_homogeneous points in
  let* res :=
    (if negb bmm then
       let points := unsqueeze_last points in
       let* project := unsqueeze1 project in
       let* points_t := matmul project points in
       let points_t := squeeze_last points_t in
       let* last := index_last points_t in
       let* offset := index_2_3 project in
       let* points_depth := broadcast2 fsub last offset in
       Ok (points_t, points_depth)
     else
       let raw_shape := dims points in
       let raw_project := project in
       let* points := reshape_batch points in
       let* project := reshape_batch project in
       let* project := permute021 project in
       let* repeats := py_floordiv (hd 0%nat (dims points)) (hd 0%nat (dims project)) in
       let* project := repeat_interleave0 project repeats in
       let* points_t := torch_bmm points project in
       let* points_t := reshape points_t (removelast raw_shape ++ [3%nat]) in
       let* last := index_last points_t in
       let* offset := index_2_3 raw_project in
       let* points_depth := broadcast2 fsub last offset in
       Ok (points_t, points_depth)) in
  let* points_img := convert_points_from_homogeneous (fst res) in
  Ok (points_img, snd res).

(** ** [normalize_coords] *)

Definition normalize_coords (coords shape : tensor fnum) : result (tensor fnum) :=
  let min_n := (-1)%Z in
  let max_n := 1%Z in
  let* shape := flip0 shape in
  let* ratio := broadcast2 fdiv coords (sub_scalar shape 1) in
  Ok (add_scalar (mul_scalar ratio (IZR (max_n - min_n))) (IZR min_n)).

(** The normalisation the specification documents, on one coordinate and the
    extent [size] of its axis: [(coord / (size - 1)) * 2 - 1]. *)
Definition spec_normalize (coord size : fnum) : fnum :=
  fsub (fmul (fdiv coord (fsub size (Fin 1))) (Fin 2)) (Fin 1).

(** Row [i] of the matrix of [project] at batch index [pidx] applied to the
    point of [points] at batch index [qidx], with the homogeneous 1
    appended: coordinate [i] of the transformed point. *)
Definition transformed (project points : tensor fnum) (pidx qidx : list nat) (i : nat)
    : fnum :=
  let P l := elt project (pidx ++ [i; l]) in
  let p l := elt points (qidx ++ [l]) in
  fadd (fadd (fadd (fmul (P 0%nat) (p 0%nat)) (fmul (P 1%nat) (p 1%nat)))
          (fmul (P 2%nat) (p 2%nat)))
    (fmul (P 3%nat) (Fin 1)).

(** A batch of projection matrices whose left 3x3 block is the identity and
    whose translation column is zero. *)
Definition identity_like (project : tensor fnum) : Prop :=
  forall pidx i l,
    valid_index (dims project) (pidx ++ [i; l]) ->
    elt project (pidx ++ [i; l]) = Fin (if Nat.eqb i l then 1 else 0).

(** Concrete tensors for the examples: projection matrices that are
    identity-like whatever the batch index, and points whose coordinates
    are all [c]. *)
Definition eye_project (d : list nat) : tensor fnum :=
  mkT d (fun idx => Fin (if Nat.eqb (rows idx) (cols idx) then 1 else 0)).

Definition const_points (d : list nat) (c : R) : tensor R := mkT d (fun _ => c).

(** * The functions over a store of buffers

    A tensor of the program is a handle: the buffer it reads and, for every
    index of the tensor, the index of that buffer it stands for.  Operations
    that compute ([-], [/], [torch.log], [@], ...) allocate a buffer for
    their result; views ([unsqueeze], [squeeze], indexing, [permute],
    [reshape]) return a handle on the buffer of their argument; the indexed
    assignment [t[mask] = c] writes into the buffer of [t].  The store
    outlives an exception. *)
Module Heap.

Definition loc : Type := positive.

Inductive buffer : Type :=
  | FloatBuf (t : tensor fnum)
  | BoolBuf (t : tensor bool)
  | LongBuf (t : tensor Z).

Abbreviation store := (gmap loc buffer).

Record handle : Type := mkH {
  hloc : loc;
  hidx : tensor (list nat)
}.

Definition M (A : Type) : Type := store -> result A * store.

Definition ret {A} (a : A) : M A := fun s => (Ok a, s).
Definition raise {A} (e : exn) : M A := fun s => (Err e, s).
Definition lift {A} (r : result A) : M A := fun s => (r, s).
Definition bind {A B} (m : M A) (k : A -> M B) : M B :=
  fun s =>
    match m s with
    | (Ok a, s') => k a s'
    | (Err e, s') => (Err e, s')
    end.

Notation "x <- m ;; k" := (bind m (fun x => k))
  (at level 100, m at level 99, k at level 200, only parsing).

(** The handle of a whole buffer of shape [d]. *)
Definition index_tensor (d : list nat) : tensor (list nat) := mkT d (fun idx => idx).

(** The tensor a handle stands for. *)
Definition read_float (h : handle) : M (tensor fnum) :=
  fun s =>
    match s !! hloc h with
    | Some (FloatBuf base) => (Ok (tmap (elt base) (hidx h)), s)
    | _ => (Err TypeError, s)
    end.

Definition read_bool (h : handle) : M (tensor bool) :=
  fun s =>
    match s !! hloc h with
    | Some (BoolBuf base) => (Ok (tmap (elt base) (hidx h)), s)
    | _ => (Err TypeError, s)
    end.

Definition read_long (h : handle) : M (tensor Z) :=
  fun s =>
    match s !! hloc h with
    | Some (LongBuf base) => (Ok (tmap (elt base) (hidx h)), s)
    | _ => (Err TypeError, s)
    end.

(** A new buffer, at a location the store does not hold. *)
Definition alloc (b : buffer) (d : list nat) : M handle :=
  fun s =>
    let l := fresh (dom s) in
    (Ok (mkH l (index_tensor d)), <[l := b]> s).

Definition new_float (t : tensor fnum) : M handle := alloc (FloatBuf t) (dims t).
Definition new_bool (t : tensor bool) : M handle := alloc (BoolBuf t) (dims t).
Definition new_long (t : tensor Z) : M handle := alloc (LongBuf t) (dims t).

(** A view: the rearrangement [op] of the indices of a handle, on the same
    buffer. *)
Definition view (op : tensor (list nat) -> result (tensor (list nat))) (h : handle)
    : M handle :=
  match op (hidx h) with
  | Ok i => ret (mkH (hloc h) i)
  | Err e => raise e
  end.

(** Operations that compute a new tensor. *)
Definition map_float (f : tensor fnum -> tensor fnum) (h : handle) : M handle :=
  t <- read_float h ;; new_float (f t).

Definition try_float (f : tensor fnum -> result (tensor fnum)) (h : handle) : M handle :=
  t <- read_float h ;; r <- lift (f t) ;; new_float r.

Definition try_float2 (f : tensor fnum -> tensor fnum -> result (tensor fnum))
    (a b : handle) : M handle :=
  x <- read_float a ;; y <- read_float b ;; r <- lift (f x y) ;; new_float r.

Definition map_mask (f : tensor fnum -> tensor bool) (h : handle) : M handle :=
  t <- read_float h ;; new_bool (f t).

Definition map_bool (f : tensor bool -> tensor bool) (h : handle) : M handle :=
  t <- read_bool h ;; new_bool (f t).

Definition zip_bool (f : tensor bool -> tensor bool -> tensor bool) (a b : handle)
    : M handle :=
  x <- read_bool a ;; y <- read_bool b ;; new_bool (f x y).

Definition cast_int64 (h : handle) : M handle :=
  t <- read_float h ;; new_long (type_int64 t).

(** Every index of a tensor of shape [d]. *)
Fixpoint all_indices (d : list nat) : list (list nat) :=
  match d with
  | [] => [[]]
  | n :: d' => flat_map (fun i => map (cons i) (all_indices d')) (seq 0 n)
  end.

Definition index_eqb (a b : list nat) : bool := bool_decide (a = b).

(** [h[mask] = c]: the cells of the buffer of [h] behind the indices of
    [h] that [mask] selects are overwritten, in place. *)
Definition index_put_ (h mask : handle) (c : R) : M unit :=
  m <- read_bool mask ;;
  fun s =>
    match s !! hloc h with
    | Some (FloatBuf base) =>
        if bool_decide (dims m = dims (hidx h)) then
          let hit j :=
            existsb (fun i => elt m i && index_eqb (elt (hidx h) i) j)
              (all_indices (dims (hidx h))) in
          (Ok tt,
           <[hloc h := FloatBuf (mkT (dims base)
                                   (fun j => if hit j then Fin c else elt base j))]> s)
        else (Err IndexError, s)
    | _ => (Err TypeError, s)
    end.

Definition bin_depths (depth_map : handle) (mode : string)
    (depth_min depth_max : R) (num_bins : Z) (target : bool) : M handle :=
  indices <-
    (if String.eqb mode "UD" then
       bin_size <- lift (py_truediv (depth_max - depth_min) (IZR num_bins)) ;;
       shifted <- map_float (fun t => sub_scalar t depth_min) depth_map ;;
       map_float (fun t => div_scalar t bin_size) shifted
     else if String.eqb mode "LID" then
       bin_size <-
         lift (py_truediv (2 * (depth_max - depth_min))
                 (IZR (num_bins * (1 + num_bins)))) ;;
       shifted <- map_float (fun t => sub_scalar t depth_min) depth_map ;;
       scaled <- map_float (scalar_mul 8) shifted ;;
       ratio <- map_float (fun t => div_scalar t bin_size) scaled ;;
       radicand <- map_float (scalar_add 1) ratio ;;
       root <- map_float torch_sqrt radicand ;;
       half <- map_float (scalar_mul 0.5) root ;;
       map_float (scalar_add (-0.5)) half
     else if String.eqb mode "SID" then
       shifted <- map_float (scalar_add 1) depth_map ;;
       logs <- map_float torch_log shifted ;;
       log_min <- lift (math_log (1 + depth_min)) ;;
       diff <- map_float (fun t => sub_scalar t log_min) logs ;;
       numerator <- map_float (scalar_mul (IZR num_bins)) diff ;;
       log_max <- lift (math_log (1 + depth_max)) ;;
       log_min' <- lift (math_log (1 + depth_min)) ;;
       map_float (fun t => div_scalar t (log_max - log_min')) numerator
     else raise NotImplementedError) ;;
  if target then
    below <- map_mask (fun t => lt_scalar t 0) indices ;;
    above <- map_mask (fun t => gt_scalar t (IZR num_bins)) indices ;;
    outside <- zip_bool mask_or below above ;;
    finite <- map_mask torch_isfinite indices ;;
    nonfinite <- map_bool mask_not finite ;;
    mask <- zip_bool mask_or outside nonfinite ;;
    _ <- index_put_ indices mask (IZR num_bins) ;;
    cast_int64 indices
  else ret indices.

Definition normalize_coords (coords shape : handle) : M handle :=
  let min_n := (-1)%Z in
  let max_n := 1%Z in
  shape <- try_float flip0 shape ;;
  extent <- map_float (fun t => sub_scalar t 1) shape ;;
  ratio <- try_float2 (broadcast2 fdiv) coords extent ;;
  scaled <- map_float (fun t => mul_scalar t (IZR (max_n - min_n))) ratio ;;
  map_float (fun t => add_scalar t (IZR min_n)) scaled.

Definition project_to_image (project points : handle) (bmm : bool)
    : M (handle * handle) :=
  points <- try_float convert_points_to_homogeneous points ;;
  res <-
    (if negb bmm then
       points <- view (fun i => Ok (unsqueeze_last i)) points ;;
       project <- view unsqueeze1 project ;;
       points_t <- try_float2 matmul project points ;;
       points_t <- view (fun i => Ok (squeeze_last i)) points_t ;;
       last <- view index_last points_t ;;
       offset <- view index_2_3 project ;;
       points_depth <- try_float2 (broadcast2 fsub) last offset ;;
       ret (points_t, points_depth)
     else
       let raw_shape := dims (hidx points) in
       let raw_project := project in
       points <- view reshape_batch points ;;
       project <- view reshape_batch project ;;
       project <- view permute021 project ;;
       repeats <-
         lift (py_floordiv (hd 0%nat (dims (hidx points)))
                 (hd 0%nat (dims (hidx project)))) ;;
       project <- try_float (fun t => repeat_interleave0 t repeats) project ;;
       points_t <- try_float2 torch_bmm points project ;;
       points_t <- view (fun i => reshape i (removelast raw_shape ++ [3%nat])) points_t ;;
       last <- view index_last points_t ;;
       offset <- view index_2_3 raw_project ;;
       points_depth <- try_float2 (broadcast2 fsub) last offset ;;
       ret (points_t, points_depth)) ;;
  points_img <- try_float convert_points_from_homogeneous (fst res) ;;
  ret (points_img, snd res).

(** [frames s0 m Q]: run from any store that extends [s0], the
    computation [m] leaves every buffer of [s0] as it was, whether it
    returns or raises, and what it returns satisfies [Q]. *)
Definition frames {A} (s0 : store) (m : M A) (Q : A -> Prop) : Prop :=
  forall s, s0 ⊆ s -> s0 ⊆ snd (m s) /\ forall a, fst (m s) = Ok a -> Q a.

(** A handle on a buffer that [s0] does not hold. *)
Definition fresh_for (s0 : store) (h : handle) : Prop := s0 !! hloc h = None.

(** [h] is the handle of the whole buffer [b] of shape [d]. *)
Definition owns (s : store) (h : handle) (b : buffer) (d : list nat) : Prop :=
  s !! hloc h = Some b /\ hidx h = index_tensor d.

(** The handle [h] stands for the floating tensor [t] in the store [s]. *)
Definition denotes (s : store) (h : handle) (t : tensor fnum) : Prop :=
  read_float h s = (Ok t, s).

(** The computation [m] over the store, run from [s], does what the value
    [p] says: it returns when [p] is a value, a result related to it by [R],
    it raises what [p] raises, and keeps the buffers of [s]. *)
Definition refines {A B} (R : A -> B -> store -> Prop) (s : store)
    (p : result A) (m : M B) : Prop :=
  match p, m s with
  | Ok a, (Ok b, s') => s ⊆ s' /\ R a b s'
  | Err e, (Err e', s') => e = e' /\ s ⊆ s'
  | _, _ => False
  end.

(** The relation of a tensor and its handle. *)
Definition tensor_rel (t : tensor fnum) (h : handle) (s : store) : Prop := denotes s h t.

End Heap.

(** ** Concrete inputs of the examples *)

(** A one-entry depth map. *)
Definition depth_map_of (x : fnum) : tensor fnum := mkT [1%nat] (fun _ => x).

(** The store of the example: one buffer, the caller's depth map, whose only
    entry is the depth -1. *)
Definition caller_depth_map : tensor fnum := depth_map_of (Fin (-1)).
Definition caller_store : Heap.store := {[ 1%positive := Heap.FloatBuf caller_depth_map ]}.
Definition caller_handle : Heap.handle := Heap.mkH 1%positive (Heap.index_tensor [1%nat]).

(** A depth map of two entries: NaN and the depth 2.7. *)
Definition example_depths : tensor fnum :=
  mkT [2%nat] (fun idx => if Nat.eqb (hd 0%nat idx) 0 then NaN else Fin 2.7).

(** ** The bin edges of [bin_depths]

    The depth at which bin [i] starts, by the law each mode of [bin_depths]
    inverts (the discretisations the docstring refers to): bins of one width
    (UD), of linearly increasing width (LID), of one width in
    [log (1 + depth)] (SID). *)
Definition bin_edge (mode : string) (depth_min depth_max : R) (num_bins : Z) (i : Z) : R :=
  if String.eqb mode "UD" then
    (depth_min + IZR i * ((depth_max - depth_min) / IZR num_bins))%R
  else if String.eqb mode "LID" then
    (depth_min +
     2 * (depth_max - depth_min) / (IZR num_bins * (IZR num_bins + 1)) *
     (IZR i * (IZR i + 1) / 2))%R
  else
    (exp (ln (1 + depth_min) +
          IZR i * (ln (1 + depth_max) - ln (1 + depth_min)) / IZR num_bins) - 1)%R.

(** ** The batched path of [project_to_image]

    The batch index of the projection matrix that the batched path applies
    to the points of batch index [i]: the points are flattened to [numel pb]
    batches, each of the [numel qb] matrices is repeated
    [numel pb // numel qb] times in a row, and [torch.bmm] pairs the two
    sequences position by position. *)
Definition matrix_of_batch (qb pb i : list nat) : list nat :=
  unravel qb (ravel pb i / (numel pb / numel qb))%nat.

(** * Proofs *)

(** ** Deciding real comparisons *)

Lemma Rltb_true a b : (a < b)%R -> Rltb a b = true.
Proof. intros H. unfold Rltb. destruct (Rlt_dec a b); [reflexivity | contradiction]. Qed.

Lemma Rltb_false a b : ~ (a < b)%R -> Rltb a b = false.
Proof. intros H. unfold Rltb. destruct (Rlt_dec a b); [contradiction | reflexivity]. Qed.

Lemma Reqb_true a b : a = b -> Reqb a b = true.
Proof. intros H. unfold Reqb. destruct (Req_dec_T a b); [reflexivity | contradiction]. Qed.

Lemma Reqb_false a b : a <> b -> Reqb a b = false.
Proof. intros H. unfold Reqb. destruct (Req_dec_T a b); [contradiction | reflexivity]. Qed.

Lemma py_truediv_ok a b : b <> 0%R -> py_truediv a b = Ok (a / b)%R.
Proof. intros H. unfold py_truediv. now rewrite Reqb_false. Qed.

Lemma math_log_ok x : (0 < x)%R -> math_log x = Ok (ln x).
Proof. intros H. unfold math_log. now rewrite Rltb_true. Qed.

Lemma math_log_err x : (x <= 0)%R -> math_log x = Err ValueError.
Proof. intros H. unfold math_log. rewrite Rltb_false; [reflexivity | lra]. Qed.

(** ** [bin_depths]: the value before the target branch *)

Lemma spec_bin_size_LID_eq depth_min depth_max num_bins :
  (2 * (depth_max - depth_min) / IZR (num_bins * (1 + num_bins)))%R
  = spec_bin_size_LID depth_min depth_max num_bins.
Proof.
  unfold spec_bin_size_LID. rewrite mult_IZR, plus_IZR.
  replace (1 + IZR num_bins)%R with (IZR num_bins + 1)%R by lra. reflexivity.
Qed.

(** Whatever [bin_depths] returns with [target] unset is the floating tensor
    of the closed form of its mode. *)
Lemma bin_depths_raw_inv dm mode depth_min depth_max num_bins out :
  bin_depths dm mode depth_min depth_max num_bins false = Ok out ->
  supported mode /\
  exists t, out = FloatTensor t /\ dims t = dims dm /\
    forall idx, elt t idx = spec_index depth_min depth_max num_bins mode (elt dm idx).
Proof.
  unfold bin_depths, spec_index.
  destruct (String.eqb mode "UD") eqn:EUD; [|destruct (String.eqb mode "LID") eqn:ELID;
    [|destruct (String.eqb mode "SID") eqn:ESID]].
  - apply String.eqb_eq in EUD. unfold py_truediv.
    destruct (Reqb (IZR num_bins) 0); simpl; [discriminate|].
    intros [= <-]. split; [now left|]. eexists; split; [reflexivity|]. split; reflexivity.
  - apply String.eqb_eq in ELID. unfold py_truediv.
    destruct (Reqb (IZR (num_bins * (1 + num_bins))) 0); simpl; [discriminate|].
    intros [= <-]. split; [right; now left|]. eexists; split; [reflexivity|].
    split; [reflexivity|]. intros idx. simpl. unfold spec_index_LID.
    now rewrite spec_bin_size_LID_eq.
  - apply String.eqb_eq in ESID. unfold math_log.
    destruct (Rltb 0 (1 + depth_min)); simpl; [|discriminate].
    destruct (Rltb 0 (1 + depth_max)); simpl; [|discriminate].
    intros [= <-]. split; [right; now right|]. eexists; split; [reflexivity|].
    split; reflexivity.
  - simpl. discriminate.
Qed.

Lemma bin_depths_unsupported dm mode depth_min depth_max num_bins target :
  ~ supported mode ->
  bin_depths dm mode depth_min depth_max num_bins target = Err NotImplementedError.
Proof.
  intros H. unfold bin_depths.
  destruct (String.eqb mode "UD") eqn:EUD;
    [apply String.eqb_eq in EUD; exfalso; apply H; now left|].
  destruct (String.eqb mode "LID") eqn:ELID;
    [apply String.eqb_eq in ELID; exfalso; apply H; right; now left|].
  destruct (String.eqb mode "SID") eqn:ESID;
    [apply String.eqb_eq in ESID; exfalso; apply H; right; now right|].
  reflexivity.
Qed.

(** The error of a supported mode comes from the scalar prelude, never from
    the dispatch. *)
Lemma bin_depths_supported_error dm mode depth_min depth_max num_bins target e :
  supported mode ->
  bin_depths dm mode depth_min depth_max num_bins target = Err e ->
  e = ZeroDivisionError \/ e = ValueError.
Proof.
  intros [-> | [-> | ->]]; unfold bin_depths; simpl.
  - unfold py_truediv. destruct (Reqb (IZR num_bins) 0); simpl.
    + intros [= <-]. now left.
    + destruct target; discriminate.
  - unfold py_truediv. destruct (Reqb (IZR (num_bins * (1 + num_bins))) 0); simpl.
    + intros [= <-]. now left.
    + destruct target; discriminate.
  - unfold math_log. destruct (Rltb 0 (1 + depth_min)); simpl.
    + destruct (Rltb 0 (1 + depth_max)); simpl.
      * destruct target; discriminate.
      * intros [= <-]. now right.
    + intros [= <-]. now right.
Qed.

(** With a sound scalar prelude a supported mode returns, with or without
    [target]. *)
Lemma bin_depths_returns dm mode depth_min depth_max num_bins target :
  supported mode -> prelude_ok mode depth_min depth_max num_bins ->
  exists out, bin_depths dm mode depth_min depth_max num_bins target = Ok out.
Proof.
  intros Hm (HUD & HLID & HSID). unfold bin_depths.
  destruct Hm as [-> | [-> | ->]]; simpl.
  - rewrite py_truediv_ok by (apply not_0_IZR; auto). simpl.
    destruct target; eexists; reflexivity.
  - rewrite py_truediv_ok by (apply not_0_IZR; auto). simpl.
    destruct target; eexists; reflexivity.
  - destruct (HSID eq_refl) as [H1 H2].
    rewrite !math_log_ok by lra. simpl.
    destruct target; eexists; reflexivity.
Qed.

(** The target branch reads the very tensor the other branch returns. *)
Lemma bin_depths_target_of_raw dm mode depth_min depth_max num_bins raw :
  bin_depths dm mode depth_min depth_max num_bins false = Ok (FloatTensor raw) ->
  bin_depths dm mode depth_min depth_max num_bins true =
  Ok (LongTensor
        (type_int64
           (masked_fill raw
              (mask_or (mask_or (lt_scalar raw 0) (gt_scalar raw (IZR num_bins)))
                 (mask_not (torch_isfinite raw)))
              (IZR num_bins)))).
Proof.
  unfold bin_depths.
  match goal with |- rbind ?m _ = _ -> _ => destruct m as [ind|e] end; simpl.
  - now intros [= ->].
  - discriminate.
Qed.

Lemma bin_depths_error_any_target dm mode depth_min depth_max num_bins e :
  bin_depths dm mode depth_min depth_max num_bins false = Err e <->
  bin_depths dm mode depth_min depth_max num_bins true = Err e.
Proof.
  unfold bin_depths.
  match goal with |- rbind ?m _ = _ <-> _ => destruct m as [ind|e'] end; simpl.
  - split; discriminate.
  - reflexivity.
Qed.

(** ** The closed forms on finite depths *)

Section ClosedFormFacts.
Variables (depth_min depth_max : R) (num_bins : Z).
Hypothesis Hrange : (depth_min < depth_max)%R.
Hypothesis Hbins : (1 <= num_bins)%Z.

Let N := IZR num_bins.

Lemma bins_ge_1 : (1 <= N)%R.
Proof using Hbins. unfold N. now apply IZR_le. Qed.

Lemma spec_index_UD_real d :
  spec_index_UD depth_min depth_max num_bins (Fin d)
  = Fin (real_index_UD depth_min depth_max num_bins d).
Proof using Hrange Hbins.
  pose proof bins_ge_1 as HN. unfold N in HN.
  unfold spec_index_UD, spec_bin_size_UD, real_index_UD. simpl.
  rewrite Reqb_false; [reflexivity|].
  assert (Hbs : (0 < (depth_max - depth_min) / IZR num_bins)%R)
    by (apply Rdiv_lt_0_compat; lra).
  lra.
Qed.

Lemma real_index_UD_min : real_index_UD depth_min depth_max num_bins depth_min = 0%R.
Proof using Hrange Hbins.
  pose proof bins_ge_1 as HN. unfold N in HN.
  unfold real_index_UD. field. split; lra.
Qed.

Lemma real_index_UD_max :
  real_index_UD depth_min depth_max num_bins depth_max = IZR num_bins.
Proof using Hrange Hbins.
  pose proof bins_ge_1 as HN. unfold N in HN.
  unfold real_index_UD. field. split; lra.
Qed.

Lemma real_index_UD_mono a b :
  (a <= b)%R ->
  (real_index_UD depth_min depth_max num_bins a
   <= real_index_UD depth_min depth_max num_bins b)%R.
Proof using Hrange Hbins.
  pose proof bins_ge_1 as HN. unfold N in HN. intros Hab.
  unfold real_index_UD.
  assert (Hbs : (0 < (depth_max - depth_min) / IZR num_bins)%R).
  { apply Rdiv_lt_0_compat; lra. }
  apply Rmult_le_compat_r; [|lra].
  left. now apply Rinv_0_lt_compat.
Qed.
Lemma spec_bin_size_LID_pos : (0 < spec_bin_size_LID depth_min depth_max num_bins)%R.
Proof using Hrange Hbins.
  pose proof bins_ge_1 as HN. unfold N in HN. unfold spec_bin_size_LID.
  apply Rdiv_lt_0_compat; [lra|]. apply Rmult_lt_0_compat; lra.
Qed.

Lemma spec_index_LID_real d :
  (0 <= 1 + 8 * (d - depth_min) / spec_bin_size_LID depth_min depth_max num_bins)%R ->
  spec_index_LID depth_min depth_max num_bins (Fin d)
  = Fin (real_index_LID depth_min depth_max num_bins d).
Proof using Hrange Hbins.
  pose proof spec_bin_size_LID_pos as Hbs. intros Hd.
  unfold spec_index_LID, real_index_LID. simpl.
  rewrite Reqb_false by lra. simpl.
  rewrite Rltb_false by (unfold Rminus in Hd; lra).
  reflexivity.
Qed.

Lemma real_index_LID_min : real_index_LID depth_min depth_max num_bins depth_min = 0%R.
Proof using Hrange Hbins.
  pose proof bins_ge_1 as HN. unfold N in HN.
  unfold real_index_LID.
  replace (1 + 8 * (depth_min - depth_min) /
             (2 * (depth_max - depth_min) / (IZR num_bins * (IZR num_bins + 1))))%R
    with 1%R by (field; repeat split; lra).
  rewrite sqrt_1. lra.
Qed.

Lemma real_index_LID_max :
  real_index_LID depth_min depth_max num_bins depth_max = IZR num_bins.
Proof using Hrange Hbins.
  pose proof bins_ge_1 as HN. unfold N in HN.
  unfold real_index_LID.
  replace (1 + 8 * (depth_max - depth_min) /
             (2 * (depth_max - depth_min) / (IZR num_bins * (IZR num_bins + 1))))%R
    with ((2 * IZR num_bins + 1) * (2 * IZR num_bins + 1))%R
    by (field; repeat split; lra).
  rewrite sqrt_square by lra. lra.
Qed.

Lemma log_gap_pos :
  (-1 < depth_min)%R -> (0 < ln (1 + depth_max) - ln (1 + depth_min))%R.
Proof using Hrange.
  intros Hmin.
  assert (ln (1 + depth_min) < ln (1 + depth_max))%R by (apply ln_increasing; lra).
  lra.
Qed.

Lemma spec_index_SID_real d :
  (-1 < depth_min)%R -> (-1 < d)%R ->
  spec_index_SID depth_min depth_max num_bins (Fin d)
  = Fin (real_index_SID depth_min depth_max num_bins d).
Proof using Hrange.
  intros Hmin Hd. pose proof (log_gap_pos Hmin) as Hgap.
  unfold spec_index_SID, real_index_SID. simpl.
  rewrite Rltb_false by lra. rewrite Reqb_false by lra. simpl.
  rewrite Reqb_false by lra. reflexivity.
Qed.

Lemma real_index_SID_min :
  (-1 < depth_min)%R ->
  real_index_SID depth_min depth_max num_bins depth_min = 0%R.
Proof using Hrange.
  intros Hmin. pose proof (log_gap_pos Hmin) as Hgap.
  unfold real_index_SID. field. lra.
Qed.

Lemma real_index_SID_max :
  (-1 < depth_min)%R ->
  real_index_SID depth_min depth_max num_bins depth_max = IZR num_bins.
Proof using Hrange.
  intros Hmin. pose proof (log_gap_pos Hmin) as Hgap.
  unfold real_index_SID. field. lra.
Qed.
End ClosedFormFacts.

(** ** Truncation and the target branch *)

Lemma Rtrunc_nonneg r :
  (0 <= r)%R -> Rtrunc r = Int_part r /\ (IZR (Rtrunc r) <= r < IZR (Rtrunc r) + 1)%R.
Proof.
  intros H. unfold Rtrunc. rewrite Rltb_false by lra.
  split; [reflexivity|]. destruct (base_Int_part r). lra.
Qed.

Lemma Rtrunc_IZR z : Rtrunc (IZR z) = z.
Proof.
  unfold Rtrunc. destruct (Rlt_dec (IZR z) 0) as [H|H].
  - rewrite Rltb_true by assumption. rewrite <- opp_IZR.
    rewrite <- (Int_part_spec (IZR (- z)) (- z)%Z); [lia|lra].
  - rewrite Rltb_false by assumption. symmetry. apply Int_part_spec. lra.
Qed.

Lemma Rtrunc_range r num_bins :
  (0 <= r <= IZR num_bins)%R -> (0 <= Rtrunc r <= num_bins)%Z.
Proof.
  intros [H0 H1]. destruct (Rtrunc_nonneg r H0) as [_ [Hl Hu]]. split.
  - assert (-1 < IZR (Rtrunc r))%R by lra.
    apply lt_IZR in H. lia.
  - apply le_IZR. lra.
Qed.

Lemma target_mask_true num_bins x : out_of_bounds num_bins x -> target_mask num_bins x = true.
Proof.
  unfold target_mask, fgt. destruct x as [r| | |]; simpl; try reflexivity.
  intros [H|H].
  - now rewrite Rltb_true.
  - rewrite (Rltb_true _ _ H). now rewrite orb_true_r.
Qed.

Lemma target_mask_false num_bins r :
  (0 <= r <= IZR num_bins)%R -> target_mask num_bins (Fin r) = false.
Proof.
  intros [H0 H1]. unfold target_mask, fgt. simpl.
  now rewrite !Rltb_false by lra.
Qed.

Lemma bounds_cases num_bins x :
  out_of_bounds num_bins x \/ exists r, x = Fin r /\ (0 <= r <= IZR num_bins)%R.
Proof.
  destruct x as [r| | |]; simpl; auto.
  destruct (Rlt_dec r 0); [auto|]. destruct (Rlt_dec (IZR num_bins) r); [auto|].
  right. exists r. split; [reflexivity|lra].
Qed.

Lemma bin_depths_target_entry dm mode depth_min depth_max num_bins raw out :
  bin_depths dm mode depth_min depth_max num_bins false = Ok (FloatTensor raw) ->
  bin_depths dm mode depth_min depth_max num_bins true = Ok (LongTensor out) ->
  dims out = dims raw /\
  forall idx,
    elt out idx =
    to_int64 (if target_mask num_bins (elt raw idx) then Fin (IZR num_bins)
              else elt raw idx).
Proof.
  intros Hraw. rewrite (bin_depths_target_of_raw _ _ _ _ _ _ Hraw).
  intros [= <-]. split; reflexivity.
Qed.

Lemma bin_depths_target_inv dm mode depth_min depth_max num_bins res :
  bin_depths dm mode depth_min depth_max num_bins true = Ok res ->
  exists raw out,
    bin_depths dm mode depth_min depth_max num_bins false = Ok (FloatTensor raw) /\
    res = LongTensor out.
Proof.
  unfold bin_depths.
  match goal with |- rbind ?m _ = _ -> _ => destruct m as [ind|e] end; simpl.
  - intros [= <-]. eauto.
  - discriminate.
Qed.

(** ** Shapes and indices *)

Lemma removelast_app2 {A} (l : list A) a b : removelast (l ++ [a; b]) = l ++ [a].
Proof. rewrite removelast_app by discriminate. reflexivity. Qed.

Lemma batch_dims_app2 (l : list nat) a b : batch_dims (l ++ [a; b]) = l.
Proof. unfold batch_dims. now rewrite removelast_app2, removelast_last. Qed.

Lemma rows_app2 (l : list nat) a b : rows (l ++ [a; b]) = a.
Proof. unfold rows. now rewrite removelast_app2, last_last. Qed.

Lemma cols_app2 (l : list nat) a b : cols (l ++ [a; b]) = b.
Proof.
  unfold cols. change [a; b] with ([a] ++ [b]). now rewrite app_assoc, last_last.
Qed.

Lemma cols_app1 (l : list nat) a : cols (l ++ [a]) = a.
Proof. unfold cols. apply last_last. Qed.

Lemma app_cons_nil {A} (l : list A) a : l ++ [a] <> [].
Proof. destruct l; discriminate. Qed.

Lemma Forall2_rev_intro {A B} (P : A -> B -> Prop) l k :
  Forall2 P l k -> Forall2 P (rev l) (rev k).
Proof.
  induction 1 as [|x y l k Hxy Hlk IH]; simpl; [constructor|].
  apply List.Forall2_app; [exact IH|]. constructor; [exact Hxy|constructor].
Qed.

Lemma bproj_rev_valid d idx : Forall2 lt idx d -> bproj_rev d idx = idx.
Proof.
  induction 1 as [|i x idx d Hix Hrest IH]; simpl; [reflexivity|].
  rewrite IH. destruct (Nat.eqb_spec x 1) as [->|_]; [|reflexivity].
  f_equal. lia.
Qed.

(** On the indices of a tensor of the broadcast shape itself the projection
    is the identity. *)
Lemma bproj_valid d idx : valid_index d idx -> bproj d idx = idx.
Proof.
  intros H. unfold bproj.
  rewrite bproj_rev_valid by now apply Forall2_rev_intro.
  apply rev_involutive.
Qed.

Lemma bproj_rev_length d idx :
  length (bproj_rev d idx) = Nat.min (length d) (length idx).
Proof.
  revert idx. induction d as [|x d IH]; intros [|i idx]; simpl; try reflexivity.
  now rewrite IH.
Qed.

Lemma bproj_length d idx : length (bproj d idx) = Nat.min (length d) (length idx).
Proof. unfold bproj. now rewrite length_rev, bproj_rev_length, !length_rev. Qed.

(** An operand with the single axis [n], against an index ending in [k]. *)
Lemma bproj_last_axis n i k : n <> 1%nat -> bproj [n] (i ++ [k]) = [k].
Proof.
  intros Hn. unfold bproj. rewrite rev_unit. simpl.
  destruct (Nat.eqb_spec n 1); [contradiction|reflexivity].
Qed.

Lemma broadcast_rev_nil_r a : broadcast_rev a [] = Some a.
Proof. destruct a; reflexivity. Qed.

Lemma broadcast_rev_refl a : broadcast_rev a a = Some a.
Proof.
  induction a as [|x a IH]; simpl; [reflexivity|].
  now rewrite IH, Nat.eqb_refl.
Qed.

(** The broadcast shape absorbs its operands. *)
Lemma broadcast_rev_absorb_l a b r :
  broadcast_rev a b = Some r -> broadcast_rev r a = Some r.
Proof.
  revert b r. induction a as [|x a IH]; intros b r H.
  - simpl in H. injection H as <-. apply broadcast_rev_nil_r.
  - destruct b as [|y b]; simpl in H.
    + injection H as <-. apply broadcast_rev_refl.
    + destruct (broadcast_rev a b) as [r'|] eqn:E; [|discriminate].
      specialize (IH _ _ E).
      destruct (Nat.eqb_spec x y) as [->|Hxy].
      * injection H as <-. simpl. now rewrite IH, Nat.eqb_refl.
      * destruct (Nat.eqb_spec x 1) as [->|Hx1].
        -- injection H as <-. simpl. rewrite IH.
           destruct (Nat.eqb_spec y 1) as [->|Hy1]; [contradiction|]. reflexivity.
        -- destruct (Nat.eqb_spec y 1) as [->|Hy1]; [|discriminate].
           injection H as <-. simpl. now rewrite IH, Nat.eqb_refl.
Qed.

Lemma broadcast_rev_absorb_r a b r :
  broadcast_rev a b = Some r -> broadcast_rev r b = Some r.
Proof.
  revert b r. induction a as [|x a IH]; intros b r H.
  - simpl in H. injection H as <-. apply broadcast_rev_refl.
  - destruct b as [|y b]; simpl in H.
    + injection H as <-. reflexivity.
    + destruct (broadcast_rev a b) as [r'|] eqn:E; [|discriminate].
      specialize (IH _ _ E).
      destruct (Nat.eqb_spec x y) as [->|Hxy].
      * injection H as <-. simpl. now rewrite IH, Nat.eqb_refl.
      * destruct (Nat.eqb_spec x 1) as [->|Hx1].
        -- injection H as <-. simpl. now rewrite IH, Nat.eqb_refl.
        -- destruct (Nat.eqb_spec y 1) as [->|Hy1]; [|discriminate].
           injection H as <-. simpl. rewrite IH.
           destruct (Nat.eqb_spec x 1) as [->|_]; [contradiction|]. reflexivity.
Qed.

Lemma broadcast_rev_length a b r :
  broadcast_rev a b = Some r -> length r = Nat.max (length a) (length b).
Proof.
  revert b r. induction a as [|x a IH]; intros b r H.
  - simpl in H. now injection H as <-.
  - destruct b as [|y b]; simpl in H.
    + now injection H as <-.
    + destruct (broadcast_rev a b) as [r'|] eqn:E; [|discriminate].
      specialize (IH _ _ E). simpl.
      destruct (Nat.eqb x y); [injection H as <-; simpl; lia|].
      destruct (Nat.eqb x 1); [injection H as <-; simpl; lia|].
      destruct (Nat.eqb y 1); [injection H as <-; simpl; lia|discriminate].
Qed.

Lemma broadcast_shapes_inv a b r :
  broadcast_shapes a b = Some r -> broadcast_rev (rev a) (rev b) = Some (rev r).
Proof.
  unfold broadcast_shapes. destruct (broadcast_rev (rev a) (rev b)) as [r'|]; [|discriminate].
  simpl. intros [= <-]. now rewrite rev_involutive.
Qed.

(** The index of an operand behind a valid index of the broadcast result is
    a valid index of the operand. *)
Lemma bproj_rev_operand a b r idx :
  broadcast_rev a b = Some r -> Forall2 lt idx r -> Forall2 lt (bproj_rev a idx) a.
Proof.
  revert b r idx. induction a as [|x a IH]; intros b r idx H Hv; [constructor|].
  destruct b as [|y b]; simpl in H.
  - injection H as <-. inversion Hv as [|i z idx' r' Hi Hrest]; subst. simpl.
    constructor.
    + destruct (Nat.eqb_spec x 1); lia.
    + apply (IH [] a); [apply broadcast_rev_nil_r|exact Hrest].
  - destruct (broadcast_rev a b) as [r'|] eqn:E; [|discriminate].
    assert (Hz : exists z, r = z :: r' /\ (x <> 1%nat -> z = x)).
    { destruct (Nat.eqb_spec x y) as [->|Hxy]; [injection H as <-; eauto|].
      destruct (Nat.eqb_spec x 1) as [->|Hx1];
        [injection H as <-; eexists; split; [reflexivity|]; intros C; now elim C|].
      destruct (Nat.eqb_spec y 1); [injection H as <-; eauto|discriminate]. }
    destruct Hz as (z & -> & Hz).
    inversion Hv as [|i z' idx' r'' Hi Hrest]; subst. simpl. constructor.
    + destruct (Nat.eqb_spec x 1) as [->|Hx1]; [lia|]. rewrite (Hz Hx1) in Hi. exact Hi.
    + apply (IH b r'); assumption.
Qed.

Lemma Forall2_rev_elim {A B} (P : A -> B -> Prop) l k :
  Forall2 P (rev l) (rev k) -> Forall2 P l k.
Proof.
  intros H. apply Forall2_rev_intro in H. now rewrite !rev_involutive in H.
Qed.

Lemma bproj_operand_l a b r idx :
  broadcast_shapes a b = Some r -> valid_index r idx -> valid_index a (bproj a idx).
Proof.
  intros H Hv. apply broadcast_shapes_inv in H. unfold valid_index, bproj.
  apply Forall2_rev_elim. rewrite rev_involutive.
  eapply bproj_rev_operand; [exact H|]. now apply Forall2_rev_intro.
Qed.

Lemma broadcast_shapes_absorb_l a b r :
  broadcast_shapes a b = Some r -> broadcast_shapes r a = Some r.
Proof.
  intros H. apply broadcast_shapes_inv in H. unfold broadcast_shapes.
  rewrite (broadcast_rev_absorb_l _ _ _ H). simpl. now rewrite rev_involutive.
Qed.

Lemma broadcast_shapes_absorb_r a b r :
  broadcast_shapes a b = Some r -> broadcast_shapes r b = Some r.
Proof.
  intros H. apply broadcast_shapes_inv in H. unfold broadcast_shapes.
  rewrite (broadcast_rev_absorb_r _ _ _ H). simpl. now rewrite rev_involutive.
Qed.

Lemma broadcast_shapes_length a b r :
  broadcast_shapes a b = Some r -> length r = Nat.max (length a) (length b).
Proof.
  intros H. apply broadcast_shapes_inv in H. apply broadcast_rev_length in H.
  now rewrite !length_rev in H.
Qed.

(** A last axis shared by both operands stays. *)
Lemma broadcast_shapes_last_axis bs n :
  broadcast_shapes (bs ++ [n]) [n] = Some (bs ++ [n]).
Proof.
  unfold broadcast_shapes. rewrite rev_unit. simpl.
  rewrite broadcast_rev_nil_r, Nat.eqb_refl. simpl.
  now rewrite rev_involutive.
Qed.

(** ** [normalize_coords] *)

Lemma valid_index_last bs n i k : valid_index (bs ++ [n]) (i ++ [k]) -> (k < n)%nat.
Proof.
  unfold valid_index. intros H.
  assert (Hlen : length i = length bs).
  { apply List.Forall2_length in H. rewrite !length_app in H. simpl in H. lia. }
  apply Forall2_app_inv in H; [|exact Hlen]. destruct H as [_ H].
  now inversion H.
Qed.

Lemma normalize_coords_entries coords shape bs :
  dims coords = bs ++ [3%nat] -> dims shape = [3%nat] ->
  exists out,
    normalize_coords coords shape = Ok out /\ dims out = bs ++ [3%nat] /\
    forall i k,
      valid_index (bs ++ [3%nat]) (i ++ [k]) ->
      elt out (i ++ [k])
      = spec_normalize (elt coords (i ++ [k])) (elt shape [(2 - k)%nat]).
Proof.
  intros Hc Hs. unfold normalize_coords, flip0. rewrite Hs. simpl.
  unfold broadcast2. simpl. rewrite Hc, broadcast_shapes_last_axis. simpl.
  eexists. split; [reflexivity|]. split; [reflexivity|].
  intros i k Hv. simpl.
  rewrite (bproj_valid _ _ Hv), bproj_last_axis by discriminate.
  unfold spec_normalize, fsub. simpl.
  replace (- (1))%R with (-1)%R by lra. reflexivity.
Qed.

Lemma spec_normalize_finite c s :
  s <> 1%R -> spec_normalize (Fin c) (Fin s) = Fin (c / (s - 1) * 2 - 1)%R.
Proof.
  intros Hs. unfold spec_normalize. simpl.
  rewrite Reqb_false by lra. reflexivity.
Qed.

(** ** The tensor operations on known shapes *)

Lemma convert_points_to_homogeneous_shape points pb n :
  dims points = pb ++ [n] ->
  convert_points_to_homogeneous points
  = Ok (mkT (pb ++ [S n])
          (fun idx => if Nat.ltb (cols idx) n then elt points idx else Fin 1)).
Proof.
  intros H. unfold convert_points_to_homogeneous. rewrite H.
  rewrite removelast_last, cols_app1.
  destruct (pb ++ [n]) eqn:E; [|reflexivity].
  now apply app_cons_nil in E.
Qed.

Lemma convert_points_from_homogeneous_shape points d n :
  dims points = d ++ [S n] ->
  convert_points_from_homogeneous points
  = Ok (mkT (d ++ [n])
          (fun idx => fdiv (elt points idx) (elt points (removelast idx ++ [n])))).
Proof.
  intros H. unfold convert_points_from_homogeneous. rewrite H.
  rewrite removelast_last, cols_app1.
  destruct (d ++ [S n]) eqn:E; [|reflexivity].
  now apply app_cons_nil in E.
Qed.

Lemma unsqueeze1_shape {A} (t : tensor A) n rest :
  dims t = n :: rest ->
  unsqueeze1 t = Ok (mkT (n :: 1%nat :: rest) (fun idx => elt t (drop_axis1 idx))).
Proof. intros H. unfold unsqueeze1. now rewrite H. Qed.

Lemma squeeze_last_shape {A} (t : tensor A) d :
  dims t = d ++ [1%nat] ->
  squeeze_last t = mkT d (fun idx => elt t (idx ++ [0%nat])).
Proof.
  intros H. unfold squeeze_last. rewrite H, cols_app1, removelast_last. simpl.
  destruct (d ++ [1%nat]) eqn:E; [|reflexivity].
  now apply app_cons_nil in E.
Qed.

Lemma index_last_shape {A} (t : tensor A) d n :
  dims t = d ++ [S n] ->
  index_last t = Ok (mkT d (fun idx => elt t (idx ++ [n]))).
Proof.
  intros H. unfold index_last. rewrite H, cols_app1, removelast_last. simpl.
  rewrite Nat.sub_0_r.
  destruct (d ++ [S n]) eqn:E; [|reflexivity].
  now apply app_cons_nil in E.
Qed.

Lemma length_app2_ltb {A} (l : list A) a b : Nat.ltb (length (l ++ [a; b])) 2 = false.
Proof. apply Nat.ltb_ge. rewrite length_app. simpl. lia. Qed.

Lemma index_2_3_shape {A} (t : tensor A) d r c :
  dims t = d ++ [r; c] -> (2 < r)%nat -> (3 < c)%nat ->
  index_2_3 t = Ok (mkT d (fun idx => elt t (idx ++ [2%nat; 3%nat]))).
Proof.
  intros H Hr Hc. unfold index_2_3.
  rewrite H, length_app2_ltb, rows_app2, cols_app2, batch_dims_app2.
  destruct (Nat.leb_spec r 2); [lia|]. destruct (Nat.leb_spec c 3); [lia|].
  reflexivity.
Qed.

Lemma matmul_shape a b ba bb bd n k m :
  dims a = ba ++ [n; k] -> dims b = bb ++ [k; m] ->
  broadcast_shapes ba bb = Some bd ->
  matmul a b
  = Ok (mkT (bd ++ [n; m])
          (fun idx =>
             dot k
               (fun l => elt a (bproj ba (batch_dims idx) ++ [rows idx; l]))
               (fun l => elt b (bproj bb (batch_dims idx) ++ [l; cols idx])))).
Proof.
  intros Ha Hb Hbd. unfold matmul.
  rewrite Ha, Hb, !length_app2_ltb, !rows_app2, !cols_app2, !batch_dims_app2.
  simpl. rewrite Nat.eqb_refl. simpl. now rewrite Hbd.
Qed.

Lemma broadcast2_shape {A B C} (f : A -> B -> C) a b d :
  broadcast_shapes (dims a) (dims b) = Some d ->
  broadcast2 f a b
  = Ok (mkT d (fun idx => f (elt a (bproj (dims a) idx)) (elt b (bproj (dims b) idx)))).
Proof. intros H. unfold broadcast2. now rewrite H. Qed.

Lemma fadd_0_l x : fadd (Fin 0) x = x.
Proof. destruct x; simpl; try reflexivity. f_equal. lra. Qed.

Lemma dot_4 u v :
  dot 4 u v
  = fadd (fadd (fadd (fmul (u 0%nat) (v 0%nat)) (fmul (u 1%nat) (v 1%nat)))
            (fmul (u 2%nat) (v 2%nat)))
      (fmul (u 3%nat) (v 3%nat)).
Proof. unfold dot. cbn [seq fold_left]. now rewrite fadd_0_l. Qed.

Lemma drop_axis1_app idx tail :
  (2 <= length idx)%nat -> drop_axis1 (idx ++ tail) = drop_axis1 idx ++ tail.
Proof.
  destruct idx as [|i [|j rest]]; simpl; try lia. reflexivity.
Qed.

(** ** [project_to_image], the broadcast path *)

Lemma batch_dims_snoc2 (l : list nat) a b : batch_dims ((l ++ [a]) ++ [b]) = l.
Proof. rewrite <- app_assoc. apply batch_dims_app2. Qed.

Lemma rows_snoc2 (l : list nat) a b : rows ((l ++ [a]) ++ [b]) = a.
Proof. rewrite <- app_assoc. apply rows_app2. Qed.

Ltac shape_side := simpl; rewrite <- ?app_assoc; reflexivity.

Lemma project_to_image_broadcast project points b0 bs pb ob :
  dims project = b0 :: bs ++ [3%nat; 4%nat] ->
  dims points = pb ++ [3%nat] ->
  broadcast_shapes (b0 :: 1%nat :: bs) pb = Some ob ->
  exists img depth,
    project_to_image project points false = Ok (img, depth) /\
    dims depth = ob /\ dims img = ob ++ [2%nat] /\
    forall idx,
      valid_index ob idx ->
      let pidx := drop_axis1 (bproj (b0 :: 1%nat :: bs) idx) in
      let qidx := bproj pb idx in
      let t := transformed project points pidx qidx in
      elt depth idx = fsub (t 2%nat) (elt project (pidx ++ [2%nat; 3%nat])) /\
      elt img (idx ++ [0%nat]) = fdiv (t 0%nat) (t 2%nat) /\
      elt img (idx ++ [1%nat]) = fdiv (t 1%nat) (t 2%nat).
Proof.
  intros Hp Hq Hb. unfold project_to_image.
  rewrite (convert_points_to_homogeneous_shape points pb 3 Hq). simpl.
  rewrite (unsqueeze1_shape project b0 (bs ++ [3%nat; 4%nat]) Hp). simpl.
  rewrite (matmul_shape _ _ (b0 :: 1%nat :: bs) pb ob 3 4 1) by (exact Hb || shape_side).
  simpl.
  rewrite (squeeze_last_shape _ (ob ++ [3%nat])) by shape_side.
  rewrite (index_last_shape _ ob 2) by shape_side. simpl.
  rewrite (index_2_3_shape _ (b0 :: 1%nat :: bs) 3 4) by (lia || shape_side). simpl.
  rewrite (broadcast2_shape _ _ _ ob) by (simpl; now apply broadcast_shapes_absorb_l in Hb).
  simpl.
  rewrite (convert_points_from_homogeneous_shape _ ob 2) by shape_side. simpl.
  do 2 eexists. split; [reflexivity|]. split; [reflexivity|]. split; [reflexivity|].
  intros idx Hv. simpl.
  assert (Hlen : (2 <= length (bproj (b0 :: 1%nat :: bs) idx))%nat).
  { rewrite bproj_length. apply List.Forall2_length in Hv.
    apply broadcast_shapes_length in Hb. cbn [length] in *. lia. }
  rewrite (bproj_valid _ _ Hv), !removelast_last.
  rewrite !batch_dims_snoc2, !rows_snoc2, !cols_app1, !dot_4.
  rewrite !removelast_app2, !cols_app1. cbn [Nat.ltb Nat.leb].
  rewrite !drop_axis1_app by exact Hlen.
  unfold transformed.
  split; [reflexivity|]. split; reflexivity.
Qed.

(** With the inserted axis dropped and a row and a column appended, a valid
    index of the batch axes of the unsqueezed projection is a valid index of
    the projection. *)
Lemma valid_project_index b0 bs j i l :
  valid_index (b0 :: 1%nat :: bs) j -> (i < 3)%nat -> (l < 4)%nat ->
  valid_index (b0 :: bs ++ [3%nat; 4%nat]) (drop_axis1 j ++ [i; l]).
Proof.
  unfold valid_index. intros Hj Hi Hl.
  destruct j as [|i0 [|i1 rest]].
  - inversion Hj.
  - inversion Hj as [|? ? ? ? _ Hr]. inversion Hr.
  - inversion Hj as [|? ? ? ? H0 Hr]. inversion Hr as [|? ? ? ? _ Hr'].
    simpl. constructor; [assumption|]. apply List.Forall2_app; [assumption|].
    constructor; [exact Hi|]. constructor; [exact Hl|]. constructor.
Qed.

(** ** [project_to_image], the batched path *)

Lemma numel_app a b : numel (a ++ b) = (numel a * numel b)%nat.
Proof. induction a as [|x a IH]; simpl; [lia|]. rewrite IH. lia. Qed.

Lemma dims_split d :
  (2 <= length d)%nat -> d = batch_dims d ++ [rows d; cols d].
Proof.
  intros H. unfold batch_dims, rows, cols.
  assert (Hd : d <> []) by (destruct d; [simpl in H; lia|discriminate]).
  rewrite (app_removelast_last 0%nat Hd) at 1.
  assert (Hr : removelast d <> []).
  { destruct d as [|x [|y d]]; simpl in *; try lia. discriminate. }
  rewrite (app_removelast_last 0%nat Hr) at 1.
  now rewrite <- app_assoc.
Qed.

Lemma reshape_batch_dims {A} (t t' : tensor A) :
  reshape_batch t = Ok t' ->
  dims t' = [numel (batch_dims (dims t)); rows (dims t); cols (dims t)].
Proof.
  unfold reshape_batch, reshape.
  destruct (Nat.ltb_spec (length (dims t)) 2) as [|Hlen]; [discriminate|].
  destruct (Nat.eqb_spec (rows (dims t) * cols (dims t)) 0) as [|Hrc]; [discriminate|].
  match goal with |- (if ?c then _ else _) = _ -> _ => destruct c end; [|discriminate].
  intros [= <-]. simpl. f_equal.
  rewrite (dims_split _ Hlen) at 1. rewrite numel_app. simpl.
  rewrite Nat.mul_1_r. now apply Nat.div_mul.
Qed.

Lemma convert_points_to_homogeneous_batch points hom :
  convert_points_to_homogeneous points = Ok hom ->
  batch_dims (dims hom) = batch_dims (dims points).
Proof.
  unfold convert_points_to_homogeneous.
  destruct (dims points) eqn:E; [discriminate|]. intros [= <-]. simpl dims.
  unfold batch_dims. now rewrite removelast_last.
Qed.

Lemma permute021_dims {A} (t t' : tensor A) b r c :
  dims t = [b; r; c] -> permute021 t = Ok t' -> dims t' = [b; c; r].
Proof. intros H. unfold permute021. rewrite H. now intros [= <-]. Qed.

Lemma repeat_interleave0_dims {A} (t t' : tensor A) b rest n :
  dims t = b :: rest -> repeat_interleave0 t n = Ok t' -> dims t' = (b * n)%nat :: rest.
Proof. intros H. unfold repeat_interleave0. rewrite H. now intros [= <-]. Qed.

Lemma py_floordiv_inv a b q : py_floordiv a b = Ok q -> b <> 0%nat /\ q = (a / b)%nat.
Proof.
  unfold py_floordiv. destruct (Nat.eqb_spec b 0); [discriminate|].
  intros [= <-]. now split.
Qed.

Lemma bmm_batch a b t ba n k bb k' m :
  dims a = [ba; n; k] -> dims b = [bb; k'; m] -> torch_bmm a b = Ok t -> ba = bb.
Proof.
  intros Ha Hb. unfold torch_bmm. rewrite Ha, Hb.
  destruct (Nat.eqb_spec ba bb); [auto|]. simpl. discriminate.
Qed.

(** The batched path returns only when the batch count of the projection
    matrices divides that of the points. *)
Lemma project_to_image_bmm_divides project points out :
  project_to_image project points true = Ok out ->
  Nat.divide (numel (batch_dims (dims project))) (numel (batch_dims (dims points))).
Proof.
  unfold project_to_image.
  destruct (convert_points_to_homogeneous points) as [hom|] eqn:Ehom; [|discriminate].
  apply convert_points_to_homogeneous_batch in Ehom. simpl.
  destruct (reshape_batch hom) as [pts|] eqn:Epts; [|discriminate].
  apply reshape_batch_dims in Epts. rewrite Ehom in Epts. simpl.
  destruct (reshape_batch project) as [prj|] eqn:Eprj; [|discriminate].
  apply reshape_batch_dims in Eprj. simpl.
  destruct (permute021 prj) as [prj'|] eqn:Eperm; [|discriminate].
  apply (permute021_dims _ _ _ _ _ Eprj) in Eperm. simpl.
  rewrite Epts, Eperm. simpl.
  destruct (py_floordiv _ _) as [rep|] eqn:Erep; [|discriminate].
  apply py_floordiv_inv in Erep as [HM ->]. simpl.
  destruct (repeat_interleave0 prj' _) as [prj''|] eqn:Erpt; [|discriminate].
  apply (repeat_interleave0_dims _ _ _ _ _ Eperm) in Erpt. simpl.
  destruct (torch_bmm pts prj'') as [pt|] eqn:Ebmm; [|discriminate].
  apply (bmm_batch _ _ _ _ _ _ _ _ _ Epts Erpt) in Ebmm.
  intros _. eexists. rewrite Ebmm at 1. apply Nat.mul_comm.
Qed.

Lemma reshape_batch_shape {A} (t : tensor A) b r c :
  dims t = b ++ [r; c] -> (r * c)%nat <> 0%nat ->
  reshape_batch t
  = Ok (mkT [numel b; r; c]
          (fun idx => elt t (unravel (dims t) (ravel [numel b; r; c] idx)))).
Proof.
  intros H Hrc. unfold reshape_batch, reshape.
  rewrite H, length_app2_ltb, rows_app2, cols_app2.
  destruct (Nat.eqb_spec (r * c) 0) as [|_]; [contradiction|].
  assert (E : (numel (b ++ [r; c]) / (r * c))%nat = numel b).
  { rewrite numel_app. simpl. rewrite Nat.mul_1_r. now apply Nat.div_mul. }
  rewrite E.
  assert (E' : numel [numel b; r; c] = numel (b ++ [r; c])).
  { rewrite numel_app. reflexivity. }
  rewrite E', Nat.eqb_refl. reflexivity.
Qed.

(** On well-shaped arguments the batched path fails at the division when
    there is no projection matrix, and otherwise at [torch.bmm], which
    refuses the batch count the truncated repeat factor produces. *)
Lemma project_to_image_bmm_error project points pb n qb :
  dims points = pb ++ [S n; 3%nat] -> dims project = qb ++ [3%nat; 4%nat] ->
  ~ Nat.divide (numel qb) (numel pb) ->
  project_to_image project points true
  = Err (if Nat.eqb (numel qb) 0 then ZeroDivisionError else RuntimeError).
Proof.
  intros Hq Hp Hdiv. unfold project_to_image.
  rewrite (convert_points_to_homogeneous_shape points (pb ++ [S n]) 3)
    by (rewrite Hq, <- app_assoc; reflexivity).
  simpl.
  rewrite (reshape_batch_shape _ pb (S n) 4) by (lia || shape_side). simpl.
  rewrite (reshape_batch_shape _ qb 3 4 Hp) by lia. simpl.
  unfold py_floordiv.
  destruct (Nat.eqb_spec (numel qb) 0) as [E0|E0]; [reflexivity|]. simpl.
  unfold torch_bmm. simpl.
  destruct (Nat.eqb_spec (numel pb) (numel qb * (numel pb / numel qb))) as [E|E].
  - exfalso. apply Hdiv. exists (numel pb / numel qb)%nat. rewrite E at 1. apply Nat.mul_comm.
  - reflexivity.
Qed.

(** ** The store: what a call leaves untouched *)

Section Frames.
Import Heap.
Variable s0 : store.

Lemma frames_ret {A} (a : A) (Q : A -> Prop) : Q a -> frames s0 (ret a) Q.
Proof. intros HQ s Hs. split; [exact Hs|]. simpl. now intros a' [= <-]. Qed.

Lemma frames_raise {A} e (Q : A -> Prop) : frames s0 (raise e) Q.
Proof. intros s Hs. split; [exact Hs|]. simpl. discriminate. Qed.

Lemma frames_lift {A} (r : result A) : frames s0 (lift r) (fun _ => True).
Proof. intros s Hs. split; [exact Hs|]. auto. Qed.

Lemma frames_bind {A B} (m : M A) (k : A -> M B) (Q : A -> Prop) (Q' : B -> Prop) :
  frames s0 m Q -> (forall a, Q a -> frames s0 (k a) Q') -> frames s0 (bind m k) Q'.
Proof.
  intros Hm Hk s Hs. unfold bind.
  destruct (Hm s Hs) as [Hs' HQ]. destruct (m s) as [[a|e] s']; simpl in *.
  - apply (Hk a (HQ a eq_refl) s' Hs').
  - split; [exact Hs'|discriminate].
Qed.

Lemma frames_weaken {A} (m : M A) (Q Q' : A -> Prop) :
  frames s0 m Q -> (forall a, Q a -> Q' a) -> frames s0 m Q'.
Proof.
  intros Hm HQ s Hs. destruct (Hm s Hs) as [Hs' H]. split; [exact Hs'|].
  intros a Ha. apply HQ, H, Ha.
Qed.

Lemma frames_read_float h : frames s0 (read_float h) (fun _ => True).
Proof.
  intros s Hs. unfold read_float.
  destruct (s !! hloc h) as [[?|?|?]|]; simpl; auto.
Qed.

Lemma frames_read_bool h : frames s0 (read_bool h) (fun _ => True).
Proof.
  intros s Hs. unfold read_bool.
  destruct (s !! hloc h) as [[?|?|?]|]; simpl; auto.
Qed.

Lemma fresh_not_in (s : store) : s0 ⊆ s -> s0 !! fresh (dom s) = None.
Proof.
  intros Hs. apply not_elem_of_dom. intros Hin.
  apply (is_fresh (dom s)). revert Hin. apply subseteq_dom, Hs.
Qed.

Lemma frames_alloc b d : frames s0 (alloc b d) (fresh_for s0).
Proof.
  intros s Hs. unfold alloc. simpl. split.
  - apply insert_subseteq_r; [now apply fresh_not_in|exact Hs].
  - intros a [= <-]. unfold fresh_for. simpl. now apply fresh_not_in.
Qed.

Lemma frames_view op h : frames s0 (view op h) (fun h' => hloc h' = hloc h).
Proof.
  unfold view. destruct (op (hidx h)); [now apply frames_ret|apply frames_raise].
Qed.

(** The in-place write is harmless to [s0] when its target is fresh. *)
Lemma frames_index_put h mask c :
  fresh_for s0 h -> frames s0 (index_put_ h mask c) (fun _ => True).
Proof.
  intros Hh. unfold index_put_.
  eapply frames_bind; [apply frames_read_bool|]. intros m _ s Hs.
  destruct (s !! hloc h) as [[base|?|?]|]; simpl; auto.
  destruct (bool_decide (dims m = dims (hidx h))); simpl; auto.
  split; [|auto]. apply insert_subseteq_r; assumption.
Qed.

Lemma frames_map_float f h : frames s0 (map_float f h) (fresh_for s0).
Proof.
  unfold map_float, new_float.
  eapply frames_bind; [apply frames_read_float|]. intros; apply frames_alloc.
Qed.

Lemma frames_try_float f h : frames s0 (try_float f h) (fresh_for s0).
Proof.
  unfold try_float, new_float.
  eapply frames_bind; [apply frames_read_float|]. intros t _.
  eapply frames_bind; [apply frames_lift|]. intros; apply frames_alloc.
Qed.

Lemma frames_try_float2 f a b : frames s0 (try_float2 f a b) (fresh_for s0).
Proof.
  unfold try_float2, new_float.
  eapply frames_bind; [apply frames_read_float|]. intros x _.
  eapply frames_bind; [apply frames_read_float|]. intros y _.
  eapply frames_bind; [apply frames_lift|]. intros; apply frames_alloc.
Qed.

Lemma frames_map_mask f h : frames s0 (map_mask f h) (fresh_for s0).
Proof.
  unfold map_mask, new_bool.
  eapply frames_bind; [apply frames_read_float|]. intros; apply frames_alloc.
Qed.

Lemma frames_map_bool f h : frames s0 (map_bool f h) (fresh_for s0).
Proof.
  unfold map_bool, new_bool.
  eapply frames_bind; [apply frames_read_bool|]. intros; apply frames_alloc.
Qed.

Lemma frames_zip_bool f a b : frames s0 (zip_bool f a b) (fresh_for s0).
Proof.
  unfold zip_bool, new_bool.
  eapply frames_bind; [apply frames_read_bool|]. intros x _.
  eapply frames_bind; [apply frames_read_bool|]. intros; apply frames_alloc.
Qed.

Lemma frames_cast_int64 h : frames s0 (cast_int64 h) (fresh_for s0).
Proof.
  unfold cast_int64, new_long.
  eapply frames_bind; [apply frames_read_float|]. intros; apply frames_alloc.
Qed.

(** One step of a chain of operations. *)
Ltac frame_step :=
  first
    [ apply frames_map_float | apply frames_try_float | apply frames_try_float2
    | apply frames_map_mask | apply frames_map_bool | apply frames_zip_bool
    | apply frames_cast_int64 | apply frames_lift | apply frames_raise
    | apply frames_view
    | eapply frames_weaken; [apply frames_map_float|intros; exact I] ].

Ltac frame_chain :=
  repeat (eapply frames_bind; [frame_step|intros ? ?]).

(** The tensor [bin_depths] works on is its own: every branch leaves it in
    a buffer allocated by the call. *)
Lemma frames_bin_depths depth_map mode depth_min depth_max num_bins target :
  frames s0 (bin_depths depth_map mode depth_min depth_max num_bins target)
    (fun _ => True).
Proof.
  unfold bin_depths.
  eapply (frames_bind _ _ (fresh_for s0)).
  - destruct (String.eqb mode "UD"); [|destruct (String.eqb mode "LID");
      [|destruct (String.eqb mode "SID")]].
    + frame_chain. apply frames_map_float.
    + frame_chain. apply frames_map_float.
    + frame_chain. apply frames_map_float.
    + apply frames_raise.
  - intros indices Hfresh. destruct target.
    + frame_chain.
      eapply frames_bind; [now apply frames_index_put|]. intros _ _.
      eapply frames_weaken; [apply frames_cast_int64|auto].
    + now apply frames_ret.
Qed.

Lemma frames_normalize_coords coords shape :
  frames s0 (normalize_coords coords shape) (fun _ => True).
Proof.
  unfold normalize_coords. frame_chain.
  eapply frames_weaken; [apply frames_map_float|auto].
Qed.

Lemma frames_project_to_image project points bmm :
  frames s0 (project_to_image project points bmm) (fun _ => True).
Proof.
  unfold project_to_image.
  eapply frames_bind; [apply frames_try_float|]. intros hom _.
  eapply (frames_bind _ _ (fun _ => True)).
  - destruct bmm; simpl; frame_chain; now apply frames_ret.
  - intros res _.
    eapply frames_bind; [apply frames_try_float|]. intros img _.
    now apply frames_ret.
Qed.
End Frames.

(** ** The store: what a call computes *)

Section Runs.
Import Heap.

Lemma run_bind {A B} (m : M A) (k : A -> M B) s a s' :
  m s = (Ok a, s') -> bind m k s = k a s'.
Proof. intros E. unfold bind. now rewrite E. Qed.

Lemma run_bind_err {A B} (m : M A) (k : A -> M B) s e s' :
  m s = (Err e, s') -> bind m k s = (Err e, s').
Proof. intros E. unfold bind. now rewrite E. Qed.

Lemma tensor_eta {A} (t : tensor A) : mkT (dims t) (fun i => elt t i) = t.
Proof. now destruct t. Qed.

Lemma owns_mono s s' h b d : s ⊆ s' -> owns s h b d -> owns s' h b d.
Proof. intros Hs [Hl Hi]. split; [|exact Hi]. eapply lookup_weaken; eassumption. Qed.

Lemma owns_read_float s h t : owns s h (FloatBuf t) (dims t) -> read_float h s = (Ok t, s).
Proof.
  intros [Hl Hi]. unfold read_float. rewrite Hl, Hi. unfold tmap. simpl.
  now rewrite tensor_eta.
Qed.

Lemma owns_read_bool s h t : owns s h (BoolBuf t) (dims t) -> read_bool h s = (Ok t, s).
Proof.
  intros [Hl Hi]. unfold read_bool. rewrite Hl, Hi. unfold tmap. simpl.
  now rewrite tensor_eta.
Qed.

Lemma owns_read_long s h t : owns s h (LongBuf t) (dims t) -> read_long h s = (Ok t, s).
Proof.
  intros [Hl Hi]. unfold read_long. rewrite Hl, Hi. unfold tmap. simpl.
  now rewrite tensor_eta.
Qed.

Lemma alloc_run (s : store) b d :
  exists h, alloc b d s = (Ok h, <[hloc h := b]> s) /\
    s !! hloc h = None /\ owns (<[hloc h := b]> s) h b d.
Proof.
  exists (mkH (fresh (dom s)) (index_tensor d)). simpl.
  split; [reflexivity|]. split.
  - apply not_elem_of_dom, is_fresh.
  - split; [apply lookup_insert_eq|reflexivity].
Qed.

(** An operation that computes: it reads its argument and leaves the
    result in a buffer of its own. *)
Lemma map_float_run f h (s : store) t :
  read_float h s = (Ok t, s) ->
  exists h' s', map_float f h s = (Ok h', s') /\ s ⊆ s' /\
    owns s' h' (FloatBuf (f t)) (dims (f t)).
Proof.
  intros Hr. unfold map_float. rewrite (run_bind _ _ _ _ _ Hr). unfold new_float.
  destruct (alloc_run s (FloatBuf (f t)) (dims (f t))) as (h' & E & Hnone & Hown).
  exists h', (<[hloc h' := FloatBuf (f t)]> s). split; [exact E|]. split; [|exact Hown].
  now apply insert_subseteq.
Qed.

Lemma map_mask_run f h (s : store) t :
  read_float h s = (Ok t, s) ->
  exists h' s', map_mask f h s = (Ok h', s') /\ s ⊆ s' /\
    owns s' h' (BoolBuf (f t)) (dims (f t)).
Proof.
  intros Hr. unfold map_mask. rewrite (run_bind _ _ _ _ _ Hr). unfold new_bool.
  destruct (alloc_run s (BoolBuf (f t)) (dims (f t))) as (h' & E & Hnone & Hown).
  exists h', (<[hloc h' := BoolBuf (f t)]> s). split; [exact E|]. split; [|exact Hown].
  now apply insert_subseteq.
Qed.

Lemma map_bool_run f h (s : store) t :
  read_bool h s = (Ok t, s) ->
  exists h' s', map_bool f h s = (Ok h', s') /\ s ⊆ s' /\
    owns s' h' (BoolBuf (f t)) (dims (f t)).
Proof.
  intros Hr. unfold map_bool. rewrite (run_bind _ _ _ _ _ Hr). unfold new_bool.
  destruct (alloc_run s (BoolBuf (f t)) (dims (f t))) as (h' & E & Hnone & Hown).
  exists h', (<[hloc h' := BoolBuf (f t)]> s). split; [exact E|]. split; [|exact Hown].
  now apply insert_subseteq.
Qed.

Lemma zip_bool_run f a b (s : store) x y :
  read_bool a s = (Ok x, s) -> read_bool b s = (Ok y, s) ->
  exists h' s', zip_bool f a b s = (Ok h', s') /\ s ⊆ s' /\
    owns s' h' (BoolBuf (f x y)) (dims (f x y)).
Proof.
  intros Ha Hb. unfold zip_bool.
  rewrite (run_bind _ _ _ _ _ Ha), (run_bind _ _ _ _ _ Hb). unfold new_bool.
  destruct (alloc_run s (BoolBuf (f x y)) (dims (f x y))) as (h' & E & Hnone & Hown).
  exists h', (<[hloc h' := BoolBuf (f x y)]> s). split; [exact E|]. split; [|exact Hown].
  now apply insert_subseteq.
Qed.

Lemma cast_int64_run h (s : store) t :
  read_float h s = (Ok t, s) ->
  exists h' s', cast_int64 h s = (Ok h', s') /\ s ⊆ s' /\
    owns s' h' (LongBuf (type_int64 t)) (dims t).
Proof.
  intros Hr. unfold cast_int64. rewrite (run_bind _ _ _ _ _ Hr). unfold new_long.
  destruct (alloc_run s (LongBuf (type_int64 t)) (dims (type_int64 t)))
    as (h' & E & Hnone & Hown).
  exists h', (<[hloc h' := LongBuf (type_int64 t)]> s).
  split; [exact E|]. split; [|exact Hown]. now apply insert_subseteq.
Qed.

Lemma bind_ret_r {A} (m : M A) s : bind m (fun a => ret a) s = m s.
Proof. unfold bind, ret. now destruct (m s) as [[a|e] s']. Qed.

Lemma run_lift_ok {A B} (a : A) (k : A -> M B) s : bind (lift (Ok a)) k s = k a s.
Proof. reflexivity. Qed.

End Runs.

(** One computing step of a chain, from the tensor [H] says the argument
    holds. *)
Ltac step_float H :=
  let h' := fresh "h" in
  let s' := fresh "s" in
  let E := fresh "E" in
  let Hs := fresh "Hs" in
  let Ho := fresh "Ho" in
  match goal with
  | |- context [Heap.bind (Heap.map_float ?f ?h) ?k ?s] =>
      destruct (map_float_run f h s _ H) as (h' & s' & E & Hs & Ho);
      rewrite (run_bind _ k _ _ _ E); cbv beta; clear E;
      pose proof (owns_read_float _ _ _ Ho)
  | |- context [Heap.map_float ?f ?h ?s] =>
      destruct (map_float_run f h s _ H) as (h' & s' & E & Hs & Ho);
      rewrite E; clear E
  end.

(** Without [target], the call over the store computes what [bin_depths]
    computes, in a buffer of its own, and raises what it raises. *)
Lemma heap_bin_depths_raw (h : Heap.handle) (s : Heap.store) dm mode depth_min depth_max num_bins :
  Heap.read_float h s = (Ok dm, s) ->
  match bin_depths dm mode depth_min depth_max num_bins false,
        Heap.bin_depths h mode depth_min depth_max num_bins false s with
  | Ok (FloatTensor t), (Ok h', s') =>
      s ⊆ s' /\ Heap.owns s' h' (Heap.FloatBuf t) (dims t)
  | Err e, (Err e', s') => e = e' /\ s ⊆ s'
  | _, _ => False
  end.
Proof.
  intros Hr. unfold bin_depths, Heap.bin_depths. rewrite bind_ret_r.
  destruct (String.eqb mode "UD"); [|destruct (String.eqb mode "LID");
    [|destruct (String.eqb mode "SID")]].
  - destruct (py_truediv _ _) as [bin_size|e]; [|simpl; auto].
    rewrite run_lift_ok. simpl.
    step_float Hr. step_float H.
    split; [etransitivity; eassumption|exact Ho0].
  - destruct (py_truediv _ _) as [bin_size|e]; [|simpl; auto].
    rewrite run_lift_ok. simpl.
    step_float Hr. step_float H. step_float H0. step_float H1. step_float H2.
    step_float H3. step_float H4.
    split; [|exact Ho5].
    repeat (etransitivity; [eassumption|]). reflexivity.
  - step_float Hr. step_float H.
    destruct (math_log (1 + depth_min)) as [log_min|e].
    2: { simpl. split; [reflexivity|]. etransitivity; eassumption. }
    rewrite run_lift_ok. simpl.
    step_float H0. step_float H1.
    destruct (math_log (1 + depth_max)) as [log_max|e].
    2: { simpl. split; [reflexivity|]. repeat (etransitivity; [eassumption|]). reflexivity. }
    rewrite !run_lift_ok. simpl.
    step_float H2.
    split; [|exact Ho3].
    repeat (etransitivity; [eassumption|]). reflexivity.
  - simpl. auto.
Qed.

Lemma all_indices_complete d idx : valid_index d idx -> In idx (Heap.all_indices d).
Proof.
  unfold valid_index. intros H. induction H as [|i n idx d Hin Hrest IH]; simpl.
  - now left.
  - apply in_flat_map. exists i. split; [apply in_seq; lia|].
    now apply in_map.
Qed.

(** Through the handle of a whole buffer, the cells the assignment hits are
    the indices its mask selects. *)
Lemma hit_valid (m : tensor bool) d idx :
  valid_index d idx ->
  existsb (fun i => elt m i && Heap.index_eqb i idx) (Heap.all_indices d) = elt m idx.
Proof.
  intros Hv. destruct (elt m idx) eqn:E.
  - apply existsb_exists. exists idx. split; [now apply all_indices_complete|].
    rewrite E. unfold Heap.index_eqb. now rewrite bool_decide_eq_true_2.
  - apply not_true_is_false. intros H. apply existsb_exists in H as (i & _ & Hi).
    apply andb_true_iff in Hi as [Hm Heq]. unfold Heap.index_eqb in Heq.
    apply bool_decide_eq_true_1 in Heq. subst i. congruence.
Qed.

Lemma index_put_run (h mask : Heap.handle) (s : Heap.store) t m c :
  Heap.owns s h (Heap.FloatBuf t) (dims t) ->
  Heap.read_bool mask s = (Ok m, s) -> dims m = dims t ->
  let t' :=
    mkT (dims t)
      (fun j =>
         if existsb (fun i => elt m i && Heap.index_eqb i j) (Heap.all_indices (dims t))
         then Fin c else elt t j) in
  Heap.index_put_ h mask c s = (Ok tt, <[Heap.hloc h := Heap.FloatBuf t']> s).
Proof.
  intros [Hl Hi] Hm Hd. cbv zeta. unfold Heap.index_put_.
  rewrite (run_bind _ _ _ _ _ Hm). rewrite Hl, Hi. simpl.
  now rewrite bool_decide_eq_true_2 by exact Hd.
Qed.

(** With [target], the call over the store returns the [int64] tensor
    [bin_depths] returns, entry by entry, and the store it started from is
    part of the store it ends in. *)
Lemma heap_bin_depths_target (h : Heap.handle) (s : Heap.store) dm mode
    depth_min depth_max num_bins :
  Heap.read_float h s = (Ok dm, s) ->
  match bin_depths dm mode depth_min depth_max num_bins true,
        Heap.bin_depths h mode depth_min depth_max num_bins true s with
  | Ok (LongTensor t), (Ok h', s') =>
      s ⊆ s' /\
      exists t', Heap.owns s' h' (Heap.LongBuf t') (dims t) /\ dims t' = dims t /\
        forall idx, valid_index (dims t) idx -> elt t' idx = elt t idx
  | Err e, (Err e', s') => e = e' /\ s ⊆ s'
  | _, _ => False
  end.
Proof.
  intros Hr.
  pose proof (frames_bin_depths s h mode depth_min depth_max num_bins true s
                (reflexivity s)) as [Hframe _].
  pose proof (heap_bin_depths_raw h s dm mode depth_min depth_max num_bins Hr) as Hraw.
  unfold Heap.bin_depths in Hraw, Hframe |- *. rewrite bind_ret_r in Hraw.
  destruct (bin_depths dm mode depth_min depth_max num_bins false) as [[raw|?]|e] eqn:Epure;
    try contradiction;
    match type of Hraw with
    | match ?r with _ => _ end => destruct r as [[hi|e'] si] eqn:Em
    end; try contradiction.
  - destruct Hraw as [Hsub Hown].
    rewrite (bin_depths_target_of_raw _ _ _ _ _ _ Epure).
    rewrite (run_bind _ _ _ _ _ Em) in Hframe |- *.
    pose proof (owns_read_float _ _ _ Hown) as Hread.
    destruct (map_mask_run (fun t => lt_scalar t 0) hi si raw Hread)
      as (below & s1 & E1 & Hs1 & Ho1).
    rewrite (run_bind _ _ _ _ _ E1) in Hframe |- *.
    pose proof (owns_mono _ _ _ _ _ Hs1 Hown) as Hown1.
    destruct (map_mask_run (fun t => gt_scalar t (IZR num_bins)) hi s1 raw
                (owns_read_float _ _ _ Hown1)) as (above & s2 & E2 & Hs2 & Ho2).
    rewrite (run_bind _ _ _ _ _ E2) in Hframe |- *.
    pose proof (owns_mono _ _ _ _ _ Hs2 Hown1) as Hown2.
    destruct (zip_bool_run mask_or below above s2 _ _
                (owns_read_bool _ _ _ (owns_mono _ _ _ _ _ Hs2 Ho1))
                (owns_read_bool _ _ _ Ho2)) as (outside & s3 & E3 & Hs3 & Ho3).
    rewrite (run_bind _ _ _ _ _ E3) in Hframe |- *.
    pose proof (owns_mono _ _ _ _ _ Hs3 Hown2) as Hown3.
    destruct (map_mask_run torch_isfinite hi s3 raw (owns_read_float _ _ _ Hown3))
      as (finite & s4 & E4 & Hs4 & Ho4).
    rewrite (run_bind _ _ _ _ _ E4) in Hframe |- *.
    pose proof (owns_mono _ _ _ _ _ Hs4 Hown3) as Hown4.
    destruct (map_bool_run mask_not finite s4 _ (owns_read_bool _ _ _ Ho4))
      as (nonfinite & s5 & E5 & Hs5 & Ho5).
    rewrite (run_bind _ _ _ _ _ E5) in Hframe |- *.
    pose proof (owns_mono _ _ _ _ _ Hs5 Hown4) as Hown5.
    destruct (zip_bool_run mask_or outside nonfinite s5 _ _
                (owns_read_bool _ _ _
                   (owns_mono _ _ _ _ _ Hs5 (owns_mono _ _ _ _ _ Hs4 Ho3)))
                (owns_read_bool _ _ _ Ho5)) as (mask & s6 & E6 & Hs6 & Ho6).
    rewrite (run_bind _ _ _ _ _ E6) in Hframe |- *.
    pose proof (owns_mono _ _ _ _ _ Hs6 Hown5) as Hown6.
    pose proof (index_put_run hi mask s6 raw _ (IZR num_bins) Hown6
                  (owns_read_bool _ _ _ Ho6) eq_refl) as E7.
    cbv zeta in E7. rewrite (run_bind _ _ _ _ _ E7) in Hframe |- *.
    match type of E7 with
    | _ = (_, <[_ := Heap.FloatBuf ?t']> _) =>
        assert (Hown7 : Heap.owns (<[Heap.hloc hi := Heap.FloatBuf t']> s6) hi
                          (Heap.FloatBuf t') (dims t'))
          by (split; [apply lookup_insert_eq|apply Hown6]);
        destruct (cast_int64_run hi _ t' (owns_read_float _ _ _ Hown7))
          as (out & s8 & E8 & Hs8 & Ho8)
    end.
    rewrite E8 in Hframe |- *. simpl in Hframe.
    split; [exact Hframe|].
    eexists. split; [exact Ho8|]. split; [reflexivity|].
    intros idx Hv. simpl in Hv.
    pose proof (hit_valid
                  (mask_or (mask_or (lt_scalar raw 0) (gt_scalar raw (IZR num_bins)))
                     (mask_not (torch_isfinite raw))) _ _ Hv) as Hhit.
    simpl in Hhit |- *. now rewrite Hhit.
  - destruct Hraw as [-> Hsub].
    apply bin_depths_error_any_target in Epure. rewrite Epure.
    rewrite (run_bind_err _ _ _ _ _ Em). split; [reflexivity|exact Hsub].
Qed.

(** An unsupported mode is refused before anything is read or allocated. *)
Lemma heap_bin_depths_unsupported (h : Heap.handle) (s : Heap.store) mode
    depth_min depth_max num_bins target :
  ~ supported mode ->
  Heap.bin_depths h mode depth_min depth_max num_bins target s
  = (Err NotImplementedError, s).
Proof.
  intros H. unfold Heap.bin_depths.
  destruct (String.eqb mode "UD") eqn:EUD;
    [apply String.eqb_eq in EUD; exfalso; apply H; now left|].
  destruct (String.eqb mode "LID") eqn:ELID;
    [apply String.eqb_eq in ELID; exfalso; apply H; right; now left|].
  destruct (String.eqb mode "SID") eqn:ESID;
    [apply String.eqb_eq in ESID; exfalso; apply H; right; now right|].
  reflexivity.
Qed.

(** ** The store: the calls compute what the value-level functions compute *)

Section Refinement.
Import Heap.

Lemma denotes_mono s s' h t : s ⊆ s' -> denotes s h t -> denotes s' h t.
Proof.
  unfold denotes, read_float. intros Hs.
  destruct (s !! hloc h) as [[base|?|?]|] eqn:E; try discriminate.
  intros [= <-]. now rewrite (lookup_weaken _ _ _ _ E Hs).
Qed.

Lemma owns_denotes s h t : owns s h (FloatBuf t) (dims t) -> denotes s h t.
Proof. apply owns_read_float. Qed.

Lemma refines_ret {A B} (R : A -> B -> store -> Prop) s a b :
  R a b s -> refines R s (Ok a) (ret b).
Proof. intros H. unfold refines, ret. now split. Qed.

(** A step of the computation against a value-level term [P] that already
    holds the value [a] of the step. *)
Lemma refines_step_ok {A B C D} (R : A -> B -> store -> Prop)
    (R' : C -> D -> store -> Prop) s a (m : M B) (km : B -> M D) (P : result C) :
  refines R s (Ok a) m ->
  (forall b s', s ⊆ s' -> R a b s' -> refines R' s' P (km b)) ->
  refines R' s P (bind m km).
Proof.
  unfold refines, bind. intros Hm Hk.
  destruct (m s) as [[b|e] s']; [|contradiction].
  destruct Hm as [Hs HR]. specialize (Hk b s' Hs HR).
  destruct P as [c|e], (km b s') as [[d|e'] s'']; try contradiction.
  - destruct Hk as [Hs' HR']. split; [etransitivity; eassumption|exact HR'].
  - destruct Hk as [-> Hs']. split; [reflexivity|etransitivity; eassumption].
Qed.

Lemma refines_bind {A B C D} (R : A -> B -> store -> Prop)
    (R' : C -> D -> store -> Prop) s (p : result A) (kp : A -> result C)
    (m : M B) (km : B -> M D) :
  refines R s p m ->
  (forall a b s', s ⊆ s' -> R a b s' -> refines R' s' (kp a) (km b)) ->
  refines R' s (rbind p kp) (bind m km).
Proof.
  intros Hm Hk. destruct p as [a|e]; simpl.
  - eapply refines_step_ok; [exact Hm|]. intros b s' Hs HR. now apply Hk.
  - unfold refines, bind in *. destruct (m s) as [[b|e'] s']; [contradiction|].
    exact Hm.
Qed.

Lemma refines_lift {A} s (r : result A) :
  refines (fun a b s' => a = b /\ s' = s) s r (lift r).
Proof. unfold refines, lift. destruct r; now repeat split. Qed.

Lemma denotes_dims s h t : denotes s h t -> dims (hidx h) = dims t.
Proof.
  unfold denotes, read_float.
  destruct (s !! hloc h) as [[base|?|?]|]; try discriminate. now intros [= <-].
Qed.

Lemma refines_new_float s t : refines tensor_rel s (Ok t) (new_float t).
Proof.
  unfold refines, new_float.
  destruct (alloc_run s (FloatBuf t) (dims t)) as (h & E & Hnone & Hown).
  rewrite E. split; [now apply insert_subseteq|]. now apply owns_denotes.
Qed.

Lemma refines_map_float s f h t :
  denotes s h t -> refines tensor_rel s (Ok (f t)) (map_float f h).
Proof.
  intros Hd. unfold map_float.
  eapply (refines_step_ok (fun a b s' => a = b /\ s' = s)).
  - unfold refines. rewrite Hd. now repeat split.
  - intros b s' _ [<- ->]. apply refines_new_float.
Qed.

Lemma refines_try_float s f h t :
  denotes s h t -> refines tensor_rel s (f t) (try_float f h).
Proof.
  intros Hd. unfold try_float.
  eapply (refines_step_ok (fun a b s' => a = b /\ s' = s) _ _ t).
  - unfold refines. rewrite Hd. now repeat split.
  - intros b s' _ [<- ->].
    destruct (f t) as [r|e] eqn:E.
    + unfold bind, lift. apply refines_new_float.
    + unfold refines, bind, lift. now split.
Qed.

Lemma refines_try_float2 s f a b x y :
  denotes s a x -> denotes s b y -> refines tensor_rel s (f x y) (try_float2 f a b).
Proof.
  intros Ha Hb. unfold try_float2.
  eapply (refines_step_ok (fun u v s' => u = v /\ s' = s) _ _ x).
  - unfold refines. rewrite Ha. now repeat split.
  - intros ? s' _ [<- ->].
    eapply (refines_step_ok (fun u v s' => u = v /\ s' = s) _ _ y).
    + unfold refines. rewrite Hb. now repeat split.
    + intros ? s' _ [<- ->].
      destruct (f x y) as [r|e] eqn:E.
      * unfold bind, lift. apply refines_new_float.
      * unfold refines, bind, lift. now split.
Qed.

(** A view reads what the value-level operation returns, provided the
    operation only rearranges entries: it commutes with [tmap]. *)
Lemma refines_view s (opI : tensor (list nat) -> result (tensor (list nat)))
    (opF : tensor fnum -> result (tensor fnum)) h t :
  (forall (f : list nat -> fnum) i, opF (tmap f i) = rmap (tmap f) (opI i)) ->
  denotes s h t ->
  refines (fun t' h' s' => denotes s' h' t' /\ s' = s) s (opF t) (view opI h).
Proof.
  intros Hnat Hd. unfold denotes, read_float in Hd.
  destruct (s !! hloc h) as [[base|?|?]|] eqn:E; try discriminate.
  injection Hd as <-. rewrite Hnat. unfold refines, view.
  destruct (opI (hidx h)) as [i|e]; simpl.
  - split; [reflexivity|]. split; [|reflexivity].
    unfold denotes, read_float. simpl. now rewrite E.
  - now split.
Qed.
End Refinement.

(** The views only rearrange entries. *)
Lemma unsqueeze1_tmap {A B} (f : A -> B) t :
  unsqueeze1 (tmap f t) = rmap (tmap f) (unsqueeze1 t).
Proof. unfold unsqueeze1. simpl. now destruct (dims t). Qed.

Lemma squeeze_last_tmap {A B} (f : A -> B) t :
  squeeze_last (tmap f t) = tmap f (squeeze_last t).
Proof.
  unfold squeeze_last. simpl. destruct (dims t); [reflexivity|].
  now destruct (Nat.eqb _ 1).
Qed.

Lemma index_last_tmap {A B} (f : A -> B) t :
  index_last (tmap f t) = rmap (tmap f) (index_last t).
Proof.
  unfold index_last. simpl. destruct (dims t); [reflexivity|].
  now destruct (Nat.eqb _ 0).
Qed.

Lemma index_2_3_tmap {A B} (f : A -> B) t :
  index_2_3 (tmap f t) = rmap (tmap f) (index_2_3 t).
Proof.
  unfold index_2_3. simpl. destruct (Nat.ltb _ 2); [reflexivity|].
  now destruct (_ || _).
Qed.

Lemma reshape_tmap {A B} (f : A -> B) t d :
  reshape (tmap f t) d = rmap (tmap f) (reshape t d).
Proof. unfold reshape. simpl. now destruct (Nat.eqb _ _). Qed.

Lemma reshape_batch_tmap {A B} (f : A -> B) t :
  reshape_batch (tmap f t) = rmap (tmap f) (reshape_batch t).
Proof.
  unfold reshape_batch. simpl. destruct (Nat.ltb _ 2); [reflexivity|].
  destruct (Nat.eqb _ 0); [reflexivity|]. apply reshape_tmap.
Qed.

Lemma permute021_tmap {A B} (f : A -> B) t :
  permute021 (tmap f t) = rmap (tmap f) (permute021 t).
Proof.
  unfold permute021. simpl.
  now destruct (dims t) as [|b [|r [|c [|]]]].
Qed.

(** A view step of a chain, for an operation that cannot fail and for one
    that can; the handle of the view and what it stands for remain to be
    introduced. *)
Ltac view_total opI opF H :=
  eapply refines_step_ok;
  [ eapply (refines_view _ (fun i => Ok (opI i)) (fun t => Ok (opF t)));
    [ intros; simpl; first [reflexivity | f_equal; apply squeeze_last_tmap] | exact H ]
  | ].

Ltac view_try opI opF nat H :=
  eapply refines_bind;
  [ eapply (refines_view _ opI opF); [ intros; apply nat | exact H ] | ].

Lemma heap_normalize_coords (s : Heap.store) hc hs coords shape :
  Heap.denotes s hc coords -> Heap.denotes s hs shape ->
  Heap.refines Heap.tensor_rel s (normalize_coords coords shape)
    (Heap.normalize_coords hc hs).
Proof.
  intros Hc Hs. unfold normalize_coords, Heap.normalize_coords. cbv zeta.
  eapply refines_bind; [apply refines_try_float; exact Hs|].
  intros shape' h1 s1 Hs1 R1.
  eapply refines_step_ok;
    [apply (refines_map_float _ (fun t => sub_scalar t 1)); exact R1|].
  intros h2 s2 Hs2 R2.
  eapply refines_bind.
  { apply refines_try_float2; [|exact R2].
    eapply denotes_mono; [|exact Hc]. etransitivity; eassumption. }
  intros ratio h3 s3 Hs3 R3.
  eapply refines_step_ok; [apply refines_map_float; exact R3|].
  intros h4 s4 Hs4 R4.
  apply (refines_map_float _ (fun t => add_scalar t (IZR (-1)))). exact R4.
Qed.

Lemma heap_project_to_image (s : Heap.store) hp hq project points bmm :
  Heap.denotes s hp project -> Heap.denotes s hq points ->
  Heap.refines
    (fun res hres s' =>
       Heap.denotes s' (fst hres) (fst res) /\ Heap.denotes s' (snd hres) (snd res))
    s (project_to_image project points bmm)
    (Heap.project_to_image hp hq bmm).
Proof.
  intros Hp Hq. unfold project_to_image, Heap.project_to_image.
  eapply refines_bind; [apply refines_try_float; exact Hq|].
  intros hom h1 s1 Hs1 R1.
  pose proof (denotes_mono _ _ _ _ Hs1 Hp) as Hp1.
  eapply (refines_bind
            (fun res hres s' =>
               Heap.denotes s' (fst hres) (fst res) /\
               Heap.denotes s' (snd hres) (snd res))).
  - destruct bmm; simpl; cbv zeta.
    + rewrite (denotes_dims _ _ _ R1).
      view_try (@reshape_batch (list nat)) (@reshape_batch fnum) (@reshape_batch_tmap) R1.
      intros pts hpts ? _ [Rpts ->].
      view_try (@reshape_batch (list nat)) (@reshape_batch fnum) (@reshape_batch_tmap) Hp1.
      intros prj hprj ? _ [Rprj ->].
      view_try (@permute021 (list nat)) (@permute021 fnum) (@permute021_tmap) Rprj.
      intros prj' hprj' ? _ [Rprj' ->].
      rewrite (denotes_dims _ _ _ Rpts), (denotes_dims _ _ _ Rprj').
      eapply refines_bind; [apply refines_lift|]. intros repeats ? ? _ [<- ->].
      eapply refines_bind;
        [apply (refines_try_float _ (fun t => repeat_interleave0 t repeats)); exact Rprj'|].
      intros rep hrep s5 Hs5 Rrep.
      eapply refines_bind.
      { apply refines_try_float2; [|exact Rrep]. eapply denotes_mono; eassumption. }
      intros pt hpt s6 Hs6 Rpt.
      eapply refines_bind.
      { eapply (refines_view _ (fun i => reshape i _) (fun t => reshape t _));
          [intros; apply reshape_tmap|exact Rpt]. }
      intros pt' hpt' ? _ [Rpt' ->].
      view_try (@index_last (list nat)) (@index_last fnum) (@index_last_tmap) Rpt'.
      intros last hlast ? _ [Rlast ->].
      assert (Hp6 : Heap.denotes s6 hp project).
      { eapply denotes_mono; [|exact Hp1]. etransitivity; eassumption. }
      view_try (@index_2_3 (list nat)) (@index_2_3 fnum) (@index_2_3_tmap) Hp6.
      intros off hoff ? _ [Roff ->].
      eapply refines_bind; [apply refines_try_float2; eassumption|].
      intros depth hdepth s10 Hs10 Rdepth.
      apply refines_ret. simpl. split; [|exact Rdepth].
      eapply denotes_mono; eassumption.
    + view_total (@unsqueeze_last (list nat)) (@unsqueeze_last fnum) R1.
      intros hpts ? _ [Rpts ->].
      view_try (@unsqueeze1 (list nat)) (@unsqueeze1 fnum) (@unsqueeze1_tmap) Hp1.
      intros prj hprj ? _ [Rprj ->].
      eapply refines_bind; [apply refines_try_float2; eassumption|].
      intros pt hpt s4 Hs4 Rpt.
      view_total (@squeeze_last (list nat)) (@squeeze_last fnum) Rpt.
      intros hpt' ? _ [Rpt' ->].
      view_try (@index_last (list nat)) (@index_last fnum) (@index_last_tmap) Rpt'.
      intros last hlast ? _ [Rlast ->].
      assert (Rprj4 : Heap.denotes s4 hprj prj).
      { eapply denotes_mono; eassumption. }
      view_try (@index_2_3 (list nat)) (@index_2_3 fnum) (@index_2_3_tmap) Rprj4.
      intros off hoff ? _ [Roff ->].
      eapply refines_bind; [apply refines_try_float2; eassumption|].
      intros depth hdepth s10 Hs10 Rdepth.
      apply refines_ret. simpl. split; [|exact Rdepth].
      eapply denotes_mono; eassumption.
  - intros res hres s2 Hs2 [Ra Rb].
    eapply refines_bind; [apply refines_try_float; exact Ra|].
    intros img h3 s3 Hs3 R3.
    apply refines_ret. simpl. split; [exact R3|].
    eapply denotes_mono; eassumption.
Qed.

(** * The documented properties *)

(** ** [bin_depths] *)

(** C1.  For a supported mode, [depth_min < depth_max] and [num_bins >= 1],
    the value [bin_depths] computes before any target masking is, entry by
    entry, the documented closed form of the mode: [spec_index_UD],
    [spec_index_LID] or [spec_index_SID].  A value is computed wherever the
    closed form is defined, that is unless the mode is SID and
    [1 + depth_min] has no logarithm, where [math.log] raises.  On a finite
    depth the closed forms are the real numbers [real_index_UD],
    [real_index_LID] and [real_index_SID]. *)
Theorem bin_depths_closed_form dm mode depth_min depth_max num_bins :
  supported mode -> (depth_min < depth_max)%R -> (1 <= num_bins)%Z ->
  (forall out,
     bin_depths dm mode depth_min depth_max num_bins false = Ok out ->
     exists t, out = FloatTensor t /\ dims t = dims dm /\
       forall idx,
         elt t idx = spec_index depth_min depth_max num_bins mode (elt dm idx)) /\
  ((mode = "SID"%string -> (-1 < depth_min)%R) ->
   exists t, bin_depths dm mode depth_min depth_max num_bins false = Ok (FloatTensor t)) /\
  (mode = "SID"%string -> (depth_min <= -1)%R ->
   bin_depths dm mode depth_min depth_max num_bins false = Err ValueError) /\
  (forall d,
     spec_index_UD depth_min depth_max num_bins (Fin d)
     = Fin (real_index_UD depth_min depth_max num_bins d)) /\
  (forall d,
     (0 <= 1 + 8 * (d - depth_min) / spec_bin_size_LID depth_min depth_max num_bins)%R ->
     spec_index_LID depth_min depth_max num_bins (Fin d)
     = Fin (real_index_LID depth_min depth_max num_bins d)) /\
  (forall d,
     (-1 < depth_min)%R -> (-1 < d)%R ->
     spec_index_SID depth_min depth_max num_bins (Fin d)
     = Fin (real_index_SID depth_min depth_max num_bins d)).
Proof.
  intros Hm Hr Hb.
  split; [|split; [|split; [|split; [|split]]]].
  - intros out Hout. now apply bin_depths_raw_inv in Hout as [_ Hout].
  - intros HSID.
    destruct (bin_depths_returns dm mode depth_min depth_max num_bins false Hm) as [out Hout].
    { split; [|split]; intros E; try lia; try nia.
      specialize (HSID E). lra. }
    destruct (bin_depths_raw_inv _ _ _ _ _ _ Hout) as (_ & t & -> & _).
    now exists t.
  - intros -> Hmin. unfold bin_depths. simpl.
    now rewrite math_log_err by lra.
  - intros d. now apply spec_index_UD_real.
  - intros d Hd. now apply spec_index_LID_real.
  - intros d Hmin Hd. now apply spec_index_SID_real.
Qed.

Lemma bin_depths_closed_form_witness :
  supported "LID" /\ (0 < 2)%R /\ (1 <= 2)%Z /\
  exists t, bin_depths (depth_map_of (Fin 1)) "LID" 0 2 2 false = Ok (FloatTensor t).
Proof.
  assert (Hm : supported "LID") by (right; left; reflexivity).
  assert (Hr : (0 < 2)%R) by lra.
  assert (Hb : (1 <= 2)%Z) by lia.
  split; [exact Hm|]. split; [exact Hr|]. split; [exact Hb|].
  apply (bin_depths_closed_form (depth_map_of (Fin 1)) "LID" 0 2 2 Hm Hr Hb).
  discriminate.
Defined.

(** C3.  [bin_depths] raises the unsupported-mode error exactly on the modes
    outside UD, LID and SID, whatever its other arguments: outside the set
    the result is the error and no tensor, inside the set this error never
    occurs.  Over the store, the refusal comes before any computation: no
    buffer is read, allocated or written, the store is returned as it was. *)
Theorem bin_depths_unsupported_mode dm mode depth_min depth_max num_bins target :
  (bin_depths dm mode depth_min depth_max num_bins target = Err NotImplementedError
   <-> ~ supported mode) /\
  (~ supported mode ->
   forall (h : Heap.handle) (s : Heap.store),
     Heap.bin_depths h mode depth_min depth_max num_bins target s
     = (Err NotImplementedError, s)).
Proof.
  split; [split|].
  - intros H Hm.
    destruct (bin_depths_supported_error _ _ _ _ _ _ _ Hm H); discriminate.
  - apply bin_depths_unsupported.
  - intros Hm h s. now apply heap_bin_depths_unsupported.
Qed.

Lemma bin_depths_unsupported_mode_witness :
  ~ supported "XYZ" /\
  bin_depths (depth_map_of (Fin 1)) "XYZ" 0 1 1 false = Err NotImplementedError /\
  Heap.bin_depths caller_handle "XYZ" 0 1 1 false caller_store
  = (Err NotImplementedError, caller_store).
Proof.
  assert (Hm : ~ supported "XYZ") by (intros [H | [H | H]]; discriminate H).
  destruct (bin_depths_unsupported_mode (depth_map_of (Fin 1)) "XYZ" 0 1 1 false)
    as [Hiff Hheap].
  split; [exact Hm|]. split; [now apply Hiff|]. now apply Hheap.
Defined.








(** ** [normalize_coords] *)

(** C4, as the claim states it, fails: on a grid with an axis of extent 1 the
    coordinate 0, which is also the coordinate [shape - 1], is divided by 0
    and maps to NaN, not to -1 or 1. *)
Lemma normalize_coords_unit_axis_counterexample :
  exists out,
    normalize_coords (mkT [3%nat] (fun _ => Fin 0)) (mkT [3%nat] (fun _ => Fin 1)) = Ok out /\
    elt out [0%nat] = NaN /\ elt out [0%nat] <> Fin (-1) /\ elt out [0%nat] <> Fin 1.
Proof.
  destruct (normalize_coords_entries (mkT [3%nat] (fun _ => Fin 0))
              (mkT [3%nat] (fun _ => Fin 1)) [] eq_refl eq_refl) as (out & Hout & _ & Hent).
  exists out. split; [exact Hout|].
  assert (E : elt out [0%nat] = NaN).
  { assert (Hv : valid_index [3%nat] ([] ++ [0%nat])) by (repeat constructor).
    pose proof (Hent [] 0%nat Hv) as H. simpl in H. rewrite H.
    unfold spec_normalize. simpl. rewrite Reqb_true by lra.
    unfold inf_times. now rewrite !Rltb_false by lra. }
  rewrite E. split; [reflexivity|]. split; discriminate.
Qed.

(** C4, amended.  For coordinates of shape (..., 3) and a shape vector of
    three entries, [normalize_coords] reverses the shape vector and returns,
    entry by entry, [(coords / (shape - 1)) * 2 - 1], each coordinate with
    the reversed shape entry of its position in the last axis.  Where that
    shape entry is a finite number other than 1, the coordinate 0 maps to
    -1 and the coordinate [shape - 1] to 1; where it is above 1, a finite
    coordinate outside the range from 0 to [shape - 1] maps outside the
    range from -1 to 1: nothing is clamped.  Where the shape entry is 1, the
    coordinate 0 maps to NaN. *)
Theorem normalize_coords_spec coords shape bs :
  dims coords = bs ++ [3%nat] -> dims shape = [3%nat] ->
  exists out,
    normalize_coords coords shape = Ok out /\ dims out = dims coords /\
    forall i k,
      valid_index (dims coords) (i ++ [k]) ->
      let size := elt shape [(2 - k)%nat] in
      let c := elt coords (i ++ [k]) in
      let y := elt out (i ++ [k]) in
      y = spec_normalize c size /\
      (size = Fin 1 -> c = Fin 0 -> y = NaN) /\
      forall s,
        size = Fin s -> s <> 1%R ->
        (c = Fin 0 -> y = Fin (-1)) /\
        (c = Fin (s - 1) -> y = Fin 1) /\
        ((1 < s)%R ->
         forall x, c = Fin x -> (x < 0 \/ s - 1 < x)%R ->
         exists r, y = Fin r /\ (r < -1 \/ 1 < r)%R).
Proof.
  intros Hc Hs.
  destruct (normalize_coords_entries coords shape bs Hc Hs) as (out & Hout & Hd & Hent).
  exists out. split; [exact Hout|]. split; [now rewrite Hd, Hc|].
  intros i k Hv. rewrite Hc in Hv. cbv zeta.
  split; [now apply Hent|]. split.
  { intros Es Ec. rewrite (Hent i k Hv), Es, Ec. unfold spec_normalize. simpl.
    rewrite Reqb_true by lra. unfold inf_times. now rewrite !Rltb_false by lra. }
  intros s Es Hs1. rewrite (Hent i k Hv), Es.
  split; [|split].
  - intros ->. rewrite spec_normalize_finite by assumption. f_equal. field. lra.
  - intros ->. rewrite spec_normalize_finite by assumption. f_equal. field. lra.
  - intros Hgt x -> Hx. rewrite spec_normalize_finite by assumption.
    eexists. split; [reflexivity|].
    assert (Hpos : (0 < / (s - 1))%R) by (apply Rinv_0_lt_compat; lra).
    unfold Rdiv. destruct Hx as [Hx|Hx].
    + left. assert (x * / (s - 1) < 0)%R by nra. lra.
    + right. assert (H1 : ((s - 1) * / (s - 1) = 1)%R) by (apply Rinv_r; lra).
      assert ((s - 1) * / (s - 1) < x * / (s - 1))%R
        by (apply Rmult_lt_compat_r; assumption).
      lra.
Qed.

Lemma normalize_coords_spec_witness :
  dims (mkT [3%nat] (fun _ => Fin 0)) = [] ++ [3%nat] /\
  dims (mkT [3%nat] (fun _ => Fin 5)) = [3%nat] /\
  exists out,
    normalize_coords (mkT [3%nat] (fun _ => Fin 0)) (mkT [3%nat] (fun _ => Fin 5)) = Ok out /\
    elt out [0%nat] = Fin (-1).
Proof.
  split; [reflexivity|]. split; [reflexivity|].
  destruct (normalize_coords_spec (mkT [3%nat] (fun _ => Fin 0))
              (mkT [3%nat] (fun _ => Fin 5)) [] eq_refl eq_refl) as (out & Hout & _ & Hent).
  exists out. split; [exact Hout|].
  assert (Hv : valid_index [3%nat] ([] ++ [0%nat])) by (repeat constructor).
  destruct (Hent [] 0%nat Hv) as (_ & _ & H).
  destruct (H 5%R eq_refl) as [H0 _]; [lra|].
  now apply H0.
Defined.

(** ** [project_to_image] *)

(** C5, as the claim states it, fails: the batch axes that have to agree are
    those of the projection after the insertion at position 1.  Two
    projection matrices and five pairs of points have batch axes (2) and
    (5, 2), which broadcast against each other, but the matrix product meets
    (2, 1) and (5, 2) and raises. *)
Lemma project_to_image_batch_axes_counterexample :
  broadcast_shapes (batch_dims (dims (eye_project [2%nat; 3%nat; 4%nat])))
    (removelast (dims (const_points [5%nat; 2%nat; 3%nat] 1)))
  = Some [5%nat; 2%nat] /\
  project_to_image (eye_project [2%nat; 3%nat; 4%nat])
    (tmap Fin (const_points [5%nat; 2%nat; 3%nat] 1)) false = Err RuntimeError.
Proof. split; reflexivity. Qed.

(** C5, amended.  For a projection of shape (b0, ..., 3, 4), with at least
    one batch axis, and points of shape (..., 3) whose batch axes broadcast
    against those of the projection with the axis of extent 1 inserted at
    position 1, [project_to_image] without [bmm] returns, at every index of
    the broadcast batch shape: as depth the third coordinate of the
    transformed point minus entry [2, 3] of the projection matrix, and as
    image point the first two coordinates of the transformed point, each
    divided by the third.  The transformed point is the matrix applied to
    the point with a 1 appended ([transformed]). *)
Theorem project_to_image_spec project points b0 bs pb ob :
  dims project = b0 :: bs ++ [3%nat; 4%nat] ->
  dims points = pb ++ [3%nat] ->
  broadcast_shapes (b0 :: 1%nat :: bs) pb = Some ob ->
  exists img depth,
    project_to_image project points false = Ok (img, depth) /\
    dims depth = ob /\ dims img = ob ++ [2%nat] /\
    forall idx,
      valid_index ob idx ->
      let pidx := drop_axis1 (bproj (b0 :: 1%nat :: bs) idx) in
      let qidx := bproj pb idx in
      let t := transformed project points pidx qidx in
      elt depth idx = fsub (t 2%nat) (elt project (pidx ++ [2%nat; 3%nat])) /\
      elt img (idx ++ [0%nat]) = fdiv (t 0%nat) (t 2%nat) /\
      elt img (idx ++ [1%nat]) = fdiv (t 1%nat) (t 2%nat).
Proof. apply project_to_image_broadcast. Qed.

Lemma project_to_image_spec_witness :
  dims (eye_project [2%nat; 3%nat; 4%nat]) = 2%nat :: [] ++ [3%nat; 4%nat] /\
  dims (tmap Fin (const_points [2%nat; 5%nat; 3%nat] 1)) = [2%nat; 5%nat] ++ [3%nat] /\
  broadcast_shapes [2%nat; 1%nat] [2%nat; 5%nat] = Some [2%nat; 5%nat] /\
  exists img depth,
    project_to_image (eye_project [2%nat; 3%nat; 4%nat])
      (tmap Fin (const_points [2%nat; 5%nat; 3%nat] 1)) false = Ok (img, depth) /\
    dims depth = [2%nat; 5%nat] /\ dims img = [2%nat; 5%nat; 2%nat].
Proof.
  destruct (project_to_image_spec (eye_project [2%nat; 3%nat; 4%nat])
              (tmap Fin (const_points [2%nat; 5%nat; 3%nat] 1))
              2%nat [] [2%nat; 5%nat] [2%nat; 5%nat] eq_refl eq_refl eq_refl)
    as (img & depth & H & Hd & Hi & _).
  split; [reflexivity|]. split; [reflexivity|]. split; [reflexivity|].
  exists img, depth. split; [exact H|]. split; [exact Hd|exact Hi].
Defined.



Lemma eye_project_identity_like d : identity_like (eye_project d).
Proof.
  intros pidx i l _. unfold eye_project. simpl.
  now rewrite rows_app2, cols_app2.
Qed.


(** C8.  With [bmm] set, when the flattened batch count of the points is not
    a multiple of that of the projection matrices, the call fails: no shapes
    and no entries make it return.  On well-shaped arguments the error is
    the division by zero of [//] when there is no projection matrix, and
    otherwise the one of [torch.bmm], which refuses the batch count that the
    floor division leaves. *)
Theorem project_to_image_bmm_indivisible project points :
  ~ Nat.divide (numel (batch_dims (dims project))) (numel (batch_dims (dims points))) ->
  (exists e, project_to_image project points true = Err e) /\
  (forall pb n qb,
     dims points = pb ++ [S n; 3%nat] -> dims project = qb ++ [3%nat; 4%nat] ->
     project_to_image project points true
     = Err (if Nat.eqb (numel qb) 0 then ZeroDivisionError else RuntimeError)).
Proof.
  intros Hdiv. split.
  - destruct (project_to_image project points true) as [out|e] eqn:E; [|now exists e].
    exfalso. apply Hdiv. eapply project_to_image_bmm_divides. exact E.
  - intros pb n qb Hq Hp. apply (project_to_image_bmm_error _ _ pb n qb Hq Hp).
    rewrite Hq, Hp, !batch_dims_app2 in Hdiv. exact Hdiv.
Qed.

Lemma project_to_image_bmm_indivisible_witness :
  ~ Nat.divide 2 3 /\
  project_to_image (eye_project [2%nat; 3%nat; 4%nat])
    (tmap Fin (const_points [3%nat; 5%nat; 3%nat] 1)) true = Err RuntimeError.
Proof.
  assert (Hdiv : ~ Nat.divide 2 3) by (intros [z Hz]; lia).
  split; [exact Hdiv|].
  destruct (project_to_image_bmm_indivisible (eye_project [2%nat; 3%nat; 4%nat])
              (tmap Fin (const_points [3%nat; 5%nat; 3%nat] 1)) Hdiv) as [_ H].
  exact (H [3%nat] 4%nat [2%nat] eq_refl eq_refl).
Defined.

(** ** In-place writes *)

(** C9, as the claim states it, fails: the masking step of [bin_depths] does
    not write into the buffer of [depth_map].  In mode UD with depths from 0
    to 1 and one bin, the entry of depth -1 has the raw index -1 and is
    masked; after the call with [target] set the caller's buffer still holds
    -1, and the tensor returned lives in another buffer. *)
Lemma bin_depths_mask_in_place_counterexample :
  target_mask 1 (spec_index 0 1 1 "UD" (elt caller_depth_map [0%nat])) = true /\
  exists out s',
    Heap.bin_depths caller_handle "UD" 0 1 1 true caller_store = (Ok out, s') /\
    s' !! 1%positive = Some (Heap.FloatBuf caller_depth_map) /\
    Heap.hloc out <> 1%positive.
Proof.
  split.
  - unfold spec_index, caller_depth_map, depth_map_of. simpl.
    rewrite spec_index_UD_real by (lra || lia).
    apply target_mask_true. simpl. left. unfold real_index_UD.
    replace ((-1 - 0) / ((1 - 0) / 1))%R with (-1)%R by (field; lra). lra.
  - assert (Hr : Heap.read_float caller_handle caller_store
                 = (Ok caller_depth_map, caller_store)).
    { unfold Heap.read_float, caller_store. simpl.
      now rewrite lookup_singleton_eq. }
    pose proof (heap_bin_depths_target caller_handle caller_store caller_depth_map
                  "UD" 0 1 1 Hr) as H.
    destruct (bin_depths_returns caller_depth_map "UD" 0 1 1 true) as [res Hres].
    { now left. }
    { split; [intros _; lia|]. split; discriminate. }
    destruct (bin_depths_target_inv _ _ _ _ _ _ Hres) as (raw & t & _ & ->).
    rewrite Hres in H.
    destruct (Heap.bin_depths caller_handle "UD" 0 1 1 true caller_store)
      as [[out|e] s']; [|contradiction].
    destruct H as (Hsub & t' & [Hl _] & _).
    assert (H1 : s' !! 1%positive = Some (Heap.FloatBuf caller_depth_map)).
    { eapply lookup_weaken; [|exact Hsub]. apply lookup_singleton_eq. }
    exists out, s'. split; [reflexivity|]. split; [exact H1|].
    intros E. rewrite E in Hl.
    assert (C : Some (Heap.LongBuf t') = Some (Heap.FloatBuf caller_depth_map))
      by (rewrite <- Hl; exact H1).
    discriminate C.
Qed.

(** C9, amended.  No function of the module writes into a buffer that exists
    when it is called: for [project_to_image], [normalize_coords] and
    [bin_depths], whatever the arguments and whether the call returns or
    raises, every buffer of the store before the call is in the store after
    the call, unchanged.  The masking step of [bin_depths] does write in
    place, into the tensor of indices the call has computed in a buffer of
    its own: with [target] set the call returns the masked and truncated
    indices, and the depth map still reads as before. *)
Theorem inputs_never_mutated :
  (forall project points bmm (s : Heap.store),
     s ⊆ snd (Heap.project_to_image project points bmm s)) /\
  (forall coords shape (s : Heap.store),
     s ⊆ snd (Heap.normalize_coords coords shape s)) /\
  (forall depth_map mode depth_min depth_max num_bins target (s : Heap.store),
     s ⊆ snd (Heap.bin_depths depth_map mode depth_min depth_max num_bins target s)) /\
  (forall depth_map mode depth_min depth_max num_bins (s : Heap.store) dm,
     Heap.denotes s depth_map dm ->
     match bin_depths dm mode depth_min depth_max num_bins true,
           Heap.bin_depths depth_map mode depth_min depth_max num_bins true s with
     | Ok (LongTensor t), (Ok out, s') =>
         Heap.denotes s' depth_map dm /\
         exists t',
           Heap.read_long out s' = (Ok t', s') /\ dims t' = dims t /\
           forall idx, valid_index (dims t) idx -> elt t' idx = elt t idx
     | Err e, (Err e', s') => e = e' /\ Heap.denotes s' depth_map dm
     | _, _ => False
     end).
Proof.
  split; [|split; [|split]].
  - intros project points bmm s.
    now apply (frames_project_to_image s project points bmm s).
  - intros coords shape s. now apply (frames_normalize_coords s coords shape s).
  - intros depth_map mode depth_min depth_max num_bins target s.
    now apply (frames_bin_depths s depth_map mode depth_min depth_max num_bins target s).
  - intros depth_map mode depth_min depth_max num_bins s dm Hd.
    pose proof (heap_bin_depths_target depth_map s dm mode depth_min depth_max
                  num_bins Hd) as H.
    destruct (bin_depths dm mode depth_min depth_max num_bins true) as [[t|t]|e];
      destruct (Heap.bin_depths depth_map mode depth_min depth_max num_bins true s)
        as [[out|e'] s']; try contradiction.
    + destruct H as (Hsub & t' & Hown & Hdims & Hent).
      split; [now apply (denotes_mono s s')|].
      exists t'. split; [|split; [exact Hdims|exact Hent]].
      apply owns_read_long. now rewrite Hdims.
    + destruct H as [-> Hsub]. split; [reflexivity|]. now apply (denotes_mono s s').
Qed.

Lemma inputs_never_mutated_witness :
  Heap.denotes caller_store caller_handle caller_depth_map /\
  Heap.denotes (snd (Heap.bin_depths caller_handle "UD" 0 1 1 true caller_store))
    caller_handle caller_depth_map.
Proof.
  assert (Hd : Heap.denotes caller_store caller_handle caller_depth_map).
  { unfold Heap.denotes, Heap.read_float, caller_store. simpl.
    now rewrite lookup_singleton_eq. }
  split; [exact Hd|].
  destruct inputs_never_mutated as (_ & _ & _ & H).
  specialize (H caller_handle "UD"%string 0%R 1%R 1%Z caller_store caller_depth_map Hd).
  destruct (bin_depths caller_depth_map "UD" 0 1 1 true) as [[t|t]|e];
    destruct (Heap.bin_depths caller_handle "UD" 0 1 1 true caller_store)
      as [[out|e'] s']; try contradiction; simpl; apply H.
Defined.
(** * Further lemmas *)

(** ** [bin_depths]: the index as a function of the depth *)

Lemma Rdiv_ge_iff a b k : (0 < b)%R -> (k <= a / b <-> k * b <= a)%R.
Proof.
  intros Hb. assert (Hi : (0 < / b)%R) by now apply Rinv_0_lt_compat.
  assert (E1 : (a / b * b = a)%R) by (field; lra).
  assert (E2 : (k * b * / b = k)%R) by (field; lra).
  split; intros H.
  - rewrite <- E1. apply Rmult_le_compat_r; lra.
  - rewrite <- E2. unfold Rdiv. apply Rmult_le_compat_r; lra.
Qed.

Lemma Rdiv_le_iff a b c : (0 < b)%R -> (a / b <= c <-> a <= c * b)%R.
Proof.
  intros Hb. assert (Hi : (0 < / b)%R) by now apply Rinv_0_lt_compat.
  assert (E1 : (a / b * b = a)%R) by (field; lra).
  assert (E2 : (c * b * / b = c)%R) by (field; lra).
  split; intros H.
  - rewrite <- E1. apply Rmult_le_compat_r; lra.
  - rewrite <- E2. unfold Rdiv. apply Rmult_le_compat_r; lra.
Qed.

Lemma exp_le_iff x y : (exp x <= exp y <-> x <= y)%R.
Proof.
  split; intros H.
  - apply Rnot_lt_le. intros C. apply exp_increasing in C. lra.
  - destruct H as [H | ->]; [left; now apply exp_increasing|right; reflexivity].
Qed.

Lemma ln_le_mono x y : (0 < x)%R -> (x <= y)%R -> (ln x <= ln y)%R.
Proof.
  intros Hx [H | ->]; [left; now apply ln_increasing|right; reflexivity].
Qed.

Lemma Rtrunc_mono a b : (0 <= a)%R -> (a <= b)%R -> (Rtrunc a <= Rtrunc b)%Z.
Proof.
  intros Ha Hab.
  destruct (Rtrunc_nonneg a Ha) as [_ [Hla _]].
  destruct (Rtrunc_nonneg b) as [_ [_ Hub]]; [lra|].
  assert (H : (IZR (Rtrunc a) < IZR (Rtrunc b + 1))%R) by (rewrite plus_IZR; lra).
  apply lt_IZR in H. lia.
Qed.

Lemma Rtrunc_unit_interval r i :
  (0 <= r)%R -> (Rtrunc r = i <-> IZR i <= r < IZR i + 1)%R.
Proof.
  intros Hr. destruct (Rtrunc_nonneg r Hr) as [E H]. split.
  - intros <-. exact H.
  - intros [Hl Hu]. rewrite E. symmetry. apply Int_part_spec. lra.
Qed.

Section BinProfile.
Variables (depth_min depth_max : R) (num_bins : Z).
Hypothesis Hrange : (depth_min < depth_max)%R.
Hypothesis Hbins : (1 <= num_bins)%Z.

Let N := IZR num_bins.
Let B := spec_bin_size_LID depth_min depth_max num_bins.
Let G := (ln (1 + depth_max) - ln (1 + depth_min))%R.

Lemma bin_size_UD_pos : (0 < (depth_max - depth_min) / IZR num_bins)%R.
Proof using Hrange Hbins.
  pose proof (bins_ge_1 num_bins Hbins) as HN.
  apply Rdiv_lt_0_compat; lra.
Qed.

(** The index reaches [k] exactly from the edge of bin [k] on. *)
Lemma real_index_UD_ge d k :
  (k <= real_index_UD depth_min depth_max num_bins d <->
   depth_min + k * ((depth_max - depth_min) / IZR num_bins) <= d)%R.
Proof using Hrange Hbins.
  unfold real_index_UD. rewrite Rdiv_ge_iff by apply bin_size_UD_pos.
  split; lra.
Qed.

Lemma real_index_LID_ge d k :
  (0 <= k)%R -> (0 <= 1 + 8 * (d - depth_min) / B)%R ->
  (k <= real_index_LID depth_min depth_max num_bins d <->
   depth_min + B * (k * (k + 1) / 2) <= d)%R.
Proof using Hrange Hbins.
  intros Hk Hrad.
  pose proof (spec_bin_size_LID_pos depth_min depth_max num_bins Hrange Hbins) as HB.
  fold B in HB. unfold real_index_LID.
  change (2 * (depth_max - depth_min) / (IZR num_bins * (IZR num_bins + 1)))%R with B.
  set (rad := (1 + 8 * (d - depth_min) / B)%R) in *.
  pose proof (sqrt_pos rad) as Hs0.
  pose proof (sqrt_sqrt rad Hrad) as Hss.
  assert (Hq : ((k * (k + 1) / 2) <= (d - depth_min) / B <->
                (k * (k + 1) / 2) * B <= d - depth_min)%R)
    by (apply Rdiv_ge_iff; assumption).
  assert (Erad : (rad = 1 + 8 * ((d - depth_min) / B))%R) by (unfold rad; lra).
  split; intros H.
  - assert (H1 : (2 * k + 1 <= sqrt rad)%R) by lra.
    assert (H2 : ((2 * k + 1) * (2 * k + 1) <= rad)%R) by (rewrite <- Hss; nra).
    assert (H3 : (k * (k + 1) / 2 <= (d - depth_min) / B)%R) by lra.
    apply Hq in H3. lra.
  - assert (H3 : (k * (k + 1) / 2 <= (d - depth_min) / B)%R) by (apply Hq; lra).
    assert (H2 : ((2 * k + 1) * (2 * k + 1) <= sqrt rad * sqrt rad)%R)
      by (rewrite Hss; lra).
    assert (H1 : (2 * k + 1 <= sqrt rad)%R) by nra.
    lra.
Qed.

Lemma real_index_SID_ge d k :
  (-1 < depth_min)%R -> (-1 < d)%R ->
  (k <= real_index_SID depth_min depth_max num_bins d <->
   exp (ln (1 + depth_min) + k * G / IZR num_bins) - 1 <= d)%R.
Proof using Hrange Hbins.
  intros Hmin Hd.
  pose proof (bins_ge_1 num_bins Hbins) as HN.
  pose proof (log_gap_pos depth_min depth_max Hrange Hmin) as HG. fold G in HG.
  unfold real_index_SID. fold G.
  rewrite Rdiv_ge_iff by assumption.
  assert (E : (1 + d = exp (ln (1 + d)))%R) by (rewrite exp_ln; lra).
  assert (Hq : (exp (ln (1 + depth_min) + k * G / IZR num_bins) - 1 <= d <->
                ln (1 + depth_min) + k * G / IZR num_bins <= ln (1 + d))%R).
  { rewrite <- (exp_le_iff (ln (1 + depth_min) + k * G / IZR num_bins) (ln (1 + d))).
    rewrite <- E. split; lra. }
  rewrite Hq.
  assert (Hd' : (k * G / IZR num_bins <= ln (1 + d) - ln (1 + depth_min) <->
                 k * G <= (ln (1 + d) - ln (1 + depth_min)) * IZR num_bins)%R)
    by (apply Rdiv_le_iff; lra).
  split; intros H.
  - assert (H' : (k * G / IZR num_bins <= ln (1 + d) - ln (1 + depth_min))%R)
      by (apply Hd'; lra).
    lra.
  - assert (H' : (k * G / IZR num_bins <= ln (1 + d) - ln (1 + depth_min))%R) by lra.
    apply Hd' in H'. lra.
Qed.

Lemma real_index_LID_mono a b :
  (0 <= 1 + 8 * (a - depth_min) / B)%R -> (a <= b)%R ->
  (real_index_LID depth_min depth_max num_bins a
   <= real_index_LID depth_min depth_max num_bins b)%R.
Proof using Hrange Hbins.
  intros Ha Hab.
  pose proof (spec_bin_size_LID_pos depth_min depth_max num_bins Hrange Hbins) as HB.
  fold B in HB. unfold real_index_LID.
  change (2 * (depth_max - depth_min) / (IZR num_bins * (IZR num_bins + 1)))%R with B.
  assert (Hi : (0 < / B)%R) by now apply Rinv_0_lt_compat.
  assert (H : (sqrt (1 + 8 * (a - depth_min) / B) <= sqrt (1 + 8 * (b - depth_min) / B))%R).
  { apply sqrt_le_1_alt. unfold Rdiv. nra. }
  lra.
Qed.

Lemma real_index_SID_mono a b :
  (-1 < depth_min)%R -> (-1 < a)%R -> (a <= b)%R ->
  (real_index_SID depth_min depth_max num_bins a
   <= real_index_SID depth_min depth_max num_bins b)%R.
Proof using Hrange Hbins.
  intros Hmin Ha Hab.
  pose proof (bins_ge_1 num_bins Hbins) as HN.
  pose proof (log_gap_pos depth_min depth_max Hrange Hmin) as HG. fold G in HG.
  unfold real_index_SID. fold G.
  assert (Hi : (0 < / G)%R) by now apply Rinv_0_lt_compat.
  assert (H : (ln (1 + a) <= ln (1 + b))%R) by (apply ln_le_mono; lra).
  unfold Rdiv. apply Rmult_le_compat_r; [lra|].
  apply Rmult_le_compat_l; lra.
Qed.

(** Below [depth_min], and on a depth that is not finite, the index is one
    the target branch replaces. *)
Lemma spec_index_UD_outside x :
  (forall d, x = Fin d -> (d < depth_min)%R) ->
  out_of_bounds num_bins (spec_index_UD depth_min depth_max num_bins x).
Proof using Hrange Hbins.
  intros Hx. destruct x as [d| | |].
  - rewrite spec_index_UD_real by assumption. simpl. left.
    specialize (Hx d eq_refl). apply Rnot_le_lt. intros C.
    apply (real_index_UD_ge d 0) in C. lra.
  - unfold spec_index_UD. simpl. destruct (Rltb _ _); exact I.
  - unfold spec_index_UD. simpl. destruct (Rltb _ _); exact I.
  - exact I.
Qed.

Lemma spec_index_LID_outside x :
  (forall d, x = Fin d -> (d < depth_min)%R) ->
  out_of_bounds num_bins (spec_index_LID depth_min depth_max num_bins x).
Proof using Hrange Hbins.
  intros Hx.
  pose proof (spec_bin_size_LID_pos depth_min depth_max num_bins Hrange Hbins) as HB.
  destruct x as [d| | |].
  - specialize (Hx d eq_refl).
    destruct (Rle_dec 0 (1 + 8 * (d - depth_min) / B)) as [Hrad|Hrad].
    + rewrite spec_index_LID_real by assumption. simpl. left.
      apply Rnot_le_lt. intros C.
      apply (real_index_LID_ge d 0) in C; [|lra|assumption]. lra.
    + unfold spec_index_LID. simpl. rewrite Reqb_false by lra. simpl.
      rewrite Rltb_true; [exact I|]. unfold B, Rminus in Hrad. lra.
  - unfold spec_index_LID. simpl. unfold inf_times.
    rewrite (Rltb_true 0 8) by lra. simpl.
    rewrite Rltb_false by lra. simpl.
    rewrite (Rltb_true 0 0.5) by lra. exact I.
  - unfold spec_index_LID. simpl. unfold inf_times.
    rewrite (Rltb_true 0 8) by lra. simpl.
    rewrite Rltb_false by lra. exact I.
  - exact I.
Qed.

Lemma spec_index_SID_outside x :
  (-1 < depth_min)%R ->
  (forall d, x = Fin d -> (d < depth_min)%R) ->
  out_of_bounds num_bins (spec_index_SID depth_min depth_max num_bins x).
Proof using Hrange Hbins.
  intros Hmin Hx.
  pose proof (bins_ge_1 num_bins Hbins) as HN.
  pose proof (log_gap_pos depth_min depth_max Hrange Hmin) as HG.
  destruct x as [d| | |].
  - specialize (Hx d eq_refl).
    destruct (Rlt_dec (-1) d) as [Hd|Hd].
    + rewrite spec_index_SID_real by assumption. simpl. left.
      apply Rnot_le_lt. intros C.
      apply (real_index_SID_ge d 0) in C; [|assumption|assumption].
      replace (ln (1 + depth_min) + 0 * G / IZR num_bins)%R with (ln (1 + depth_min)) in C
        by (unfold Rdiv; lra).
      rewrite exp_ln in C by lra. lra.
    + unfold spec_index_SID. simpl.
      destruct (Rlt_dec (1 + d) 0) as [Hneg|Hz].
      * rewrite Rltb_true by assumption. exact I.
      * rewrite Rltb_false by assumption. rewrite Reqb_true by lra. simpl.
        unfold inf_times. rewrite Rltb_true by lra. simpl.
        rewrite Rltb_false by lra. exact I.
  - unfold spec_index_SID. simpl. unfold inf_times.
    rewrite Rltb_true by lra. simpl. rewrite Rltb_false by lra. exact I.
  - exact I.
  - exact I.
Qed.

Lemma spec_index_outside mode x :
  supported mode -> (mode = "SID"%string -> (-1 < depth_min)%R) ->
  (forall d, x = Fin d -> (d < depth_min)%R) ->
  out_of_bounds num_bins (spec_index depth_min depth_max num_bins mode x).
Proof using Hrange Hbins.
  intros [-> | [-> | ->]] HSID Hx; unfold spec_index; simpl.
  - now apply spec_index_UD_outside.
  - now apply spec_index_LID_outside.
  - apply spec_index_SID_outside; auto.
Qed.

(** From [depth_min] on the index is a real number that is not negative,
    and it reaches the integer [k] exactly from the edge of bin [k] on. *)
Lemma spec_index_in_domain mode d :
  supported mode -> (mode = "SID"%string -> (-1 < depth_min)%R) ->
  (depth_min <= d)%R ->
  exists r,
    spec_index depth_min depth_max num_bins mode (Fin d) = Fin r /\ (0 <= r)%R /\
    forall k, (0 <= k)%Z ->
      (IZR k <= r <-> bin_edge mode depth_min depth_max num_bins k <= d)%R.
Proof using Hrange Hbins.
  intros Hm HSID Hd.
  pose proof (bins_ge_1 num_bins Hbins) as HN.
  pose proof (spec_bin_size_LID_pos depth_min depth_max num_bins Hrange Hbins) as HB.
  pose proof bin_size_UD_pos as HU.
  destruct Hm as [-> | [-> | ->]]; unfold spec_index, bin_edge; simpl.
  - rewrite spec_index_UD_real by assumption. eexists. split; [reflexivity|].
    split.
    + apply (real_index_UD_ge d 0). lra.
    + intros k _. apply real_index_UD_ge.
  - assert (Hrad : (0 <= 1 + 8 * (d - depth_min) / B)%R).
    { assert (0 <= 8 * (d - depth_min) / B)%R; [|lra].
      unfold Rdiv. apply Rmult_le_pos; [lra|]. left. now apply Rinv_0_lt_compat. }
    rewrite spec_index_LID_real by assumption. eexists. split; [reflexivity|].
    split.
    + apply (real_index_LID_ge d 0); [lra|assumption|]. lra.
    + intros k Hk. apply real_index_LID_ge; [|assumption].
      apply (IZR_le 0). exact Hk.
  - specialize (HSID eq_refl).
    rewrite spec_index_SID_real by (assumption || lra). eexists. split; [reflexivity|].
    split.
    + apply (real_index_SID_ge d 0); [assumption|lra|].
      replace (ln (1 + depth_min) + 0 * G / IZR num_bins)%R with (ln (1 + depth_min))
        by (unfold Rdiv; lra).
      rewrite exp_ln by lra. lra.
    + intros k _. apply real_index_SID_ge; [assumption|lra].
Qed.

Lemma spec_index_mono mode a b ra rb :
  supported mode -> (mode = "SID"%string -> (-1 < depth_min)%R) ->
  (depth_min <= a)%R -> (a <= b)%R ->
  spec_index depth_min depth_max num_bins mode (Fin a) = Fin ra ->
  spec_index depth_min depth_max num_bins mode (Fin b) = Fin rb ->
  (ra <= rb)%R.
Proof using Hrange Hbins.
  intros Hm HSID Ha Hab.
  pose proof (spec_bin_size_LID_pos depth_min depth_max num_bins Hrange Hbins) as HB.
  assert (Hrad : forall d, (depth_min <= d)%R -> (0 <= 1 + 8 * (d - depth_min) / B)%R).
  { intros d Hd. assert (0 <= 8 * (d - depth_min) / B)%R; [|lra].
    unfold Rdiv. apply Rmult_le_pos; [lra|]. left. now apply Rinv_0_lt_compat. }
  destruct Hm as [-> | [-> | ->]]; unfold spec_index; simpl.
  - rewrite !spec_index_UD_real by assumption. intros [= <-] [= <-].
    now apply real_index_UD_mono.
  - rewrite !spec_index_LID_real by (assumption || apply Hrad; lra).
    intros [= <-] [= <-]. apply real_index_LID_mono; [apply Hrad|]; assumption.
  - specialize (HSID eq_refl).
    rewrite !spec_index_SID_real by (assumption || lra).
    intros [= <-] [= <-]. apply real_index_SID_mono; (assumption || lra).
Qed.

Lemma bin_edge_first mode :
  supported mode -> (mode = "SID"%string -> (-1 < depth_min)%R) ->
  bin_edge mode depth_min depth_max num_bins 0 = depth_min.
Proof using Hrange Hbins.
  intros [-> | [-> | ->]] HSID; unfold bin_edge; simpl.
  - lra.
  - unfold Rdiv. lra.
  - specialize (HSID eq_refl).
    match goal with |- context [exp ?e] =>
      replace e with (ln (1 + depth_min)) by (unfold Rdiv; lra) end.
    rewrite exp_ln by lra. lra.
Qed.

Lemma bin_edge_last mode :
  supported mode -> (mode = "SID"%string -> (-1 < depth_min)%R) ->
  bin_edge mode depth_min depth_max num_bins num_bins = depth_max.
Proof using Hrange Hbins.
  pose proof (bins_ge_1 num_bins Hbins) as HN.
  intros [-> | [-> | ->]] HSID; unfold bin_edge; simpl.
  - field. lra.
  - field. split; lra.
  - specialize (HSID eq_refl).
    match goal with |- context [exp ?e] =>
      replace e with (ln (1 + depth_max)) by (field; lra) end.
    rewrite exp_ln by lra. lra.
Qed.

Lemma bin_edge_above_min mode k :
  supported mode -> (mode = "SID"%string -> (-1 < depth_min)%R) ->
  (0 <= k)%Z -> (depth_min <= bin_edge mode depth_min depth_max num_bins k)%R.
Proof using Hrange Hbins.
  intros Hm HSID Hk.
  pose proof (bins_ge_1 num_bins Hbins) as HN.
  pose proof (spec_bin_size_LID_pos depth_min depth_max num_bins Hrange Hbins) as HB.
  pose proof bin_size_UD_pos as HU.
  assert (Hk' : (0 <= IZR k)%R) by now apply (IZR_le 0).
  destruct Hm as [-> | [-> | ->]]; unfold bin_edge; simpl.
  - nra.
  - unfold spec_bin_size_LID in HB. nra.
  - specialize (HSID eq_refl).
    pose proof (log_gap_pos depth_min depth_max Hrange HSID) as HG.
    assert (H : (exp (ln (1 + depth_min)) <=
                 exp (ln (1 + depth_min) +
                      IZR k * (ln (1 + depth_max) - ln (1 + depth_min)) / IZR num_bins))%R).
    { apply exp_le_iff.
      assert (0 <= IZR k * (ln (1 + depth_max) - ln (1 + depth_min)) / IZR num_bins)%R;
        [|lra].
      unfold Rdiv. apply Rmult_le_pos; [nra|]. left. apply Rinv_0_lt_compat. lra. }
    rewrite exp_ln in H by lra. lra.
Qed.
End BinProfile.

(** ** [bin_depths]: both branches at once *)

Lemma bin_depths_both dm mode depth_min depth_max num_bins :
  supported mode -> prelude_ok mode depth_min depth_max num_bins ->
  exists t out,
    bin_depths dm mode depth_min depth_max num_bins false = Ok (FloatTensor t) /\
    bin_depths dm mode depth_min depth_max num_bins true = Ok (LongTensor out) /\
    dims t = dims dm /\ dims out = dims dm /\
    (forall idx, elt t idx = spec_index depth_min depth_max num_bins mode (elt dm idx)) /\
    (forall idx,
       elt out idx =
       to_int64 (if target_mask num_bins (elt t idx) then Fin (IZR num_bins)
                 else elt t idx)).
Proof.
  intros Hm Hp.
  destruct (bin_depths_returns dm mode depth_min depth_max num_bins false Hm Hp) as [res Hres].
  destruct (bin_depths_raw_inv _ _ _ _ _ _ Hres) as (_ & t & -> & Hd & Ht).
  pose proof (bin_depths_target_of_raw _ _ _ _ _ _ Hres) as Hout.
  destruct (bin_depths_target_entry _ _ _ _ _ _ _ Hres Hout) as [Hdo Hent].
  eexists t, _. split; [exact Hres|]. split; [exact Hout|].
  split; [exact Hd|]. split; [now rewrite Hdo|]. split; [exact Ht|exact Hent].
Qed.

Lemma prelude_ok_of_range mode depth_min depth_max num_bins :
  (depth_min < depth_max)%R -> (1 <= num_bins)%Z ->
  (mode = "SID"%string -> (-1 < depth_min)%R) ->
  prelude_ok mode depth_min depth_max num_bins.
Proof.
  intros Hr Hb HSID. split; [|split]; intros E; try lia; try nia.
  specialize (HSID E). lra.
Qed.

Lemma target_entry_masked num_bins x :
  out_of_bounds num_bins x ->
  to_int64 (if target_mask num_bins x then Fin (IZR num_bins) else x) = num_bins.
Proof. intros H. rewrite (target_mask_true _ _ H). simpl. apply Rtrunc_IZR. Qed.

Lemma target_entry_kept num_bins r :
  (0 <= r <= IZR num_bins)%R ->
  to_int64 (if target_mask num_bins (Fin r) then Fin (IZR num_bins) else Fin r) = Rtrunc r.
Proof. intros H. now rewrite (target_mask_false _ _ H). Qed.

(** ** [bin_depths]: when the call raises *)

Lemma bin_depths_outcome dm mode depth_min depth_max num_bins target :
  let res := bin_depths dm mode depth_min depth_max num_bins target in
  (mode = "UD"%string /\ num_bins = 0%Z /\ res = Err ZeroDivisionError) \/
  (mode = "UD"%string /\ num_bins <> 0%Z /\ exists out, res = Ok out) \/
  (mode = "LID"%string /\ (num_bins = 0%Z \/ num_bins = (-1)%Z) /\ res = Err ZeroDivisionError) \/
  (mode = "LID"%string /\ num_bins <> 0%Z /\ num_bins <> (-1)%Z /\ exists out, res = Ok out) \/
  (mode = "SID"%string /\ (depth_min <= -1 \/ depth_max <= -1)%R /\ res = Err ValueError) \/
  (mode = "SID"%string /\ (-1 < depth_min)%R /\ (-1 < depth_max)%R /\
   exists out, res = Ok out) \/
  (~ supported mode /\ res = Err NotImplementedError).
Proof.
  intros res. subst res.
  destruct (String.eqb_spec mode "UD") as [->|HUD];
    [|destruct (String.eqb_spec mode "LID") as [->|HLID];
      [|destruct (String.eqb_spec mode "SID") as [->|HSID]]].
  - destruct (Z.eq_dec num_bins 0%Z) as [->|Hn].
    + left. split; [reflexivity|]. split; [reflexivity|].
      unfold bin_depths, py_truediv. simpl. now rewrite Reqb_true.
    + right; left. split; [reflexivity|]. split; [assumption|].
      apply bin_depths_returns; [now left|].
      split; [auto|]. split; discriminate.
  - do 2 right. destruct (Z.eq_dec (num_bins * (1 + num_bins))%Z 0%Z) as [E|Hn].
    + left. split; [reflexivity|]. split; [nia|].
      unfold bin_depths, py_truediv. simpl. rewrite E. now rewrite Reqb_true.
    + right; left. split; [reflexivity|]. split; [nia|]. split; [nia|].
      apply bin_depths_returns; [right; now left|].
      split; [discriminate|]. split; [auto|discriminate].
  - do 4 right. destruct (Rlt_dec (-1) depth_min) as [H1|H1];
      [destruct (Rlt_dec (-1) depth_max) as [H2|H2]|].
    + right; left. split; [reflexivity|]. split; [assumption|]. split; [assumption|].
      apply bin_depths_returns; [right; now right|].
      split; [discriminate|]. split; [discriminate|auto].
    + left. split; [reflexivity|]. split; [lra|].
      unfold bin_depths. simpl. rewrite (math_log_ok (1 + depth_min)) by lra. simpl.
      now rewrite math_log_err by lra.
    + left. split; [reflexivity|]. split; [lra|].
      unfold bin_depths. simpl. now rewrite math_log_err by lra.
  - do 6 right.
    assert (Hm : ~ supported mode) by (intros [H | [H | H]]; contradiction).
    split; [exact Hm|]. now apply bin_depths_unsupported.
Qed.

(** ** [bin_depths]: an empty range of depths *)

Lemma fdiv_zero_nonfinite v : isfinite (fdiv v (Fin 0)) = false.
Proof.
  destruct v as [a| | |]; simpl; try reflexivity.
  - rewrite Reqb_true by reflexivity. unfold inf_times.
    destruct (Rltb 0 a); [reflexivity|]. destruct (Rltb a 0); reflexivity.
  - destruct (Rltb 0 0); reflexivity.
  - destruct (Rltb 0 0); reflexivity.
Qed.

Lemma nonfinite_out_of_bounds num_bins x : isfinite x = false -> out_of_bounds num_bins x.
Proof. destruct x; simpl; [discriminate|auto..]. Qed.

Lemma LID_tail_nonfinite v :
  isfinite v = false ->
  isfinite (fadd (Fin (-0.5)) (fmul (Fin 0.5) (fsqrt (fadd (Fin 1) v)))) = false.
Proof.
  destruct v as [a| | |]; simpl; try discriminate; intros _; try reflexivity.
  unfold inf_times. rewrite Rltb_true by lra. reflexivity.
Qed.

Lemma spec_index_empty_range mode d num_bins x :
  supported mode -> isfinite (spec_index d d num_bins mode x) = false.
Proof.
  intros [-> | [-> | ->]]; unfold spec_index; simpl.
  - unfold spec_index_UD, spec_bin_size_UD.
    replace ((d - d) / IZR num_bins)%R with 0%R by (unfold Rdiv; ring).
    apply fdiv_zero_nonfinite.
  - unfold spec_index_LID, spec_bin_size_LID.
    replace (2 * (d - d) / (IZR num_bins * (IZR num_bins + 1)))%R with 0%R
      by (unfold Rdiv; ring).
    apply LID_tail_nonfinite, fdiv_zero_nonfinite.
  - unfold spec_index_SID.
    replace (ln (1 + d) - ln (1 + d))%R with 0%R by ring.
    apply fdiv_zero_nonfinite.
Qed.

(** ** Row-major offsets *)

Lemma ravel_lt d idx : valid_index d idx -> (ravel d idx < numel d)%nat.
Proof.
  induction 1 as [|i x idx d Hix Hrest IH]; simpl; [lia|]. nia.
Qed.

Lemma unravel_ravel d idx : valid_index d idx -> unravel d (ravel d idx) = idx.
Proof.
  induction 1 as [|i x idx d Hix Hrest IH]; simpl; [reflexivity|].
  pose proof (ravel_lt d idx Hrest) as Hlt.
  assert (Hn : numel d <> 0%nat) by lia.
  rewrite Nat.div_add_l by exact Hn.
  rewrite (Nat.div_small _ _ Hlt), Nat.add_0_r.
  rewrite Nat.add_comm, Nat.Div0.mod_add, (Nat.mod_small _ _ Hlt).
  now rewrite IH.
Qed.

Lemma ravel_unravel d off : (off < numel d)%nat -> ravel d (unravel d off) = off.
Proof.
  revert off. induction d as [|x d IH]; intros off H; simpl in *; [lia|].
  assert (Hn : numel d <> 0%nat) by (intros E; rewrite E in H; lia).
  rewrite IH by (apply Nat.mod_upper_bound; exact Hn).
  rewrite (Nat.div_mod_eq off (numel d)) at 3. lia.
Qed.

Lemma unravel_valid d off : (off < numel d)%nat -> valid_index d (unravel d off).
Proof.
  revert off. induction d as [|x d IH]; intros off H; simpl in *; [constructor|].
  assert (Hn : numel d <> 0%nat) by (intros E; rewrite E in H; lia).
  constructor.
  - apply Nat.Div0.div_lt_upper_bound. lia.
  - apply IH. apply Nat.mod_upper_bound; exact Hn.
Qed.

Lemma ravel_app d1 d2 i j :
  valid_index d1 i -> ravel (d1 ++ d2) (i ++ j) = (ravel d1 i * numel d2 + ravel d2 j)%nat.
Proof.
  induction 1 as [|a x i d1 Hax Hrest IH]; simpl; [reflexivity|].
  rewrite IH, numel_app. ring.
Qed.

Lemma valid_index_app d1 d2 i j :
  valid_index d1 i -> valid_index d2 j -> valid_index (d1 ++ d2) (i ++ j).
Proof. apply List.Forall2_app. Qed.

Lemma valid_index_split d1 d2 idx :
  valid_index (d1 ++ d2) idx ->
  exists i j, idx = i ++ j /\ valid_index d1 i /\ valid_index d2 j.
Proof.
  intros H. apply Forall2_app_inv_r in H as (i & j & Hi & Hj & ->). eauto.
Qed.

Lemma fmul_comm x y : fmul x y = fmul y x.
Proof.
  destruct x as [a| | |], y as [b| | |]; simpl; try reflexivity.
  f_equal. ring.
Qed.

Lemma ravel3 b n k i r c :
  ravel [b; n; k] [i; r; c] = (i * (n * k) + r * k + c)%nat.
Proof. simpl. ring. Qed.

(** The offset of an index of shape (pb, n, k) with its batch axes
    flattened. *)
Lemma ravel_batch pb n k i r c :
  valid_index pb i ->
  ravel ((pb ++ [n]) ++ [k]) ((i ++ [r]) ++ [c]) = ravel [numel pb; n; k] [ravel pb i; r; c].
Proof.
  intros Hi. rewrite <- !app_assoc. rewrite ravel_app by exact Hi.
  simpl. ring.
Qed.

Lemma valid_flat pb n k i r c :
  valid_index pb i -> (r < n)%nat -> (c < k)%nat ->
  valid_index [numel pb; n; k] [ravel pb i; r; c].
Proof.
  intros Hi Hr Hc. repeat constructor; try assumption. now apply ravel_lt.
Qed.

Lemma valid_snoc2 pb n k i r c :
  valid_index pb i -> (r < n)%nat -> (c < k)%nat ->
  valid_index ((pb ++ [n]) ++ [k]) ((i ++ [r]) ++ [c]).
Proof.
  intros Hi Hr Hc. apply valid_index_app; [apply valid_index_app|]; try assumption;
    repeat constructor; assumption.
Qed.

Lemma unflatten_index pb n k i r c :
  valid_index pb i -> (r < n)%nat -> (c < k)%nat ->
  unravel [numel pb; n; k] (ravel ((pb ++ [n]) ++ [k]) ((i ++ [r]) ++ [c]))
  = [ravel pb i; r; c].
Proof.
  intros Hi Hr Hc. rewrite ravel_batch by exact Hi.
  apply unravel_ravel. now apply valid_flat.
Qed.

Lemma flatten_index pb n k i r c :
  valid_index pb i -> (r < n)%nat -> (c < k)%nat ->
  unravel ((pb ++ [n]) ++ [k]) (ravel [numel pb; n; k] [ravel pb i; r; c])
  = (i ++ [r]) ++ [c].
Proof.
  intros Hi Hr Hc. rewrite <- ravel_batch by exact Hi.
  apply unravel_ravel. now apply valid_snoc2.
Qed.

Lemma flatten_offset qb n k m r c :
  (m < numel qb)%nat -> (r < n)%nat -> (c < k)%nat ->
  unravel (qb ++ [n; k]) (ravel [numel qb; n; k] [m; r; c]) = unravel qb m ++ [r; c].
Proof.
  intros Hm Hr Hc.
  pose proof (unravel_valid qb m Hm) as Hv.
  rewrite <- (ravel_unravel qb m Hm) at 1.
  pose proof (flatten_index qb n k (unravel qb m) r c Hv Hr Hc) as H.
  rewrite <- !app_assoc in H. exact H.
Qed.

Lemma torch_bmm_shape a b ba n k m :
  dims a = [ba; n; k] -> dims b = [ba; k; m] ->
  torch_bmm a b
  = Ok (mkT [ba; n; m]
          (fun idx =>
             match idx with
             | [i; r; c] => dot k (fun l => elt a [i; r; l]) (fun l => elt b [i; l; c])
             | _ => NaN
             end)).
Proof.
  intros Ha Hb. unfold torch_bmm. rewrite Ha, Hb, !Nat.eqb_refl. reflexivity.
Qed.

Lemma reshape_shape {A} (t : tensor A) d :
  numel d = numel (dims t) ->
  reshape t d = Ok (mkT d (fun idx => elt t (unravel (dims t) (ravel d idx)))).
Proof. intros H. unfold reshape. now rewrite H, Nat.eqb_refl. Qed.

Lemma valid_index_snoc_inv d n i r :
  valid_index (d ++ [n]) (i ++ [r]) -> valid_index d i /\ (r < n)%nat.
Proof.
  unfold valid_index. intros H.
  assert (Hlen : length i = length d).
  { apply List.Forall2_length in H. rewrite !length_app in H. simpl in H. lia. }
  apply Forall2_app_inv in H; [|exact Hlen]. destruct H as [Hi Hr].
  split; [exact Hi|]. now inversion Hr.
Qed.

Lemma project_to_image_bmm_eval project points pb n qb :
  dims points = pb ++ [S n; 3%nat] -> dims project = qb ++ [3%nat; 4%nat] ->
  numel qb <> 0%nat -> Nat.divide (numel qb) (numel pb) ->
  match broadcast_shapes (pb ++ [S n]) qb with
  | None => project_to_image project points true = Err RuntimeError
  | Some ob =>
      exists img depth,
        project_to_image project points true = Ok (img, depth) /\
        dims img = (pb ++ [S n]) ++ [2%nat] /\ dims depth = ob /\
        (forall i r c,
           valid_index pb i -> (r < S n)%nat -> (c < 2)%nat ->
           let t := transformed project points (matrix_of_batch qb pb i) (i ++ [r]) in
           elt img ((i ++ [r]) ++ [c]) = fdiv (t c) (t 2%nat)) /\
        (forall idx i r,
           valid_index ob idx -> bproj (pb ++ [S n]) idx = i ++ [r] ->
           let t := transformed project points (matrix_of_batch qb pb i) (i ++ [r]) in
           elt depth idx = fsub (t 2%nat) (elt project (bproj qb idx ++ [2%nat; 3%nat])))
  end.
Proof.
  intros Hq Hp HM [z Hz]. unfold project_to_image.
  rewrite (convert_points_to_homogeneous_shape points (pb ++ [S n]) 3)
    by (rewrite Hq, <- app_assoc; reflexivity).
  cbn [rbind negb].
  set (hom := mkT ((pb ++ [S n]) ++ [4%nat]) _).
  rewrite (reshape_batch_shape hom pb (S n) 4) by (lia || shape_side). cbn [rbind].
  set (pts := mkT [numel pb; S n; 4%nat] _).
  rewrite (reshape_batch_shape project qb 3 4 Hp) by lia. cbn [rbind].
  set (prj := mkT [numel qb; 3%nat; 4%nat] _).
  change (permute021 prj)
    with (Ok (mkT [numel qb; 4%nat; 3%nat] (fun idx => elt prj (swap_axes12 idx)))).
  cbn [rbind]. set (prj' := mkT [numel qb; 4%nat; 3%nat] _).
  change (hd 0%nat (dims pts)) with (numel pb).
  change (hd 0%nat (dims prj')) with (numel qb).
  unfold py_floordiv. destruct (Nat.eqb_spec (numel qb) 0) as [|_]; [contradiction|].
  cbn [rbind].
  assert (Erep : (numel pb / numel qb)%nat = z) by (rewrite Hz; now apply Nat.div_mul).
  rewrite Erep.
  change (repeat_interleave0 prj' z)
    with (Ok (mkT [(numel qb * z)%nat; 4%nat; 3%nat]
                (fun idx =>
                   match idx with
                   | i :: irest => elt prj' ((i / z)%nat :: irest)
                   | [] => elt prj' []
                   end))).
  cbn [rbind]. set (prj'' := mkT [(numel qb * z)%nat; 4%nat; 3%nat] _).
  rewrite (torch_bmm_shape pts prj'' (numel pb) (S n) 4 3)
    by (reflexivity || (unfold prj''; cbn [dims]; now rewrite Hz, Nat.mul_comm)).
  cbn [rbind]. set (pt := mkT [numel pb; S n; 3%nat] _).
  change (dims hom) with ((pb ++ [S n]) ++ [4%nat]). rewrite removelast_last.
  rewrite (reshape_shape pt ((pb ++ [S n]) ++ [3%nat]))
    by (unfold pt; cbn [dims]; rewrite !numel_app; simpl; lia).
  cbn [rbind]. set (pt' := mkT ((pb ++ [S n]) ++ [3%nat]) _).
  rewrite (index_last_shape pt' (pb ++ [S n]) 2) by reflexivity. cbn [rbind].
  set (last := mkT (pb ++ [S n]) _).
  rewrite (index_2_3_shape project qb 3 4 Hp) by lia. cbn [rbind].
  set (offset := mkT qb _).
  destruct (broadcast_shapes (pb ++ [S n]) qb) as [ob|] eqn:Hb.
  2: { unfold broadcast2. change (dims last) with (pb ++ [S n]).
       change (dims offset) with qb. rewrite Hb. reflexivity. }
  rewrite (broadcast2_shape fsub last offset ob) by exact Hb. cbn [rbind fst snd].
  rewrite (convert_points_from_homogeneous_shape pt' (pb ++ [S n]) 2) by reflexivity.
  cbn [rbind].
  do 2 eexists. split; [reflexivity|]. split; [reflexivity|]. split; [reflexivity|].
  assert (Hpt' : forall i r c,
            valid_index pb i -> (r < S n)%nat -> (c < 3)%nat ->
            elt pt' ((i ++ [r]) ++ [c])
            = transformed project points (matrix_of_batch qb pb i) (i ++ [r]) c).
  { intros i r c Hi Hr Hc. unfold pt'. cbn [elt].
    change (dims pt) with [numel pb; S n; 3%nat].
    rewrite (unflatten_index pb (S n) 3 i r c Hi Hr Hc).
    unfold pt. cbn [elt]. rewrite dot_4.
    pose proof (ravel_lt pb i Hi) as Hlt.
    assert (Hm : (ravel pb i / z < numel qb)%nat)
      by (apply Nat.Div0.div_lt_upper_bound; lia).
    assert (Hpts : forall l, (l < 4)%nat ->
              elt pts [ravel pb i; r; l] = elt hom ((i ++ [r]) ++ [l])).
    { intros l Hl. unfold pts. cbn [elt].
      change (dims hom) with ((pb ++ [S n]) ++ [4%nat]).
      now rewrite (flatten_index pb (S n) 4 i r l Hi Hr Hl). }
    assert (Hprj : forall l, (l < 4)%nat ->
              elt prj'' [ravel pb i; l; c]
              = elt project (matrix_of_batch qb pb i ++ [c; l])).
    { intros l Hl. unfold prj'', prj', prj. cbn [elt swap_axes12].
      rewrite Hp, (flatten_offset qb 3 4 _ c l Hm Hc Hl).
      unfold matrix_of_batch. now rewrite Erep. }
    rewrite !Hpts, !Hprj by lia.
    unfold hom. cbn [elt]. rewrite !cols_app1. cbn [Nat.ltb Nat.leb].
    unfold transformed.
    now rewrite (fmul_comm (elt points _)), (fmul_comm (elt points _)),
      (fmul_comm (elt points _)), (fmul_comm (Fin 1)). }
  split.
  - intros i r c Hi Hr Hc. cbn [elt]. rewrite removelast_last.
    now rewrite !Hpt' by (assumption || lia).
  - intros idx i r Hv Ei. cbn [elt].
    change (dims last) with (pb ++ [S n]). change (dims offset) with qb.
    pose proof (bproj_operand_l _ _ _ _ Hb Hv) as Hop. rewrite Ei in Hop.
    apply valid_index_snoc_inv in Hop as [Hi Hr].
    unfold last, offset. cbn [elt]. rewrite Ei.
    now rewrite Hpt' by (assumption || lia).
Qed.

Lemma broadcast_shapes_nil_r a : broadcast_shapes a [] = Some a.
Proof.
  unfold broadcast_shapes. simpl. rewrite broadcast_rev_nil_r. simpl.
  now rewrite rev_involutive.
Qed.

(** ** [project_to_image]: the two paths side by side *)

Lemma broadcast_shapes_one_r d : d <> [] -> broadcast_shapes d [1%nat] = Some d.
Proof.
  intros Hd. unfold broadcast_shapes.
  destruct (rev d) as [|x r] eqn:E.
  - apply (f_equal (@rev nat)) in E. rewrite rev_involutive in E. contradiction.
  - simpl. rewrite broadcast_rev_nil_r.
    assert (Ex : (if Nat.eqb x 1 then Some (x :: r)
                  else if Nat.eqb x 1 then Some (1%nat :: r) else Some (x :: r))
                 = Some (x :: r)) by (destruct (Nat.eqb x 1); reflexivity).
    rewrite Ex. cbn [option_map]. rewrite <- E. now rewrite rev_involutive.
Qed.

Lemma broadcast_rev_ones_l k d :
  (k <= length d)%nat -> broadcast_rev (repeat 1%nat k) d = Some d.
Proof.
  revert d. induction k as [|k IH]; intros d Hk; [reflexivity|].
  destruct d as [|y d]; [simpl in Hk; lia|].
  cbn [broadcast_rev repeat]. rewrite IH by (simpl in Hk; lia).
  destruct (Nat.eqb_spec 1 y) as [<-|]; reflexivity.
Qed.

Lemma broadcast_shapes_ones_l d :
  (2 <= length d)%nat -> broadcast_shapes [1%nat; 1%nat] d = Some d.
Proof.
  intros Hd. unfold broadcast_shapes.
  change (rev [1%nat; 1%nat]) with (repeat 1%nat 2).
  rewrite broadcast_rev_ones_l by now rewrite length_rev.
  simpl. now rewrite rev_involutive.
Qed.

Lemma bproj_one idx : idx <> [] -> bproj [1%nat] idx = [0%nat].
Proof.
  intros H. unfold bproj. destruct (rev idx) as [|x r] eqn:E; [|reflexivity].
  apply (f_equal (@rev nat)) in E. rewrite rev_involutive in E. contradiction.
Qed.

Lemma bproj_ones idx : (2 <= length idx)%nat -> bproj [1%nat; 1%nat] idx = [0%nat; 0%nat].
Proof.
  intros H. unfold bproj.
  destruct (rev idx) as [|x [|y r]] eqn:E;
    try (apply (f_equal (@length nat)) in E; rewrite length_rev in E; simpl in E; lia).
  reflexivity.
Qed.

Lemma matrix_of_batch_one pb i : valid_index pb i -> matrix_of_batch [1%nat] pb i = [0%nat].
Proof.
  intros Hi. unfold matrix_of_batch. cbn [unravel numel fold_right].
  rewrite !Nat.mul_1_r, !Nat.div_1_r. now rewrite Nat.div_small by now apply ravel_lt.
Qed.

(** ** [project_to_image]: the translation column *)

Lemma depth_cancels a b c t x y z :
  fsub (fadd (fadd (fadd (fmul (Fin a) (Fin x)) (fmul (Fin b) (Fin y)))
                (fmul (Fin c) (Fin z)))
          (fmul (Fin t) (Fin 1)))
    (Fin t)
  = Fin (a * x + b * y + c * z).
Proof. simpl. f_equal. ring. Qed.

(** ** [normalize_coords]: any number of axes *)

Lemma bproj_last_in_range n i k : (k < n)%nat -> bproj [n] (i ++ [k]) = [k].
Proof.
  intros Hk. unfold bproj. rewrite rev_unit. cbn [rev bproj_rev app].
  destruct (Nat.eqb_spec n 1) as [->|_]; [|reflexivity].
  f_equal. lia.
Qed.

Lemma normalize_coords_axes coords shape bs n :
  dims coords = bs ++ [n] -> dims shape = [n] ->
  exists out,
    normalize_coords coords shape = Ok out /\ dims out = bs ++ [n] /\
    forall i k,
      valid_index (bs ++ [n]) (i ++ [k]) ->
      elt out (i ++ [k])
      = spec_normalize (elt coords (i ++ [k])) (elt shape [(n - 1 - k)%nat]).
Proof.
  intros Hc Hs. unfold normalize_coords, flip0. rewrite Hs. cbn [rbind].
  unfold broadcast2. cbn [dims sub_scalar tmap]. rewrite Hc, broadcast_shapes_last_axis.
  cbn [rbind].
  eexists. split; [reflexivity|]. split; [reflexivity|].
  intros i k Hv. cbn [elt add_scalar mul_scalar tmap dims].
  pose proof (valid_index_last _ _ _ _ Hv) as Hk.
  rewrite (bproj_valid _ _ Hv), (bproj_last_in_range n i k Hk).
  unfold spec_normalize, sub_scalar, fsub. cbn [fneg tmap elt].
  change (IZR (1 - -1)) with 2%R.
  replace (- (1))%R with (-1)%R by lra.
  reflexivity.
Qed.

(** ** The store: where the results live *)

Section Fresh.
Import Heap.
Variable s0 : store.

Ltac fresh_step :=
  first
    [ apply frames_map_float | apply frames_try_float | apply frames_try_float2
    | apply frames_map_mask | apply frames_map_bool | apply frames_zip_bool
    | apply frames_cast_int64 | apply frames_lift | apply frames_raise
    | apply frames_view
    | eapply frames_weaken; [apply frames_map_float|intros; exact I] ].

Ltac fresh_chain :=
  repeat (eapply frames_bind; [fresh_step|intros ? ?]).

(** What [bin_depths] returns lives in a buffer the call has allocated. *)
Lemma fresh_bin_depths depth_map mode depth_min depth_max num_bins target :
  frames s0 (bin_depths depth_map mode depth_min depth_max num_bins target)
    (fresh_for s0).
Proof.
  unfold bin_depths.
  eapply (frames_bind _ _ _ (fresh_for s0)).
  - destruct (String.eqb mode "UD"); [|destruct (String.eqb mode "LID");
      [|destruct (String.eqb mode "SID")]].
    + fresh_chain. apply frames_map_float.
    + fresh_chain. apply frames_map_float.
    + fresh_chain. apply frames_map_float.
    + apply frames_raise.
  - intros indices Hfresh. destruct target.
    + fresh_chain.
      eapply frames_bind; [now apply frames_index_put|]. intros _ _.
      apply frames_cast_int64.
    + now apply frames_ret.
Qed.

Lemma fresh_normalize_coords coords shape :
  frames s0 (normalize_coords coords shape) (fresh_for s0).
Proof. unfold normalize_coords. fresh_chain. apply frames_map_float. Qed.

Lemma fresh_project_to_image project points bmm :
  frames s0 (project_to_image project points bmm)
    (fun r => fresh_for s0 (fst r) /\ fresh_for s0 (snd r)).
Proof.
  unfold project_to_image.
  eapply frames_bind; [apply frames_try_float|]. intros hom _.
  eapply (frames_bind _ _ _ (fun r => fresh_for s0 (snd r))).
  - destruct bmm; cbn [negb]; cbv zeta; fresh_chain; apply frames_ret; assumption.
  - intros res Hres.
    eapply frames_bind; [apply frames_try_float|]. intros img Himg.
    now apply frames_ret.
Qed.
End Fresh.

Section Allocation.
Import Heap.

Lemma bind_inv {A B} (m : M A) (k : A -> M B) s b s' :
  bind m k s = (Ok b, s') -> exists a s1, m s = (Ok a, s1) /\ k a s1 = (Ok b, s').
Proof.
  unfold bind. destruct (m s) as [[a|e] s1]; [eauto|discriminate].
Qed.

(** What the last step of a chain guarantees, the chain guarantees. *)
Lemma last_step {A B} (m : M A) (k : A -> M B) (Q : B -> store -> Prop) :
  (forall a s b s', k a s = (Ok b, s') -> Q b s') ->
  forall s b s', bind m k s = (Ok b, s') -> Q b s'.
Proof.
  intros Hk s b s' H. apply bind_inv in H as (a & s1 & _ & H). eauto.
Qed.

Lemma read_float_store h s t s' : read_float h s = (Ok t, s') -> s' = s.
Proof.
  unfold read_float. destruct (s !! hloc h) as [[?|?|?]|]; now intros [= _ <-].
Qed.

Lemma alloc_inv b d s h s' :
  alloc b d s = (Ok h, s') -> s !! hloc h = None /\ is_Some (s' !! hloc h).
Proof.
  unfold alloc. intros [= <- <-]. cbn [hloc]. split.
  - apply not_elem_of_dom, is_fresh.
  - rewrite lookup_insert_eq. eauto.
Qed.

Lemma try_float_inv f h0 s h s' :
  try_float f h0 s = (Ok h, s') -> s !! hloc h = None /\ is_Some (s' !! hloc h).
Proof.
  unfold try_float. intros H.
  apply bind_inv in H as (t & s1 & Hr & H). apply read_float_store in Hr as ->.
  apply bind_inv in H as (r & s2 & Hl & H). unfold lift in Hl. injection Hl as _ <-.
  now apply alloc_inv in H.
Qed.

Lemma try_float2_inv f a b s h s' :
  try_float2 f a b s = (Ok h, s') -> s !! hloc h = None /\ is_Some (s' !! hloc h).
Proof.
  unfold try_float2. intros H.
  apply bind_inv in H as (x & s1 & Hr & H). apply read_float_store in Hr as ->.
  apply bind_inv in H as (y & s2 & Hr & H). apply read_float_store in Hr as ->.
  apply bind_inv in H as (r & s3 & Hl & H). unfold lift in Hl. injection Hl as _ <-.
  now apply alloc_inv in H.
Qed.

Lemma depth_allocated (x : handle) last offset s (res : handle * handle) s' :
  bind (try_float2 (broadcast2 fsub) last offset) (fun pd => ret (x, pd)) s = (Ok res, s') ->
  is_Some (s' !! hloc (snd res)).
Proof.
  intros H. apply bind_inv in H as (pd & s1 & Hpd & H).
  unfold ret in H. injection H as <- <-. now apply try_float2_inv in Hpd.
Qed.
End Allocation.

(** * Further properties of the code *)

(** ** [bin_depths] *)












(** ** [normalize_coords] *)

(** X7.  [normalize_coords] is not bound to three axes: for coordinates of
    shape (..., n) and a shape vector of [n] entries, whatever [n], it
    returns a tensor of the shape of the coordinates in which the coordinate
    at position [k] of the last axis is normalised with entry [n - 1 - k] of
    the shape vector, [(coord / (size - 1)) * 2 - 1]. *)
Theorem normalize_coords_any_axes coords shape bs n :
  dims coords = bs ++ [n] -> dims shape = [n] ->
  exists out,
    normalize_coords coords shape = Ok out /\ dims out = dims coords /\
    forall i k,
      valid_index (dims coords) (i ++ [k]) ->
      elt out (i ++ [k])
      = spec_normalize (elt coords (i ++ [k])) (elt shape [(n - 1 - k)%nat]).
Proof.
  intros Hc Hs.
  destruct (normalize_coords_axes coords shape bs n Hc Hs) as (out & H & Hd & Hent).
  exists out. split; [exact H|]. split; [now rewrite Hd, Hc|].
  intros i k Hv. rewrite Hc in Hv. now apply Hent.
Qed.

Lemma normalize_coords_any_axes_witness :
  exists out,
    normalize_coords (mkT [4%nat; 2%nat] (fun _ => Fin 0)) (mkT [2%nat] (fun _ => Fin 5))
    = Ok out /\
    dims out = [4%nat; 2%nat].
Proof.
  destruct (normalize_coords_any_axes (mkT [4%nat; 2%nat] (fun _ => Fin 0))
              (mkT [2%nat] (fun _ => Fin 5)) [4%nat] 2%nat eq_refl eq_refl)
    as (out & H & Hd & _).
  exists out. split; [exact H|exact Hd].
Defined.

(** X8.  For coordinates of shape (..., m) and a shape vector of [n]
    entries, [normalize_coords] returns exactly when the two extents
    broadcast, that is when [m = n], [m = 1] or [n = 1]; otherwise the
    division raises [RuntimeError]. *)
Theorem normalize_coords_shape_mismatch coords shape bs m n :
  dims coords = bs ++ [m] -> dims shape = [n] ->
  ((exists out, normalize_coords coords shape = Ok out) <->
   (m = n \/ m = 1%nat \/ n = 1%nat)) /\
  (m <> n -> m <> 1%nat -> n <> 1%nat ->
   normalize_coords coords shape = Err RuntimeError).
Proof.
  intros Hc Hs.
  assert (E : normalize_coords coords shape
              = if Nat.eqb m n || Nat.eqb m 1 || Nat.eqb n 1
                then normalize_coords coords shape else Err RuntimeError).
  { destruct (Nat.eqb m n || Nat.eqb m 1 || Nat.eqb n 1) eqn:Eb; [reflexivity|].
    apply orb_false_iff in Eb as [Eb E3]. apply orb_false_iff in Eb as [E1 E2].
    unfold normalize_coords, flip0. rewrite Hs. cbn [rbind].
    unfold broadcast2. cbn [dims sub_scalar tmap]. rewrite Hc.
    unfold broadcast_shapes. rewrite rev_unit. cbn [rev app broadcast_rev].
    rewrite broadcast_rev_nil_r, E1, E2, E3. reflexivity. }
  assert (Hok : m = n \/ m = 1%nat \/ n = 1%nat ->
                exists out, normalize_coords coords shape = Ok out).
  { intros Hcase. unfold normalize_coords, flip0. rewrite Hs. cbn [rbind].
    unfold broadcast2. cbn [dims sub_scalar tmap]. rewrite Hc.
    unfold broadcast_shapes. rewrite rev_unit. cbn [rev app broadcast_rev].
    rewrite broadcast_rev_nil_r.
    destruct (Nat.eqb_spec m n) as [|H1]; [eexists; reflexivity|].
    destruct (Nat.eqb_spec m 1) as [|H2]; [eexists; reflexivity|].
    destruct (Nat.eqb_spec n 1) as [|H3]; [eexists; reflexivity|].
    exfalso. destruct Hcase as [?|[?|?]]; contradiction. }
  split; [split; [|exact Hok]|].
  - intros [out Hout]. rewrite E in Hout.
    destruct (Nat.eqb_spec m n) as [|H1]; [now left|].
    destruct (Nat.eqb_spec m 1) as [|H2]; [right; now left|].
    destruct (Nat.eqb_spec n 1) as [|H3]; [right; now right|].
    discriminate.
  - intros H1 H2 H3. rewrite E.
    destruct (Nat.eqb_spec m n) as [|_]; [contradiction|].
    destruct (Nat.eqb_spec m 1) as [|_]; [contradiction|].
    destruct (Nat.eqb_spec n 1) as [|_]; [contradiction|]. reflexivity.
Qed.

Lemma normalize_coords_shape_mismatch_witness :
  2%nat <> 3%nat /\ 2%nat <> 1%nat /\ 3%nat <> 1%nat /\
  normalize_coords (mkT [4%nat; 2%nat] (fun _ => Fin 0)) (mkT [3%nat] (fun _ => Fin 5))
  = Err RuntimeError.
Proof.
  assert (H1 : 2%nat <> 3%nat) by discriminate.
  assert (H2 : 2%nat <> 1%nat) by discriminate.
  assert (H3 : 3%nat <> 1%nat) by discriminate.
  split; [exact H1|]. split; [exact H2|]. split; [exact H3|].
  destruct (normalize_coords_shape_mismatch (mkT [4%nat; 2%nat] (fun _ => Fin 0))
              (mkT [3%nat] (fun _ => Fin 5)) [4%nat] 2%nat 3%nat eq_refl eq_refl)
    as [_ H].
  exact (H H1 H2 H3).
Defined.

(** X9.  On an axis whose extent [s] is a finite number other than 1,
    [normalize_coords] maps a finite coordinate [x] to a finite [r] from
    which [x] is recovered as [(r + 1) / 2 * (s - 1)].  Where [s > 1], the
    coordinate lies in the range from 0 to [s - 1] exactly when [r] lies in
    the range from -1 to 1, the middle coordinate [(s - 1) / 2] maps to 0,
    and the order of the coordinates along the axis is kept. *)
Theorem normalize_coords_order coords shape bs n :
  dims coords = bs ++ [n] -> dims shape = [n] ->
  exists out,
    normalize_coords coords shape = Ok out /\
    forall i k s x,
      valid_index (dims coords) (i ++ [k]) ->
      elt shape [(n - 1 - k)%nat] = Fin s -> s <> 1%R ->
      elt coords (i ++ [k]) = Fin x ->
      exists r,
        elt out (i ++ [k]) = Fin r /\
        x = ((r + 1) / 2 * (s - 1))%R /\
        ((1 < s)%R ->
         ((0 <= x <= s - 1)%R <-> (-1 <= r <= 1)%R) /\
         (x = ((s - 1) / 2)%R -> r = 0%R) /\
         forall i' x',
           valid_index (dims coords) (i' ++ [k]) ->
           elt coords (i' ++ [k]) = Fin x' -> (x <= x')%R ->
           exists r', elt out (i' ++ [k]) = Fin r' /\ (r <= r')%R).
Proof.
  intros Hc Hs.
  destruct (normalize_coords_axes coords shape bs n Hc Hs) as (out & H & Hd & Hent).
  exists out. split; [exact H|].
  intros i k s x Hv Es Hs1 Ex. rewrite Hc in Hv.
  rewrite (Hent i k Hv), Es, Ex, spec_normalize_finite by assumption.
  eexists. split; [reflexivity|]. split; [field; lra|].
  intros Hgt.
  assert (Hpos : (0 < / (s - 1))%R) by (apply Rinv_0_lt_compat; lra).
  assert (Hinv : ((s - 1) * / (s - 1) = 1)%R) by (apply Rinv_r; lra).
  unfold Rdiv. split; [|split].
  - split; intros [H1 H2].
    + split; [nra|]. assert (x * / (s - 1) <= (s - 1) * / (s - 1))%R by nra. lra.
    + assert (H3 : (0 <= x * / (s - 1) <= 1)%R) by lra.
      split; [nra|]. assert (x * / (s - 1) * (s - 1) <= 1 * (s - 1))%R by nra.
      assert (x * / (s - 1) * (s - 1) = x)%R by (field; lra). lra.
  - intros ->. field. lra.
  - intros i' x' Hv' Ex' Hxx'. rewrite Hc in Hv'.
    rewrite (Hent i' k Hv'), Es, Ex', spec_normalize_finite by assumption.
    eexists. split; [reflexivity|]. unfold Rdiv. nra.
Qed.

Lemma normalize_coords_order_witness :
  exists out r,
    normalize_coords (mkT [3%nat] (fun _ => Fin 2)) (mkT [3%nat] (fun _ => Fin 5)) = Ok out /\
    elt out [0%nat] = Fin r /\ (2 = (r + 1) / 2 * (5 - 1))%R.
Proof.
  destruct (normalize_coords_order (mkT [3%nat] (fun _ => Fin 2))
              (mkT [3%nat] (fun _ => Fin 5)) [] 3%nat eq_refl eq_refl)
    as (out & H & Hent).
  destruct (Hent [] 0%nat 5%R 2%R) as (r & Er & Ex & _).
  - constructor; [lia|constructor].
  - reflexivity.
  - lra.
  - reflexivity.
  - exists out, r. split; [exact H|]. split; [exact Er|exact Ex].
Defined.

(** ** [project_to_image] *)

(** X10.  What the batched path computes.  For points of shape
    (pb, N, 3) with [N >= 1] and a projection of shape (qb, 3, 4) whose
    number of matrices is not 0 and divides the number of batches of points,
    such that (pb, N) broadcasts against qb: [project_to_image] with [bmm]
    set returns image points of shape (pb, N, 2) and depths of the broadcast
    shape.  The points of batch [i] are transformed by the matrix
    [matrix_of_batch qb pb i].  The image point is the first two coordinates
    of the transformed point, each divided by the third; the depth at an
    index of the broadcast shape is the third coordinate of the transformed
    point behind it minus entry [2, 3] of the matrix that broadcasting puts
    behind that index. *)
Theorem project_to_image_bmm_spec project points pb n qb ob :
  dims points = pb ++ [S n; 3%nat] -> dims project = qb ++ [3%nat; 4%nat] ->
  numel qb <> 0%nat -> Nat.divide (numel qb) (numel pb) ->
  broadcast_shapes (pb ++ [S n]) qb = Some ob ->
  exists img depth,
    project_to_image project points true = Ok (img, depth) /\
    dims img = pb ++ [S n; 2%nat] /\ dims depth = ob /\
    (forall i r c,
       valid_index pb i -> (r < S n)%nat -> (c < 2)%nat ->
       let t := transformed project points (matrix_of_batch qb pb i) (i ++ [r]) in
       elt img (i ++ [r; c]) = fdiv (t c) (t 2%nat)) /\
    (forall idx i r,
       valid_index ob idx -> bproj (pb ++ [S n]) idx = i ++ [r] ->
       let t := transformed project points (matrix_of_batch qb pb i) (i ++ [r]) in
       elt depth idx = fsub (t 2%nat) (elt project (bproj qb idx ++ [2%nat; 3%nat]))).
Proof.
  intros Hq Hp HM Hdiv Hb.
  pose proof (project_to_image_bmm_eval project points pb n qb Hq Hp HM Hdiv) as H.
  rewrite Hb in H. destruct H as (img & depth & H & Hi & Hd & Himg & Hdepth).
  exists img, depth. split; [exact H|].
  split; [now rewrite Hi, <- app_assoc|]. split; [exact Hd|]. split.
  - intros i r c Hv Hr Hc. cbv zeta.
    replace (i ++ [r; c]) with ((i ++ [r]) ++ [c]) by now rewrite <- app_assoc.
    now apply Himg.
  - exact Hdepth.
Qed.

Lemma project_to_image_bmm_spec_witness :
  Nat.divide (numel [2%nat]) (numel [2%nat]) /\
  broadcast_shapes ([2%nat] ++ [2%nat]) [2%nat] = Some [2%nat; 2%nat] /\
  exists img depth,
    project_to_image (eye_project [2%nat; 3%nat; 4%nat])
      (tmap Fin (const_points [2%nat; 2%nat; 3%nat] 1)) true = Ok (img, depth) /\
    dims img = [2%nat; 2%nat; 2%nat] /\ dims depth = [2%nat; 2%nat].
Proof.
  assert (Hdiv : Nat.divide (numel [2%nat]) (numel [2%nat])) by (exists 1%nat; reflexivity).
  assert (HM : numel [2%nat] <> 0%nat) by discriminate.
  split; [exact Hdiv|]. split; [reflexivity|].
  destruct (project_to_image_bmm_spec (eye_project [2%nat; 3%nat; 4%nat])
              (tmap Fin (const_points [2%nat; 2%nat; 3%nat] 1))
              [2%nat] 1%nat [2%nat] [2%nat; 2%nat] eq_refl eq_refl HM Hdiv eq_refl)
    as (img & depth & H & Hi & Hd & _).
  exists img, depth. split; [exact H|]. split; [exact Hi|exact Hd].
Defined.

(** X11.  With [bmm] set a single projection matrix of shape (3, 4),
    without a batch axis, is applied to every point: for points of shape
    (pb, N, 3) with [N >= 1] the call returns depths of shape (pb, N), the
    third coordinate of the transformed point minus entry [2, 3] of the
    matrix, and image points of shape (pb, N, 2), its first two coordinates
    divided by the third. *)
Theorem project_to_image_bmm_single_matrix project points pb n :
  dims points = pb ++ [S n; 3%nat] -> dims project = [3%nat; 4%nat] ->
  exists img depth,
    project_to_image project points true = Ok (img, depth) /\
    dims img = pb ++ [S n; 2%nat] /\ dims depth = pb ++ [S n] /\
    forall i r,
      valid_index pb i -> (r < S n)%nat ->
      let t := transformed project points [] (i ++ [r]) in
      elt depth (i ++ [r]) = fsub (t 2%nat) (elt project [2%nat; 3%nat]) /\
      elt img (i ++ [r; 0%nat]) = fdiv (t 0%nat) (t 2%nat) /\
      elt img (i ++ [r; 1%nat]) = fdiv (t 1%nat) (t 2%nat).
Proof.
  intros Hq Hp.
  assert (HM : numel [] <> 0%nat) by (simpl; lia).
  assert (Hdiv : Nat.divide (numel []) (numel pb)) by (exists (numel pb); simpl; lia).
  pose proof (project_to_image_bmm_eval project points pb n [] Hq Hp HM Hdiv) as H.
  rewrite broadcast_shapes_nil_r in H.
  destruct H as (img & depth & H & Hi & Hd & Himg & Hdepth).
  exists img, depth. split; [exact H|].
  split; [now rewrite Hi, <- app_assoc|]. split; [exact Hd|].
  intros i r Hv Hr. cbv zeta.
  assert (Hvr : valid_index (pb ++ [S n]) (i ++ [r])).
  { apply valid_index_app; [exact Hv|]. constructor; [exact Hr|constructor]. }
  split; [|split].
  - rewrite (Hdepth (i ++ [r]) i r Hvr (bproj_valid _ _ Hvr)). reflexivity.
  - replace (i ++ [r; 0%nat]) with ((i ++ [r]) ++ [0%nat]) by now rewrite <- app_assoc.
    rewrite (Himg i r 0%nat Hv Hr) by lia. reflexivity.
  - replace (i ++ [r; 1%nat]) with ((i ++ [r]) ++ [1%nat]) by now rewrite <- app_assoc.
    rewrite (Himg i r 1%nat Hv Hr) by lia. reflexivity.
Qed.

Lemma project_to_image_bmm_single_matrix_witness :
  exists img depth,
    project_to_image (eye_project [3%nat; 4%nat])
      (tmap Fin (const_points [5%nat; 3%nat] 2)) true = Ok (img, depth) /\
    dims depth = [5%nat] /\ elt depth [1%nat] = Fin 2.
Proof.
  destruct (project_to_image_bmm_single_matrix (eye_project [3%nat; 4%nat])
              (tmap Fin (const_points [5%nat; 3%nat] 2)) [] 4%nat eq_refl eq_refl)
    as (img & depth & H & _ & Hd & Hent).
  exists img, depth. split; [exact H|]. split; [exact Hd|].
  assert (Hv : valid_index [] []) by constructor.
  destruct (Hent [] 1%nat Hv) as [E _]; [lia|].
  cbv zeta in E. simpl in E. rewrite E. f_equal. lra.
Defined.

(** X12.  With [bmm] set, a call whose matrix products go through still
    raises [RuntimeError] when the shape (pb, N) of the third coordinates
    does not broadcast against the batch shape qb of the projection, which
    is subtracted from them.  One matrix per batch, shapes (B, 3, 4) and
    (B, N, 3) with [N] neither 1 nor [B], is such a call. *)
Theorem project_to_image_bmm_depth_shapes project points pb n qb :
  dims points = pb ++ [S n; 3%nat] -> dims project = qb ++ [3%nat; 4%nat] ->
  numel qb <> 0%nat -> Nat.divide (numel qb) (numel pb) ->
  broadcast_shapes (pb ++ [S n]) qb = None ->
  project_to_image project points true = Err RuntimeError.
Proof.
  intros Hq Hp HM Hdiv Hb.
  pose proof (project_to_image_bmm_eval project points pb n qb Hq Hp HM Hdiv) as H.
  now rewrite Hb in H.
Qed.

Lemma project_to_image_bmm_depth_shapes_witness :
  Nat.divide (numel [2%nat]) (numel [2%nat]) /\
  broadcast_shapes ([2%nat] ++ [5%nat]) [2%nat] = None /\
  project_to_image (eye_project [2%nat; 3%nat; 4%nat])
    (tmap Fin (const_points [2%nat; 5%nat; 3%nat] 1)) true = Err RuntimeError.
Proof.
  assert (Hdiv : Nat.divide (numel [2%nat]) (numel [2%nat])) by (exists 1%nat; reflexivity).
  assert (HM : numel [2%nat] <> 0%nat) by discriminate.
  split; [exact Hdiv|]. split; [reflexivity|].
  exact (project_to_image_bmm_depth_shapes (eye_project [2%nat; 3%nat; 4%nat])
           (tmap Fin (const_points [2%nat; 5%nat; 3%nat] 1))
           [2%nat] 4%nat [2%nat] eq_refl eq_refl HM Hdiv eq_refl).
Defined.

(** X13.  The two paths agree on one projection matrix with a batch axis of
    extent 1: for a projection of shape (1, 3, 4) and points of shape
    (b, ..., N, 3) with [N >= 1], the calls with and without [bmm] both
    return, tensors of the same shapes with the same entries. *)
Theorem project_to_image_bmm_agrees project points b pb n :
  dims project = [1%nat; 3%nat; 4%nat] -> dims points = (b :: pb) ++ [S n; 3%nat] ->
  exists img depth img' depth',
    project_to_image project points true = Ok (img, depth) /\
    project_to_image project points false = Ok (img', depth') /\
    dims img = dims img' /\ dims depth = dims depth' /\
    (forall idx, valid_index (dims depth) idx -> elt depth idx = elt depth' idx) /\
    (forall idx, valid_index (dims img) idx -> elt img idx = elt img' idx).
Proof.
  intros Hp Hq.
  assert (Hne : (b :: pb) ++ [S n] <> []) by discriminate.
  assert (HM : numel [1%nat] <> 0%nat) by (simpl; lia).
  assert (Hdiv : Nat.divide (numel [1%nat]) (numel (b :: pb)))
    by (exists (numel (b :: pb)); simpl; lia).
  pose proof (project_to_image_bmm_eval project points (b :: pb) n [1%nat] Hq Hp HM Hdiv)
    as H.
  rewrite (broadcast_shapes_one_r _ Hne) in H.
  destruct H as (img & depth & H & Hi & Hd & Himg & Hdepth).
  assert (Hq' : dims points = ((b :: pb) ++ [S n]) ++ [3%nat])
    by (rewrite Hq, <- app_assoc; reflexivity).
  assert (Hlen : (2 <= length ((b :: pb) ++ [S n]))%nat)
    by (rewrite length_app; simpl; lia).
  destruct (project_to_image_broadcast project points 1%nat [] ((b :: pb) ++ [S n])
              ((b :: pb) ++ [S n]) Hp Hq' (broadcast_shapes_ones_l _ Hlen))
    as (img' & depth' & H' & Hd' & Hi' & Hent).
  exists img, depth, img', depth'. split; [exact H|]. split; [exact H'|].
  split; [now rewrite Hi, Hi'|]. split; [now rewrite Hd, Hd'|].
  assert (Hsame : forall i r,
            valid_index (b :: pb) i -> (r < S n)%nat ->
            valid_index ((b :: pb) ++ [S n]) (i ++ [r]) /\
            matrix_of_batch [1%nat] (b :: pb) i = [0%nat] /\
            drop_axis1 (bproj [1%nat; 1%nat] (i ++ [r])) = [0%nat] /\
            bproj [1%nat] (i ++ [r]) = [0%nat]).
  { intros i r Hv Hr.
    assert (Hvr : valid_index ((b :: pb) ++ [S n]) (i ++ [r])).
    { apply valid_index_app; [exact Hv|]. constructor; [exact Hr|constructor]. }
    split; [exact Hvr|]. split; [now apply matrix_of_batch_one|]. split.
    - rewrite bproj_ones; [reflexivity|].
      apply List.Forall2_length in Hvr. rewrite Hvr. exact Hlen.
    - apply bproj_one. now destruct i. }
  split.
  - intros idx Hv. rewrite Hd in Hv.
    destruct (valid_index_split _ _ _ Hv) as (i & j & -> & Hvi & Hvj).
    inversion Hvj as [|r m j' d' Hr Hnil]; subst. inversion Hnil; subst.
    destruct (Hsame i r Hvi Hr) as (Hvr & Em & Ep & Eb).
    rewrite (Hdepth (i ++ [r]) i r Hvr (bproj_valid _ _ Hvr)).
    destruct (Hent (i ++ [r]) Hvr) as (Edepth & _). cbv zeta in Edepth.
    rewrite Edepth, Em, Ep, Eb, (bproj_valid _ _ Hvr). reflexivity.
  - intros idx Hv. rewrite Hi in Hv.
    destruct (valid_index_split _ _ _ Hv) as (ir & j & -> & Hvir & Hvj).
    destruct (valid_index_split _ _ _ Hvir) as (i & j' & -> & Hvi & Hvj').
    inversion Hvj' as [|r m j0 d0 Hr Hnil]; subst. inversion Hnil; subst.
    inversion Hvj as [|c m j1 d1 Hc Hnil']; subst. inversion Hnil'; subst.
    destruct (Hsame i r Hvi Hr) as (Hvr & Em & Ep & Eb).
    rewrite (Himg i r c Hvi Hr Hc). cbv zeta. rewrite Em.
    destruct (Hent (i ++ [r]) Hvr) as (_ & E0 & E1). cbv zeta in E0, E1.
    rewrite Ep, (bproj_valid _ _ Hvr) in E0, E1.
    destruct c as [|[|c]]; [now rewrite E0|now rewrite E1|lia].
Qed.

Lemma project_to_image_bmm_agrees_witness :
  exists img depth img' depth',
    project_to_image (eye_project [1%nat; 3%nat; 4%nat])
      (tmap Fin (const_points [2%nat; 5%nat; 3%nat] 1)) true = Ok (img, depth) /\
    project_to_image (eye_project [1%nat; 3%nat; 4%nat])
      (tmap Fin (const_points [2%nat; 5%nat; 3%nat] 1)) false = Ok (img', depth') /\
    elt depth [1%nat; 3%nat] = elt depth' [1%nat; 3%nat].
Proof.
  destruct (project_to_image_bmm_agrees (eye_project [1%nat; 3%nat; 4%nat])
              (tmap Fin (const_points [2%nat; 5%nat; 3%nat] 1))
              2%nat [] 4%nat eq_refl eq_refl)
    as (img & depth & img' & depth' & H & H' & _ & Hd & Hent & _).
  exists img, depth, img', depth'. split; [exact H|]. split; [exact H'|].
  apply Hent.
  destruct (project_to_image_bmm_eval (eye_project [1%nat; 3%nat; 4%nat])
              (tmap Fin (const_points [2%nat; 5%nat; 3%nat] 1))
              [2%nat] 4%nat [1%nat] eq_refl eq_refl) as (i0 & d0 & H0 & _ & Hd0 & _).
  { discriminate. }
  { exists 2%nat. reflexivity. }
  rewrite H in H0. injection H0 as _ <-. rewrite Hd0.
  constructor; [lia|]. constructor; [lia|]. constructor.
Defined.

(** X14.  The two paths disagree on one matrix per batch.  For a projection
    of shape (B, 3, 4) and points of shape (B, B, 3) with [B >= 2] both calls
    return, and both transform point [j] of batch [i] by matrix [i]; but the
    depth at [i, j] is the third coordinate minus entry [2, 3] of matrix [j]
    with [bmm] set, and minus entry [2, 3] of matrix [i] without. *)
Theorem project_to_image_bmm_pairing project points n :
  dims project = [S (S n); 3%nat; 4%nat] ->
  dims points = [S (S n); S (S n); 3%nat] ->
  exists img depth img' depth',
    project_to_image project points true = Ok (img, depth) /\
    project_to_image project points false = Ok (img', depth') /\
    forall i j,
      (i < S (S n))%nat -> (j < S (S n))%nat ->
      let t := transformed project points [i] [i; j] in
      elt depth [i; j] = fsub (t 2%nat) (elt project [j; 2%nat; 3%nat]) /\
      elt depth' [i; j] = fsub (t 2%nat) (elt project [i; 2%nat; 3%nat]).
Proof.
  intros Hp Hq. set (B := S (S n)) in *.
  assert (HB : B <> 1%nat) by (unfold B; lia).
  assert (HM : numel [B] <> 0%nat) by (unfold B; simpl; lia).
  assert (Hdiv : Nat.divide (numel [B]) (numel [B])) by (exists 1%nat; lia).
  pose proof (project_to_image_bmm_eval project points [B] (S n) [B] Hq Hp HM Hdiv) as H.
  assert (Hb : broadcast_shapes ([B] ++ [S (S n)]) [B] = Some [B; B]).
  { unfold broadcast_shapes. cbn [app rev broadcast_rev]. fold B.
    now rewrite Nat.eqb_refl. }
  rewrite Hb in H. destruct H as (img & depth & H & _ & _ & _ & Hdepth).
  assert (Hb' : broadcast_shapes [B; 1%nat] [B; B] = Some [B; B]).
  { unfold broadcast_shapes. cbn [app rev broadcast_rev].
    destruct (Nat.eqb_spec 1 B) as [E|_]; [now elim HB|].
    now rewrite !Nat.eqb_refl. }
  destruct (project_to_image_broadcast project points B [] [B; B] [B; B] Hp Hq Hb')
    as (img' & depth' & H' & _ & _ & Hent).
  exists img, depth, img', depth'. split; [exact H|]. split; [exact H'|].
  intros i j Hi Hj. cbv zeta.
  assert (Hv : valid_index [B; B] [i; j])
    by (constructor; [exact Hi|constructor; [exact Hj|constructor]]).
  assert (Em : matrix_of_batch [B] [B] [i] = [i]).
  { unfold matrix_of_batch. cbn [unravel ravel numel fold_right].
    rewrite !Nat.mul_1_r, Nat.add_0_r, Nat.div_same, !Nat.div_1_r by (unfold B; lia).
    reflexivity. }
  split.
  - rewrite (Hdepth [i; j] [i] j Hv (bproj_valid _ _ Hv)). cbv zeta.
    rewrite Em. change (bproj [B] [i; j]) with (bproj [B] ([i] ++ [j])).
    now rewrite (bproj_last_axis B [i] j HB).
  - destruct (Hent [i; j] Hv) as [E _]. cbv zeta in E.
    rewrite E, (bproj_valid _ _ Hv).
    assert (Ep : drop_axis1 (bproj [B; 1%nat] [i; j]) = [i]).
    { unfold bproj. cbn [rev app bproj_rev drop_axis1 Nat.eqb].
      destruct (Nat.eqb_spec B 1) as [E'|_]; [now elim HB|]. reflexivity. }
    now rewrite Ep.
Qed.

Lemma project_to_image_bmm_pairing_witness :
  exists img depth img' depth',
    project_to_image (eye_project [2%nat; 3%nat; 4%nat])
      (tmap Fin (const_points [2%nat; 2%nat; 3%nat] 1)) true = Ok (img, depth) /\
    project_to_image (eye_project [2%nat; 3%nat; 4%nat])
      (tmap Fin (const_points [2%nat; 2%nat; 3%nat] 1)) false = Ok (img', depth') /\
    elt depth [0%nat; 1%nat]
    = fsub (transformed (eye_project [2%nat; 3%nat; 4%nat])
              (tmap Fin (const_points [2%nat; 2%nat; 3%nat] 1)) [0%nat] [0%nat; 1%nat] 2%nat)
        (elt (eye_project [2%nat; 3%nat; 4%nat]) [1%nat; 2%nat; 3%nat]).
Proof.
  destruct (project_to_image_bmm_pairing (eye_project [2%nat; 3%nat; 4%nat])
              (tmap Fin (const_points [2%nat; 2%nat; 3%nat] 1)) 0%nat eq_refl eq_refl)
    as (img & depth & img' & depth' & H & H' & Hent).
  exists img, depth, img', depth'. split; [exact H|]. split; [exact H'|].
  destruct (Hent 0%nat 1%nat) as [E _]; [lia|lia|]. exact E.
Defined.

(** X15.  Without [bmm], the depth does not depend on the translation
    column: where the third row (a, b, c, t) of the matrix and the point
    (x, y, z) are finite, the depth is [a * x + b * y + c * z], the entry
    [t] that the product adds being the one subtracted again. *)
Theorem project_to_image_depth_without_translation project points b0 bs p0 pb ob :
  dims project = b0 :: bs ++ [3%nat; 4%nat] ->
  dims points = (p0 :: pb) ++ [3%nat] ->
  broadcast_shapes (b0 :: 1%nat :: bs) (p0 :: pb) = Some ob ->
  exists img depth,
    project_to_image project points false = Ok (img, depth) /\
    dims depth = ob /\
    forall idx a b c t x y z,
      valid_index ob idx ->
      let pidx := drop_axis1 (bproj (b0 :: 1%nat :: bs) idx) in
      let qidx := bproj (p0 :: pb) idx in
      elt project (pidx ++ [2%nat; 0%nat]) = Fin a ->
      elt project (pidx ++ [2%nat; 1%nat]) = Fin b ->
      elt project (pidx ++ [2%nat; 2%nat]) = Fin c ->
      elt project (pidx ++ [2%nat; 3%nat]) = Fin t ->
      elt points (qidx ++ [0%nat]) = Fin x ->
      elt points (qidx ++ [1%nat]) = Fin y ->
      elt points (qidx ++ [2%nat]) = Fin z ->
      elt depth idx = Fin (a * x + b * y + c * z).
Proof.
  intros Hp Hq Hb.
  destruct (project_to_image_broadcast project points b0 bs (p0 :: pb) ob Hp Hq Hb)
    as (img & depth & H & Hd & _ & Hent).
  exists img, depth. split; [exact H|]. split; [exact Hd|].
  intros idx a b c t x y z Hv. cbv zeta. intros Ea Eb Ec Et Ex Ey Ez.
  destruct (Hent idx Hv) as [E _]. cbv zeta in E. rewrite E.
  unfold transformed. rewrite Ea, Eb, Ec, Et, Ex, Ey, Ez.
  apply depth_cancels.
Qed.

Lemma project_to_image_depth_without_translation_witness :
  broadcast_shapes [2%nat; 1%nat] [2%nat; 5%nat] = Some [2%nat; 5%nat] /\
  exists img depth,
    project_to_image (eye_project [2%nat; 3%nat; 4%nat])
      (tmap Fin (const_points [2%nat; 5%nat; 3%nat] 4)) false = Ok (img, depth) /\
    elt depth [1%nat; 3%nat] = Fin (0 * 4 + 0 * 4 + 1 * 4).
Proof.
  split; [reflexivity|].
  destruct (project_to_image_depth_without_translation (eye_project [2%nat; 3%nat; 4%nat])
              (tmap Fin (const_points [2%nat; 5%nat; 3%nat] 4))
              2%nat [] 2%nat [5%nat] [2%nat; 5%nat] eq_refl eq_refl eq_refl)
    as (img & depth & H & _ & Hent).
  exists img, depth. split; [exact H|].
  apply (Hent [1%nat; 3%nat] 0%R 0%R 1%R 0%R 4%R 4%R 4%R);
    [constructor; [lia|constructor; [lia|constructor]]|reflexivity..].
Defined.

(** X16.  Without [bmm], points whose last axis has an extent other than 3
    are refused: with a projection of shape (b0, ..., 3, 4) the matrix
    product raises [RuntimeError]. *)
Theorem project_to_image_wrong_point_axis project points b0 bs p0 pb m :
  dims project = b0 :: bs ++ [3%nat; 4%nat] ->
  dims points = (p0 :: pb) ++ [m] -> m <> 3%nat ->
  project_to_image project points false = Err RuntimeError.
Proof.
  intros Hp Hq Hm. unfold project_to_image.
  rewrite (convert_points_to_homogeneous_shape points (p0 :: pb) m Hq). cbn [rbind negb].
  rewrite (unsqueeze1_shape project b0 (bs ++ [3%nat; 4%nat]) Hp). cbn [rbind].
  unfold matmul. cbn [dims unsqueeze_last].
  replace (b0 :: 1%nat :: bs ++ [3%nat; 4%nat]) with ((b0 :: 1%nat :: bs) ++ [3%nat; 4%nat])
    by reflexivity.
  replace (((p0 :: pb) ++ [S m]) ++ [1%nat]) with ((p0 :: pb) ++ [S m; 1%nat])
    by (rewrite <- app_assoc; reflexivity).
  rewrite !length_app2_ltb, cols_app2, rows_app2. cbn [orb].
  destruct (Nat.eqb_spec 4 (S m)) as [E|_]; [lia|]. reflexivity.
Qed.

Lemma project_to_image_wrong_point_axis_witness :
  2%nat <> 3%nat /\
  project_to_image (eye_project [2%nat; 3%nat; 4%nat])
    (tmap Fin (const_points [2%nat; 5%nat; 2%nat] 1)) false = Err RuntimeError.
Proof.
  assert (Hm : 2%nat <> 3%nat) by discriminate.
  split; [exact Hm|].
  exact (project_to_image_wrong_point_axis (eye_project [2%nat; 3%nat; 4%nat])
           (tmap Fin (const_points [2%nat; 5%nat; 2%nat] 1))
           2%nat [] 2%nat [5%nat] 2%nat eq_refl eq_refl Hm).
Defined.

(** X17.  Without [bmm], a projection of shape (3, 4), without a batch
    axis, is never applied: [unsqueeze(dim=1)] makes it three matrices of
    shape (1, 4), and the call raises [RuntimeError] when the batch axes of
    the points do not broadcast against (3), and [IndexError], at entry
    [2, 3] of a matrix of one row, when they do. *)
Theorem project_to_image_unbatched_matrix project points p0 pb :
  dims project = [3%nat; 4%nat] -> dims points = (p0 :: pb) ++ [3%nat] ->
  project_to_image project points false
  = Err (match broadcast_shapes [3%nat] (p0 :: pb) with
         | None => RuntimeError
         | Some _ => IndexError
         end).
Proof.
  intros Hp Hq. unfold project_to_image.
  rewrite (convert_points_to_homogeneous_shape points (p0 :: pb) 3 Hq). cbn [rbind negb].
  rewrite (unsqueeze1_shape project 3 [4%nat] Hp). cbn [rbind].
  destruct (broadcast_shapes [3%nat] (p0 :: pb)) as [bd|] eqn:Hb.
  - rewrite (matmul_shape _ _ [3%nat] (p0 :: pb) bd 1 4 1)
      by (exact Hb || reflexivity || shape_side).
    cbn [rbind].
    rewrite (squeeze_last_shape _ (bd ++ [1%nat])) by shape_side.
    rewrite (index_last_shape _ bd 0) by reflexivity. cbn [rbind].
    reflexivity.
  - unfold matmul. cbn [dims unsqueeze_last].
    replace (((p0 :: pb) ++ [4%nat]) ++ [1%nat]) with ((p0 :: pb) ++ [4%nat; 1%nat])
      by (rewrite <- app_assoc; reflexivity).
    change [3%nat; 1%nat; 4%nat] with ([3%nat] ++ [1%nat; 4%nat]).
    rewrite !length_app2_ltb, !cols_app2, !rows_app2, !batch_dims_app2.
    cbn [orb Nat.eqb negb]. now rewrite Hb.
Qed.

Lemma project_to_image_unbatched_matrix_witness :
  project_to_image (eye_project [3%nat; 4%nat])
    (tmap Fin (const_points [3%nat; 3%nat] 1)) false = Err IndexError.
Proof.
  exact (project_to_image_unbatched_matrix (eye_project [3%nat; 4%nat])
           (tmap Fin (const_points [3%nat; 3%nat] 1)) 3%nat [] eq_refl eq_refl).
Defined.

(** X18.  An empty axis of points.  For points of shape (pb, 0, 3) the call
    with [bmm] set raises [RuntimeError] whatever the projection:
    [reshape(-1, 0, 4)] has no batch count to infer.  Without [bmm] such
    points are accepted: with a projection of shape (b0, ..., 3, 4) whose
    batch axes, with the axis of extent 1 inserted at position 1, broadcast
    against (pb, 0), the call returns tensors of the broadcast shape. *)
Theorem project_to_image_no_points project points pb :
  dims points = pb ++ [0%nat; 3%nat] ->
  project_to_image project points true = Err RuntimeError /\
  forall b0 bs ob,
    dims project = b0 :: bs ++ [3%nat; 4%nat] ->
    broadcast_shapes (b0 :: 1%nat :: bs) (pb ++ [0%nat]) = Some ob ->
    exists img depth,
      project_to_image project points false = Ok (img, depth) /\
      dims depth = ob /\ dims img = ob ++ [2%nat].
Proof.
  intros Hq. split.
  - unfold project_to_image.
    rewrite (convert_points_to_homogeneous_shape points (pb ++ [0%nat]) 3)
      by (rewrite Hq, <- app_assoc; reflexivity).
    cbn [rbind negb]. unfold reshape_batch. cbn [dims].
    replace ((pb ++ [0%nat]) ++ [4%nat]) with (pb ++ [0%nat; 4%nat])
      by (rewrite <- app_assoc; reflexivity).
    rewrite length_app2_ltb, rows_app2, cols_app2. reflexivity.
  - intros b0 bs ob Hp Hb.
    assert (Hq' : dims points = (pb ++ [0%nat]) ++ [3%nat])
      by (rewrite Hq, <- app_assoc; reflexivity).
    destruct (project_to_image_broadcast project points b0 bs (pb ++ [0%nat]) ob Hp Hq' Hb)
      as (img & depth & H & Hd & Hi & _).
    exists img, depth. split; [exact H|]. split; [exact Hd|exact Hi].
Qed.

Lemma project_to_image_no_points_witness :
  project_to_image (eye_project [2%nat; 3%nat; 4%nat])
    (tmap Fin (const_points [2%nat; 0%nat; 3%nat] 1)) true = Err RuntimeError /\
  exists img depth,
    project_to_image (eye_project [2%nat; 3%nat; 4%nat])
      (tmap Fin (const_points [2%nat; 0%nat; 3%nat] 1)) false = Ok (img, depth) /\
    dims depth = [2%nat; 0%nat].
Proof.
  destruct (project_to_image_no_points (eye_project [2%nat; 3%nat; 4%nat])
              (tmap Fin (const_points [2%nat; 0%nat; 3%nat] 1)) [2%nat] eq_refl)
    as [Hbmm Hplain].
  split; [exact Hbmm|].
  destruct (Hplain 2%nat [] [2%nat; 0%nat] eq_refl eq_refl) as (img & depth & H & Hd & _).
  exists img, depth. split; [exact H|exact Hd].
Defined.

(** ** The store *)

(** X19.  No function of the module returns one of its arguments or a view
    of one: the tensors [project_to_image], [normalize_coords] and
    [bin_depths] return live in buffers that the store did not hold before
    the call, and the two tensors [project_to_image] returns live in two
    different buffers. *)
Theorem results_in_new_buffers :
  (forall project points bmm (s : Heap.store) img depth s',
     Heap.project_to_image project points bmm s = (Ok (img, depth), s') ->
     s !! Heap.hloc img = None /\ s !! Heap.hloc depth = None /\
     Heap.hloc img <> Heap.hloc depth) /\
  (forall coords shape (s : Heap.store) out s',
     Heap.normalize_coords coords shape s = (Ok out, s') ->
     s !! Heap.hloc out = None) /\
  (forall depth_map mode depth_min depth_max num_bins target (s : Heap.store) out s',
     Heap.bin_depths depth_map mode depth_min depth_max num_bins target s = (Ok out, s') ->
     s !! Heap.hloc out = None).
Proof.
  split; [|split].
  - intros project points bmm s img depth s' H.
    destruct (fresh_project_to_image s project points bmm s (reflexivity s)) as [_ Hf].
    rewrite H in Hf. destruct (Hf _ eq_refl) as [Himg Hdepth].
    split; [exact Himg|]. split; [exact Hdepth|].
    unfold Heap.project_to_image in H.
    apply bind_inv in H as (hom & s1 & _ & H).
    apply bind_inv in H as (res & s2 & Hres & H).
    apply bind_inv in H as (img0 & s3 & Hi & H).
    unfold Heap.ret in H. injection H as <- <- <-.
    apply try_float_inv in Hi as [Hnew _].
    assert (Hold : is_Some (s2 !! Heap.hloc (snd res))).
    { revert Hres. generalize s1 res s2.
      destruct bmm; cbn [negb]; cbv zeta.
      - do 9 (apply (last_step _ _ (fun r st => is_Some (st !! Heap.hloc (snd r))));
              intros ?).
        apply depth_allocated.
      - do 6 (apply (last_step _ _ (fun r st => is_Some (st !! Heap.hloc (snd r))));
              intros ?).
        apply depth_allocated. }
    intros E. rewrite E in Hnew. rewrite Hnew in Hold. now destruct Hold.
  - intros coords shape s out s' H.
    destruct (fresh_normalize_coords s coords shape s (reflexivity s)) as [_ Hf].
    rewrite H in Hf. exact (Hf _ eq_refl).
  - intros depth_map mode depth_min depth_max num_bins target s out s' H.
    destruct (fresh_bin_depths s depth_map mode depth_min depth_max num_bins target s
                (reflexivity s)) as [_ Hf].
    rewrite H in Hf. exact (Hf _ eq_refl).
Qed.

Lemma results_in_new_buffers_witness :
  exists out s',
    Heap.bin_depths caller_handle "UD" 0 1 1 false caller_store = (Ok out, s') /\
    caller_store !! Heap.hloc out = None.
Proof.
  assert (Hr : Heap.read_float caller_handle caller_store
               = (Ok caller_depth_map, caller_store)).
  { unfold Heap.read_float, caller_store. simpl. now rewrite lookup_singleton_eq. }
  pose proof (heap_bin_depths_raw caller_handle caller_store caller_depth_map
                "UD" 0 1 1 Hr) as H.
  destruct (bin_depths_returns caller_depth_map "UD" 0 1 1 false) as [res Hres].
  { now left. }
  { split; [intros _; lia|]. split; discriminate. }
  destruct (bin_depths_raw_inv _ _ _ _ _ _ Hres) as (_ & t & -> & _).
  rewrite Hres in H.
  destruct (Heap.bin_depths caller_handle "UD" 0 1 1 false caller_store)
    as [[out|e] s'] eqn:E; [|contradiction].
  exists out, s'. split; [reflexivity|].
  destruct results_in_new_buffers as (_ & _ & H3).
  exact (H3 _ _ _ _ _ _ _ _ _ E).
Defined.
